(** * Sponsored cross-chain swap engine: fee guarantees, transaction
      validation, quote aggregation and the pending-swap life cycle.

    A shallow embedding of the TypeScript sources
      - [lib/fees/FeeCalculator.ts], [lib/fees/FeeValidator.ts]
      - [lib/transactions/TransactionBuilder.ts]
      - [lib/bridges/ProviderRegistry.ts], [lib/bridges/DeBridgeProvider.ts]
      - [lib/swap/SwapOrchestrator.ts], [lib/config/constants.ts]
    followed by the properties proved about them.

    Conventions of the embedding.
      - A JavaScript [number] is an exact rational ([Q]): rounding to the
        nearest double and overflow are not modelled.  The places where
        the source can leave the finite numbers (a division by zero, a
        failed [parseFloat]) are made explicit with [option], [None]
        standing for a value that is not a finite number.
      - A thrown exception is the [Throw] branch of [result].
      - [Date.now()] is an explicit argument [now] (milliseconds).
      - Promises are run to completion; the outcome of every call to an
        external collaborator (RPC node, bridge API, repository) is an
        explicit argument.
      - A [Map] keyed by strings is a [gmap string _]. *)

From Stdlib Require Import ZArith QArith Qabs Qminmax Qround Qpower Lqa Lia.
From Stdlib Require Import Ascii String.
From stdpp Require Import base option list sorting strings pretty gmap.

Local Open Scope Z_scope.

(** ** Errors and results *)

(** The error hierarchy of [lib/errors]: only the class matters here. *)
Inductive Error : Type :=
  | NotFoundError (resource id : string)
  | QuoteDriftError
  | QuoteExpiredError
  | EconomicValidationError (violations : list string)
  | PriceOracleError (msg : string)
  | BridgeError (msg provider : string)
  | TransactionValidationError (violations : list string)
  | AppError (msg code : string)
  | JsError (msg : string).

Inductive result (A : Type) : Type :=
  | Ok (a : A)
  | Throw (e : Error).
Arguments Ok {A} a.
Arguments Throw {A} e.

#[global] Instance result_ret : MRet result := fun A a => Ok a.

#[global] Instance result_bind : MBind result := fun A B k r =>
  match r with
  | Ok a => k a
  | Throw e => Throw e
  end.

(** [error instanceof AppError]: every class of the hierarchy except a
    plain JavaScript error. *)
Definition instanceof_AppError (e : Error) : bool :=
  match e with JsError _ => false | _ => true end.

(** ** Numbers *)

Module Num.

Definition pow10 (n : nat) : Z := 10 ^ Z.of_nat n.

(** [new Decimal(x).toDecimalPlaces(dp, Decimal.ROUND_UP)]: decimal.js
    rounding mode 0 rounds away from zero. *)
Definition toDecimalPlaces_ROUND_UP (x : Q) (dp : nat) : Q :=
  let scaled := (x * inject_Z (pow10 dp))%Q in
  let units := if Qle_bool 0 x then Qceiling scaled else Qfloor scaled in
  (inject_Z units / inject_Z (pow10 dp))%Q.

(** [Math.abs] *)
Definition abs (x : Q) : Q := Qabs x.

(** [a / b] on numbers: not finite when [b] is zero. *)
Definition div (a b : Q) : option Q :=
  if Qeq_bool b 0 then None else Some (a / b)%Q.

(** [x <= y] for a non-negative or non-finite [x] and a finite [y]: false
    on [NaN] and on [+Infinity]. *)
Definition le_opt (x : option Q) (y : Q) : bool :=
  match x with
  | Some v => Qle_bool v y
  | None => false
  end.

End Num.

(** ** Configuration ([lib/config/constants.ts]) *)

Definition LAMPORTS_PER_SOL : Q := 1000000000.
Definition PLATFORM_FEE_BPS : Q := 0.
Definition SOLANA_BASE_FEE_LAMPORTS : Q := 5000.
Definition DEBRIDGE_ORDER_RENT_LAMPORTS : Q := 18000000.

(** The constants read from the environment, with the defaults of the
    source ([Number(env.X ?? default)]). *)
Record Config : Type := {
  FEE_VOLATILITY_BUFFER : Q;
  MAX_QUOTE_DRIFT : Q;
  QUOTE_EXPIRY_SECONDS : Z
}.

Definition defaultConfig : Config :=
  {| FEE_VOLATILITY_BUFFER := 15 # 100;
     MAX_QUOTE_DRIFT := 2 # 100;
     QUOTE_EXPIRY_SECONDS := 30 |}.

(** ** Shared data ([types/bridge.ts], [types/swap.ts]) *)

Inductive FeeToken : Type := USDC | SOL.

Record UserFee : Type := {
  fee_token : FeeToken;
  fee_amount : Q;
  valueUSD : Q
}.

Record CostBreakdown : Type := {
  solanaGasFee : Q;
  solanaPriorityFee : Q;
  bridgeFee : Q;
  transferFee : option Q;
  accountRentCost : option Q;
  totalSponsorCost : Q
}.

Record QuoteValidation : Type := {
  isValid : bool;
  driftPercentage : option Q;
  currentDestAmount : option string;
  reason : option string
}.

(** ** Byte buffers (Node's [Buffer] / [Uint8Array]) *)

Module Buffer.

(** A byte is a [Z] in [0, 256). *)
Abbreviation bytes := (list Z).

Fixpoint le_combine (l : bytes) : Z :=
  match l with
  | [] => 0
  | b :: t => b + 256 * le_combine t
  end.

Definition to_signed (bits u : Z) : Z :=
  if u <? 2 ^ (bits - 1) then u else u - 2 ^ bits.

(** [buf.slice(start, end)] for [0 <= start <= end]: clamped to the buffer. *)
Definition slice (data : bytes) (start stop : nat) : bytes :=
  take (stop - start) (drop start data).

(** Reads of [n] bytes at [off] raise a range error outside the buffer. *)
Definition readUIntLE (data : bytes) (off : Z) (n : nat) : result Z :=
  if (off <? 0) || (Z.of_nat (length data) <? off + Z.of_nat n)
  then Throw (JsError "ERR_OUT_OF_RANGE")
  else Ok (le_combine (take n (drop (Z.to_nat off) data))).

Definition readBigInt64LE (data : bytes) (off : Z) : result Z :=
  u ← readUIntLE data off 8; Ok (to_signed 64 u).

Definition readInt32LE (data : bytes) (off : Z) : result Z :=
  u ← readUIntLE data off 4; Ok (to_signed 32 u).

Fixpoint starts_with (pat data : bytes) : bool :=
  match pat, data with
  | [], _ => true
  | _ :: _, [] => false
  | p :: pat', d :: data' => (p =? d) && starts_with pat' data'
  end.

Fixpoint indexOf_from (data pat : bytes) (i : Z) : Z :=
  if starts_with pat data then i
  else match data with
       | [] => -1
       | _ :: data' => indexOf_from data' pat (i + 1)
       end.

(** [data.indexOf(pat)]: first position of [pat], or [-1]. *)
Definition indexOf (data pat : bytes) : Z := indexOf_from data pat 0.

End Buffer.

(** ** Fee calculator ([lib/fees/FeeCalculator.ts]) *)

Module FeeCalculator.

Import Buffer.

Definition MAX_PRICE_AGE_SECONDS : Z := 300.
Definition PRICE_CACHE_TTL : Z := 60000.

(** The SOL/USD feed id the account data is scanned for. *)
Definition FEED_ID : bytes :=
  [0xef; 0x0d; 0x8b; 0x6f; 0xda; 0x2c; 0xeb; 0xa4;
   0x1d; 0xa1; 0x5d; 0x40; 0x95; 0xd1; 0xda; 0x39;
   0x2a; 0x0d; 0x2f; 0x8e; 0xd0; 0xc6; 0xc7; 0xbc;
   0x0f; 0x4c; 0xfa; 0xc8; 0xc2; 0x80; 0xb5; 0x6d].

Record PriceEntry : Type := { price : Q; timestamp : Z }.

(** [private priceCache: Map<string, { price; timestamp }>] *)
Abbreviation PriceCache := (gmap string PriceEntry).

(** What [rpc.getAccountInfo(PYTH_SOL_USD_PRICE_ACCOUNT).send()] answers. *)
Inductive AccountInfoReply : Type :=
  | RpcFails (msg : string)
  | AccountMissing
  | AccountData (data : bytes).

Record MinimumFee : Type := { feeInUsdc : Q; feeInSol : Q }.

(** The three fields read from the [PriceFeedMessage] that follows the
    feed id: [price (i64)] at +0, [expo (i32)] at +16, [publish_time (i64)]
    at +20. *)
Record PriceFeedMessage : Type := {
  pf_price : Z;
  pf_exponent : Z;
  pf_publishTime : Z
}.

Definition readPriceFeedMessage (data : bytes) : result PriceFeedMessage :=
  let feedOffset := indexOf data FEED_ID in
  if feedOffset <? 0
  then Throw (PriceOracleError "SOL/USD feed ID not found in Pyth account data")
  else
    let base := feedOffset + 32 in
    p ← readBigInt64LE data base;
    e ← readInt32LE data (base + 16);
    t ← readBigInt64LE data (base + 20);
    Ok {| pf_price := p; pf_exponent := e; pf_publishTime := t |}.

(** [Number(price) * 10 ** exponent], as an exact number. *)
Definition actualPrice (m : PriceFeedMessage) : Q :=
  (inject_Z (pf_price m) * Qpower 10 (pf_exponent m))%Q.

(** [Math.floor(Date.now() / 1000) - publishTime] *)
Definition priceAge (now : Z) (m : PriceFeedMessage) : Z :=
  now / 1000 - pf_publishTime m.

Definition checkPrice (now : Z) (m : PriceFeedMessage) : result Q :=
  if MAX_PRICE_AGE_SECONDS <? priceAge now m
  then Throw (PriceOracleError "Pyth on-chain price is stale")
  else
    let p := actualPrice m in
    if negb (Qle_bool 10 p) || negb (Qle_bool p 1000)
    then Throw (PriceOracleError "Pyth price seems unreasonable")
    else Ok p.

Definition fetchPythPriceOnchain (reply : AccountInfoReply) (now : Z) : result Q :=
  match reply with
  | RpcFails msg => Throw (JsError msg)
  | AccountMissing =>
      Throw (PriceOracleError "Pyth SOL/USD price account not found on-chain")
  | AccountData data =>
      m ← readPriceFeedMessage data; checkPrice now m
  end.

Definition SOL_USD : string := "SOL/USD".

(** The [try { fetch } catch { stale fallback }] half of [getSolPrice]. *)
Definition refreshSolPrice (cache : PriceCache) (now : Z)
    (reply : AccountInfoReply) : PriceCache * result Q :=
  match fetchPythPriceOnchain reply now with
  | Ok p => (<[SOL_USD := {| price := p; timestamp := now |}]> cache, Ok p)
  | Throw _ =>
      match cache !! SOL_USD with
      | Some cached => (cache, Ok (price cached))
      | None =>
          (cache,
           Throw (PriceOracleError
             "SOL price unavailable: Pyth oracle returned no valid price and no cache exists"))
      end
  end.

Definition getSolPrice (cache : PriceCache) (now : Z)
    (reply : AccountInfoReply) : PriceCache * result Q :=
  match cache !! SOL_USD with
  | Some cached =>
      if now - timestamp cached <? PRICE_CACHE_TTL
      then (cache, Ok (price cached))
      else refreshSolPrice cache now reply
  | None => refreshSolPrice cache now reply
  end.

Definition getCachedSolPrice (cache : PriceCache) : result Q :=
  match cache !! SOL_USD with
  | Some cached => Ok (price cached)
  | None =>
      Throw (PriceOracleError
        "No cached SOL price available - call getSolPrice() first")
  end.

(** The arithmetic of [calculateMinimumFee] once the price is known. *)
Definition minimumFeeAt (solPriceUsd : Q) (costs : CostBreakdown)
    (volatilityBuffer : Q) : MinimumFee :=
  let totalCostLamports := totalSponsorCost costs in
  let totalCostSol := (totalCostLamports / LAMPORTS_PER_SOL)%Q in
  let bufferedCostSol := (totalCostSol * (1 + volatilityBuffer))%Q in
  let platformFeeMultiplier := (1 + PLATFORM_FEE_BPS / 10000)%Q in
  let finalCostSol := (bufferedCostSol * platformFeeMultiplier)%Q in
  let finalCostUsd := (finalCostSol * solPriceUsd)%Q in
  {| feeInUsdc := Num.toDecimalPlaces_ROUND_UP finalCostUsd 6;
     feeInSol := Num.toDecimalPlaces_ROUND_UP finalCostSol 9 |}.

Definition calculateMinimumFee (cache : PriceCache) (now : Z)
    (reply : AccountInfoReply) (costs : CostBreakdown)
    (volatilityBuffer : Q) : PriceCache * result MinimumFee :=
  let '(cache', r) := getSolPrice cache now reply in
  (cache', solPriceUsd ← r; Ok (minimumFeeAt solPriceUsd costs volatilityBuffer)).

(** [try { ... } catch { return false }] around the cached-price read. *)
Definition validateFeeCoverage (cfg : Config) (cache : PriceCache)
    (userFee : UserFee) (sponsorCosts : CostBreakdown) : bool :=
  match getCachedSolPrice cache with
  | Ok solPrice =>
      let feeValueUsd := valueUSD userFee in
      let costSol := (totalSponsorCost sponsorCosts / LAMPORTS_PER_SOL)%Q in
      let costUsd := (costSol * solPrice)%Q in
      let requiredMinimum := (costUsd * (1 + FEE_VOLATILITY_BUFFER cfg))%Q in
      Qle_bool requiredMinimum feeValueUsd
  | Throw _ => false
  end.

(** *** A concrete price account, used to run the definitions

    Layout of the source comment: [8 discriminator][32 write_authority]
    [1 verification_level] then the feed message
    [32 feed_id][8 price][8 conf][4 expo][8 publish_time]. *)

Fixpoint le_bytes (n : nat) (z : Z) : bytes :=
  match n with
  | O => []
  | S n' => z mod 256 :: le_bytes n' (z / 256)
  end.

Definition priceAccountData (price0 conf expo publishTime : Z) : bytes :=
  replicate 8 7 ++ replicate 32 1 ++ [1] ++ FEED_ID
  ++ le_bytes 8 price0 ++ le_bytes 8 conf ++ le_bytes 4 expo
  ++ le_bytes 8 publishTime ++ replicate 20 0.

(** SOL at 150 USD ([15000000000 * 10^-8]), published at second
    1700000000 and read ten seconds later. *)
Definition exampleReply : AccountInfoReply :=
  AccountData (priceAccountData 15000000000 1000000 (-8) 1700000000).
Definition exampleNow : Z := 1700000010000.

(** The cost breakdown of the test-suite: 5000 + 10000 lamports. *)
Definition exampleCosts : CostBreakdown :=
  {| solanaGasFee := 5000; solanaPriorityFee := 10000; bridgeFee := 0;
     transferFee := None; accountRentCost := Some 0%Q;
     totalSponsorCost := 15000 |}.

(** A cache seeded with 150 USD at millisecond 1000. *)
Definition exampleCache : PriceCache :=
  {[ SOL_USD := {| price := 150; timestamp := 1000 |} ]}.




End FeeCalculator.

(** ** Program addresses ([@solana-program/*]) *)

Definition SYSTEM_PROGRAM_ADDRESS : string :=
  "11111111111111111111111111111111".
Definition TOKEN_PROGRAM_ADDRESS : string :=
  "TokenkegQfeZyiNwAJbNbGKPFXCWuBvf9Ss623VQ5DA".
Definition TOKEN_2022_PROGRAM_ADDRESS : string :=
  "TokenzQdBNbLqP5VEhdkAS6EPFLC1PHnBqCXEpPxuEb".
Definition ASSOCIATED_TOKEN_PROGRAM_ADDRESS : string :=
  "ATokenGPvbdGVxr1b2hvZbsiqW5xWH25efTNsLJA8knL".

(** [arr[i]] for a number [i]: [undefined] outside the array. *)
Definition js_index {A} (l : list A) (i : Z) : option A :=
  if i <? 0 then None else l !! Z.to_nat i.

(** Truthiness of an optional string: [undefined] and [''] are falsy. *)
Definition truthy (s : option string) : bool :=
  match s with
  | Some s => negb (String.eqb s "")
  | None => false
  end.

(** ** Fee validator ([lib/fees/FeeValidator.ts]) *)

Module FeeValidator.

Record CompiledInstruction : Type := {
  programIdIndex : Z;
  accountKeyIndexes : list Z;
  data : Buffer.bytes
}.

Record StructureResult : Type := { valid : bool; errors : list string }.

Record LeakResult : Type := { leak_valid : bool; warning : option string }.

Definition is_empty {A} (l : list A) : bool :=
  match l with [] => true | _ => false end.

(** [validation.isValid && validation.driftPercentage <= maxDrift] *)
Definition validateQuoteDrift (validation : QuoteValidation) (maxDrift : Q) : bool :=
  isValid validation && Num.le_opt (driftPercentage validation) maxDrift.

Definition validateNoFundLeak (cfg : Config) (cache : FeeCalculator.PriceCache)
    (userFee : UserFee) (sponsorCosts : CostBreakdown) : LeakResult :=
  let coverageValid := FeeCalculator.validateFeeCoverage cfg cache userFee sponsorCosts in
  if negb coverageValid
  then {| leak_valid := false;
          warning := Some
            "CRITICAL: User fee does not cover sponsor costs - potential fund leak!" |}
  else {| leak_valid := true; warning := None |}.

Definition validateTransactionStructure
    (compiledInstructions : list CompiledInstruction)
    (staticAccountKeys : list string) : StructureResult :=
  let errors0 :=
    if (length compiledInstructions <? 2)%nat
    then ["Transaction must have at least 2 instructions"]
    else [] in
  match compiledInstructions with
  | [] => {| valid := false; errors := errors0 |}
  | firstIx :: _ =>
      let programId := js_index staticAccountKeys (programIdIndex firstIx) in
      if negb (truthy programId)
      then {| valid := false;
              errors := errors0 ++ ["Cannot resolve program ID for first instruction"] |}
      else
        let isSystemTransfer := bool_decide (programId = Some SYSTEM_PROGRAM_ADDRESS) in
        let isTokenTransfer :=
          bool_decide (programId = Some TOKEN_PROGRAM_ADDRESS)
          || bool_decide (programId = Some TOKEN_2022_PROGRAM_ADDRESS) in
        let errors1 :=
          if negb isSystemTransfer && negb isTokenTransfer
          then errors0 ++
               ["First instruction must be fee transfer (SystemProgram or TokenProgram)"]
          else errors0 in
        {| valid := is_empty errors1; errors := errors1 |}
  end.

(** The instruction lists of the unit tests. *)
Definition testKeys : list string :=
  ["FeePayer"; "User"; SYSTEM_PROGRAM_ADDRESS; "BridgeProgram";
   ASSOCIATED_TOKEN_PROGRAM_ADDRESS].
Definition testTransfer : CompiledInstruction :=
  {| programIdIndex := 2; accountKeyIndexes := [0; 1]; data := [2; 0; 0; 0] |}.
Definition testBridge : CompiledInstruction :=
  {| programIdIndex := 3; accountKeyIndexes := [1]; data := [1] |}.

End FeeValidator.

(** ** [parseFloat] *)

Module ParseFloat.

Definition digit_of (c : ascii) : option Z :=
  let n := Z.of_N (N_of_ascii c) in
  if (48 <=? n) && (n <=? 57) then Some (n - 48) else None.

Definition is_space (c : ascii) : bool :=
  let n := Z.of_N (N_of_ascii c) in
  (n =? 32) || ((9 <=? n) && (n <=? 13)).

Fixpoint skip_spaces (s : string) : string :=
  match s with
  | String c s' => if is_space c then skip_spaces s' else s
  | EmptyString => s
  end.

(** The longest run of decimal digits at the head of [s]: its value, its
    length and the rest of the string. *)
Fixpoint read_digits (s : string) (acc : Z) (n : nat) : Z * nat * string :=
  match s with
  | String c s' =>
      match digit_of c with
      | Some d => read_digits s' (10 * acc + d) (S n)
      | None => (acc, n, s)
      end
  | EmptyString => (acc, n, s)
  end.

(** The exponent part [e[+-]digits], when a digit follows; otherwise it is
    not part of the literal. *)
Definition read_exponent (s : string) : Z :=
  match s with
  | String c r =>
      if (Ascii.eqb c "e" || Ascii.eqb c "E")%bool then
        let '(neg, r') :=
          match r with
          | String "-" r' => (true, r')
          | String "+" r' => (false, r')
          | _ => (false, r)
          end in
        let '(v, n, _) := read_digits r' 0 0 in
        if (n =? 0)%nat then 0 else if neg then - v else v
      else 0
  | EmptyString => 0
  end.

(** [parseFloat(s)]: the value of the longest decimal-literal prefix after
    leading white space; [None] when the result is not a finite number
    ([NaN], or the literal [Infinity]). *)
Definition parseFloat (s : string) : option Q :=
  let s0 := skip_spaces s in
  let '(neg, s1) :=
    match s0 with
    | String "-" r => (true, r)
    | String "+" r => (false, r)
    | _ => (false, s0)
    end in
  let '(ip, ni, s2) := read_digits s1 0 0 in
  let '(fp, nf, s3) :=
    match s2 with
    | String "." r => read_digits r 0 0
    | _ => (0, 0%nat, s2)
    end in
  if (ni + nf =? 0)%nat then None
  else
    let mantissa := (inject_Z ip + inject_Z fp / inject_Z (Num.pow10 nf))%Q in
    let v := (mantissa * Qpower 10 (read_exponent s3))%Q in
    Some (if neg then (- v)%Q else v).

End ParseFloat.

(** ** Quotes ([types/bridge.ts]) *)

Record RouteInfo : Type := { totalFees : string }.

Record BridgeQuote : Type := {
  provider : string;
  quoteId : string;
  sourceAmount : string;
  destAmount : string;
  estimatedDuration : Q;
  validUntil : Z;
  route : RouteInfo;
  estimatedCosts : CostBreakdown;
  rawQuote : string
}.

(** [error instanceof Error ? error.message : String(error)] *)
Definition error_message (e : Error) : string :=
  match e with
  | NotFoundError resource id => resource +:+ " not found: " +:+ id
  | QuoteDriftError => "Quote drift too high"
  | QuoteExpiredError => "Quote expired. Please request a new quote."
  | EconomicValidationError _ => "Economic validation failed"
  | PriceOracleError msg => msg
  | BridgeError msg _ => msg
  | TransactionValidationError _ => "Transaction validation failed"
  | AppError msg _ => msg
  | JsError msg => msg
  end.

(** ** DeBridge provider: quote re-validation ([lib/bridges/DeBridgeProvider.ts]) *)

Module DeBridgeProvider.

(** [Math.abs((currentAmount - originalAmount) / originalAmount)] on the
    parsed amounts; not finite when an amount does not parse or the
    original amount is zero. *)
Definition drift (originalDest currentDest : string) : option Q :=
  originalAmount ← ParseFloat.parseFloat originalDest;
  currentAmount ← ParseFloat.parseFloat currentDest;
  Num.abs <$> Num.div (currentAmount - originalAmount) originalAmount.

(** [validateQuote(quote)]; [requote] is what [this.getQuote(params)]
    answers for the parameters of [quote]. *)
Definition validateQuote (cfg : Config) (now : Z) (quote : BridgeQuote)
    (requote : result BridgeQuote) : QuoteValidation :=
  if validUntil quote <? now
  then {| isValid := false; driftPercentage := Some 0%Q;
          currentDestAmount := None; reason := Some "Quote expired" |}
  else
    match requote with
    | Ok freshQuote =>
        let d := drift (destAmount quote) (destAmount freshQuote) in
        {| isValid := Num.le_opt d (MAX_QUOTE_DRIFT cfg);
           driftPercentage := d;
           currentDestAmount := Some (destAmount freshQuote);
           reason := None |}
    | Throw _ =>
        {| isValid := false; driftPercentage := Some 0%Q;
           currentDestAmount := None; reason := Some "Failed to validate quote" |}
    end.

(** The check [prepareSwap] applies to a quote: the provider's validation
    followed by [feeValidator.validateQuoteDrift] at the default bound. *)
Definition quoteAccepted (cfg : Config) (now : Z) (quote : BridgeQuote)
    (requote : result BridgeQuote) : bool :=
  FeeValidator.validateQuoteDrift (validateQuote cfg now quote requote)
    (MAX_QUOTE_DRIFT cfg).

(** A quote with the given destination amount, valid until [until]. *)
Definition exampleQuote (dest : string) (until : Z) : BridgeQuote :=
  {| provider := "debridge"; quoteId := "q-1"; sourceAmount := "100";
     destAmount := dest; estimatedDuration := 180; validUntil := until;
     route := {| totalFees := "0" |};
     estimatedCosts := FeeCalculator.exampleCosts; rawQuote := "" |}.

End DeBridgeProvider.

(** The programs a fee instruction can target: native transfer (System),
    token transfer (Token, Token-2022), idempotent associated-account
    creation (Associated Token). *)
Definition fee_transfer_capable (programId : string) : Prop :=
  programId = SYSTEM_PROGRAM_ADDRESS \/ programId = TOKEN_PROGRAM_ADDRESS \/
  programId = TOKEN_2022_PROGRAM_ADDRESS \/
  programId = ASSOCIATED_TOKEN_PROGRAM_ADDRESS.

(** ** [Array.prototype.sort]

    The sort of the language standard is stable.  [cmp a b] is the
    comparator's number: negative puts [a] first, positive puts [b] first,
    zero keeps the order of the input. *)

Module ArraySort.

Fixpoint insert_by {A} (cmp : A -> A -> Q) (x : A) (l : list A) : list A :=
  match l with
  | [] => [x]
  | y :: l' => if Qle_bool (cmp x y) 0 then x :: l else y :: insert_by cmp x l'
  end.

Definition sort {A} (cmp : A -> A -> Q) (l : list A) : list A :=
  foldr (insert_by cmp) [] l.

(** The comparator [(a, b) => key(b) - key(a)]. *)
Definition by_key_desc {A} (key : A -> Q) (a b : A) : Q := (key b - key a)%Q.

(** [b] may follow [a] in a list that descends by [key]. *)
Definition key_ge {A} (key : A -> Q) (a b : A) : Prop := (key b <= key a)%Q.

(** [l] is in descending order of [key]. *)
Definition descending {A} (key : A -> Q) (l : list A) : Prop :=
  forall i j x y, (i < j)%nat -> l !! i = Some x -> l !! j = Some y ->
                  (key y <= key x)%Q.


End ArraySort.

(** ** Provider registry ([lib/bridges/ProviderRegistry.ts]) *)

Module ProviderRegistry.

(** A provider as the registry sees it during one aggregation: its name
    and what its two calls answer for the request at hand. *)
Record Provider : Type := {
  name : string;
  supportsRoute : result bool;
  getQuote : result BridgeQuote
}.

Inductive ProviderStatus : Type := success | no_route | error.

Record ProviderResult : Type := {
  pr_provider : string;
  pr_status : ProviderStatus;
  pr_error : option string
}.

Record AggregatedQuotes : Type := {
  quotes : list BridgeQuote;
  bestQuote : option BridgeQuote;
  recommendedQuote : BridgeQuote;
  providerResults : list ProviderResult
}.

(** [providers: Map<string, IBridgeProvider>]: a [Map] iterates in
    insertion order, and setting an existing key keeps its position. *)
Abbreviation Registry := (list (string * Provider)).

Fixpoint map_set (k : string) (v : Provider) (m : Registry) : Registry :=
  match m with
  | [] => [(k, v)]
  | (k', v') :: m' =>
      if String.eqb k k' then (k, v) :: m' else (k', v') :: map_set k v m'
  end.

Definition register (p : Provider) (m : Registry) : Registry :=
  map_set (name p) p m.

Definition unregister (providerName : string) (m : Registry) : Registry :=
  List.filter (fun kv => negb (String.eqb (fst kv) providerName)) m.

Definition getAllProviders (m : Registry) : list Provider := snd <$> m.

(** [parseFloat(quote.destAmount) - parseFloat(quote.route.totalFees)] *)
Definition calculateNetAmount (quote : BridgeQuote) : option Q :=
  d ← ParseFloat.parseFloat (destAmount quote);
  f ← ParseFloat.parseFloat (totalFees (route quote));
  Some (d - f)%Q.

(** A comparator [(a, b) => key(b) - key(a)].  [None] stands for a key that
    is not a finite number; the difference is then taken to be [NaN], which
    [sort] treats as 0.  (Infinite keys are not told apart from [NaN]: the
    properties of the ranking are stated for finite keys.) *)
Definition descending_cmp {A} (key : A -> option Q) (a b : A) : Q :=
  match key b, key a with
  | Some kb, Some ka => (kb - ka)%Q
  | _, _ => 0%Q
  end.

Definition rankQuotes (l : list BridgeQuote) : list BridgeQuote :=
  ArraySort.sort (descending_cmp calculateNetAmount) l.

(** [Math.max(...xs)] of a non-empty list. *)
Definition max_list (l : list Q) : option Q :=
  match l with
  | [] => None
  | x :: l' => Some (foldr Qmax x l')
  end.

(** The weighted score of [quote] among the ranked candidates:
    [amountScore * 0.7 + speedScore * 0.3]. *)
Definition score (rankedQuotes : list BridgeQuote) (quote : BridgeQuote) : option Q :=
  netAmount ← calculateNetAmount quote;
  first ← head rankedQuotes;
  maxAmount ← calculateNetAmount first;
  amountScore ← Num.div netAmount maxAmount;
  maxDur ← max_list (estimatedDuration <$> rankedQuotes);
  ratio ← Num.div (estimatedDuration quote) maxDur;
  let speedScore := (1 - ratio)%Q in
  Some (amountScore * (7 # 10) + speedScore * (3 # 10))%Q.

Definition selectRecommendedQuote (rankedQuotes : list BridgeQuote)
    : result BridgeQuote :=
  match rankedQuotes with
  | [q] => Ok q
  | _ =>
      let scoredQuotes := (fun q => (q, score rankedQuotes q)) <$> rankedQuotes in
      match ArraySort.sort (descending_cmp snd) scoredQuotes with
      | best :: _ => Ok (fst best)
      | [] => Throw (JsError "Cannot read properties of undefined (reading 'quote')")
      end
  end.

(** The support probe of one provider: a probe that throws counts as
    support. *)
Definition supported (p : Provider) : bool :=
  match supportsRoute p with
  | Ok b => b
  | Throw _ => true
  end.

(** The record a provider's probe pushes, if any. *)
Definition probeResult (p : Provider) : option ProviderResult :=
  match supportsRoute p with
  | Ok false => Some {| pr_provider := name p; pr_status := no_route; pr_error := None |}
  | _ => None
  end.

(** The record a provider's quote call pushes. *)
Definition quoteResult (p : Provider) : ProviderResult :=
  match getQuote p with
  | Ok _ => {| pr_provider := name p; pr_status := success; pr_error := None |}
  | Throw e =>
      {| pr_provider := name p; pr_status := error;
         pr_error := Some (error_message e) |}
  end.

Definition quoteOf (p : Provider) : option BridgeQuote :=
  match getQuote p with
  | Ok q => Some q
  | Throw _ => None
  end.

(** The elements of [l] at the positions listed in [order]. *)
Definition in_order {A} (order : list nat) (l : list A) : list A :=
  omap (fun i => l !! i) order.

(** [getAggregatedQuotes(params)].  The probes run concurrently, then the
    quote calls do: [probeOrder] and [quoteOrder] give the order in which
    the calls of each round complete (positions in the provider list, resp.
    in the list of eligible providers), which is the order of the pushes to
    [providerResults]; [Promise.all] keeps the order of the providers for
    the values. *)
Definition getAggregatedQuotes (m : Registry) (probeOrder quoteOrder : list nat)
    : result AggregatedQuotes :=
  let providers := getAllProviders m in
  if (length providers =? 0)%nat
  then Throw (JsError "No bridge providers registered")
  else
    let probed := omap probeResult (in_order probeOrder providers) in
    let eligibleProviders := List.filter supported providers in
    if (length eligibleProviders =? 0)%nat
    then Throw (JsError "No providers support this token pair")
    else
      let quoted := quoteResult <$> in_order quoteOrder eligibleProviders in
      let quotes0 := omap quoteOf eligibleProviders in
      if (length quotes0 =? 0)%nat
      then Throw (JsError "Failed to get quotes from any provider")
      else
        let rankedQuotes := rankQuotes quotes0 in
        recommended ← selectRecommendedQuote rankedQuotes;
        Ok {| quotes := rankedQuotes;
              bestQuote := head rankedQuotes;
              recommendedQuote := recommended;
              providerResults := probed ++ quoted |}.

(** The net amount and the score as finite numbers (0 when not finite). *)
Definition netAmount (quote : BridgeQuote) : Q :=
  default 0%Q (calculateNetAmount quote).


(** Three quotes: the best net amount is slow, the runner-up is fast. *)
Definition quoteA : BridgeQuote :=
  {| provider := "relay"; quoteId := "a"; sourceAmount := "100";
     destAmount := "1000"; estimatedDuration := 300; validUntil := 30000;
     route := {| totalFees := "50" |};
     estimatedCosts := FeeCalculator.exampleCosts; rawQuote := "" |}.
Definition quoteB : BridgeQuote :=
  {| provider := "debridge"; quoteId := "b"; sourceAmount := "100";
     destAmount := "1100"; estimatedDuration := 600; validUntil := 30000;
     route := {| totalFees := "20" |};
     estimatedCosts := FeeCalculator.exampleCosts; rawQuote := "" |}.
Definition quoteC : BridgeQuote :=
  {| provider := "other"; quoteId := "c"; sourceAmount := "100";
     destAmount := "960"; estimatedDuration := 100; validUntil := 30000;
     route := {| totalFees := "10" |};
     estimatedCosts := FeeCalculator.exampleCosts; rawQuote := "" |}.

Definition exampleQuotes : list BridgeQuote := [quoteA; quoteB; quoteC].

(** A registry of four providers: one quotes, one fails its probe and
    then quotes, one fails its quote call, one has no route. *)
Definition exampleRegistry : Registry :=
  register {| name := "slow"; supportsRoute := Ok false; getQuote := Ok quoteC |}
    (register {| name := "flaky"; supportsRoute := Ok true;
                 getQuote := Throw (BridgeError "Failed to get quote" "flaky") |}
       (register {| name := "debridge"; supportsRoute := Throw (JsError "timeout");
                    getQuote := Ok quoteB |}
          (register {| name := "relay"; supportsRoute := Ok true;
                       getQuote := Ok quoteA |} []))).

(** Every call of a round completes exactly once. *)
Definition complete_schedule (order : list nat) (n : nat) : Prop :=
  order ≡ₚ seq 0 n.

End ProviderRegistry.

(** ** Transaction builder ([lib/transactions/TransactionBuilder.ts]) *)

Module TransactionBuilder.

Import Buffer.

Record CompiledInstruction : Type := {
  programAddressIndex : Z;
  accountIndices : option (list Z);
  data : option bytes
}.

Inductive MessageVersion : Type := legacy | v0.

(** What [getCompiledTransactionMessageDecoder().decode] yields; addresses
    and the lifetime token are base58 strings. *)
Record CompiledTransactionMessage : Type := {
  version : MessageVersion;
  staticAccounts : list string;
  lifetimeToken : string;
  instructions : list CompiledInstruction
}.

(** What [getTransactionDecoder().decode] yields: the signature slot of
    every signer address ([None] for an empty slot) and the message bytes. *)
Record Transaction : Type := {
  signatures : list (string * option bytes);
  messageBytes : bytes
}.

(** The codecs the builder takes from [@solana/kit] and [bs58]. *)
Class SolanaCodec : Type := {
  decodeTransaction : bytes -> result Transaction;
  decodeMessage : bytes -> result CompiledTransactionMessage;
  bs58_decode : string -> result bytes
}.

Record ValidationResult : Type := {
  isValid : bool;
  errors : list string;
  warnings : list string
}.

Definition is_empty {A} (l : list A) : bool :=
  match l with [] => true | _ => false end.

(** *** [validateNoFundLeak] *)

Definition hex_digit (n : Z) : string :=
  String.substring (Z.to_nat n) 1 "0123456789abcdef".

(** [Buffer.from(data).toString('hex')] *)
Definition toHex (data : bytes) : string :=
  String.concat "" ((fun b => hex_digit (b / 16) +:+ hex_digit (b mod 16)) <$> data).

(** [`${ix.programAddressIndex}-${indices}-${dataHex}`] *)
Definition instructionHash (ix : CompiledInstruction) : string :=
  let dataHex := match data ix with Some d => toHex d | None => "" end in
  let indices :=
    match accountIndices ix with
    | Some l => String.concat "," (pretty <$> l)
    | None => ""
    end in
  pretty (programAddressIndex ix) +:+ "-" +:+ indices +:+ "-" +:+ dataHex.

(** The loop over the instructions with its [Set] of hashes seen so far. *)
Fixpoint duplicateWarnings (ixs : list CompiledInstruction)
    (instructionHashes : gset string) : list string :=
  match ixs with
  | [] => []
  | ix :: ixs' =>
      let hash := instructionHash ix in
      (if bool_decide (hash ∈ instructionHashes)
       then ["Duplicate instruction detected"] else [])
      ++ duplicateWarnings ixs' ({[ hash ]} ∪ instructionHashes)
  end.

(** The checks on the decoded message (the body of the [try] block after
    the two decodes). *)
Definition validateMessage (message : CompiledTransactionMessage)
    (sponsorAddress : option string) : ValidationResult :=
  let errors0 :=
    if truthy sponsorAddress then
      let feePayer := staticAccounts message !! 0%nat in
      if negb (truthy feePayer) || negb (bool_decide (feePayer = sponsorAddress))
      then ["Sponsor is not the fee payer of this transaction"] else []
    else [] in
  let ixs := instructions message in
  let errors1 :=
    errors0 ++
    (if (length ixs <? 2)%nat
     then ["Transaction must have at least 2 instructions (fee + swap)"] else []) in
  match ixs with
  | [] =>
      {| isValid := false;
         errors := errors1 ++ ["Transaction has no instructions"];
         warnings := [] |}
  | firstInstruction :: _ =>
      let programId :=
        js_index (staticAccounts message) (programAddressIndex firstInstruction) in
      if negb (truthy programId)
      then {| isValid := false;
              errors := errors1 ++ ["Cannot find program ID for first instruction"];
              warnings := [] |}
      else
        let isSystemTransfer := bool_decide (programId = Some SYSTEM_PROGRAM_ADDRESS) in
        let isTokenTransfer :=
          bool_decide (programId = Some TOKEN_PROGRAM_ADDRESS)
          || bool_decide (programId = Some TOKEN_2022_PROGRAM_ADDRESS) in
        let isAtaCreation :=
          bool_decide (programId = Some ASSOCIATED_TOKEN_PROGRAM_ADDRESS) in
        let errors2 :=
          errors1 ++
          (if negb isSystemTransfer && negb isTokenTransfer && negb isAtaCreation
           then ["First instruction must be fee-related (SystemProgram, TokenProgram, or AssociatedTokenProgram)"]
           else []) in
        let warnings0 :=
          if (20 <? length ixs)%nat
          then ["Transaction has unusually high instruction count"] else [] in
        {| isValid := is_empty errors2;
           errors := errors2;
           warnings := warnings0 ++ duplicateWarnings ixs ∅ |}
  end.

Definition decodeCompiled `{SolanaCodec} (serializedTx : bytes)
    : result (Transaction * CompiledTransactionMessage) :=
  decoded ← decodeTransaction serializedTx;
  message ← decodeMessage (messageBytes decoded);
  Ok (decoded, message).

Definition validateNoFundLeak `{SolanaCodec} (serializedTx : bytes)
    (sponsorAddress : option string) : ValidationResult :=
  match decodeCompiled serializedTx with
  | Ok (_, message) => validateMessage message sponsorAddress
  | Throw e =>
      {| isValid := false;
         errors := ["Validation error: " +:+ error_message e];
         warnings := [] |}
  end.

(** *** [replaceBlockhash] *)

(** Width of a compact-u16 length prefix. *)
Definition compactLen (n : nat) : nat :=
  if Z.of_nat n <? 128 then 1%nat
  else if Z.of_nat n <? 16384 then 2%nat else 3%nat.

(** [txBytes[i]! & 0x80 !== 0]; a read past the end gives [undefined],
    whose bitwise and is 0. *)
Definition highBitSet (txBytes : bytes) (i : nat) : bool :=
  negb (Z.land (default 0 (txBytes !! i)) 0x80 =? 0).

Definition blockhashOffset (decoded : Transaction)
    (compiledMsg : CompiledTransactionMessage) (txBytes : bytes) : nat :=
  let numSigs := length (signatures decoded) in
  let sigsCompact := compactLen numSigs in
  let msgStart := (sigsCompact + numSigs * 64)%nat in
  let isV0 := highBitSet txBytes msgStart in
  let prefixLen := if isV0 then 1%nat else 0%nat in
  let headerLen := 3%nat in
  let numAccounts := length (staticAccounts compiledMsg) in
  let accountsCompact := compactLen numAccounts in
  (msgStart + prefixLen + headerLen + accountsCompact + numAccounts * 32)%nat.

(** [existing.every((b, i) => b === oldBytes[i])] *)
Fixpoint every_equal (existing oldBytes : bytes) : bool :=
  match existing with
  | [] => true
  | b :: existing' =>
      match oldBytes with
      | o :: oldBytes' => (b =? o) && every_equal existing' oldBytes'
      | [] => false
      end
  end.

(** [result.set(newBytes, offset)] on a copy: a range error when the
    source does not fit. *)
Definition set_at (target newBytes : bytes) (offset : nat) : result bytes :=
  if (length target <? offset + length newBytes)%nat
  then Throw (JsError "RangeError: offset is out of bounds")
  else Ok (take offset target ++ newBytes
           ++ drop (offset + length newBytes) target).

(** [recent] is what [solanaService.getRecentBlockhash()] answers. *)
Definition replaceBlockhash `{SolanaCodec} (recent : result string)
    (txBytes : bytes) : result bytes :=
  blockhash ← recent;
  '(decoded, compiledMsg) ← decodeCompiled txBytes;
  let oldBlockhash := lifetimeToken compiledMsg in
  if String.eqb oldBlockhash blockhash then Ok txBytes
  else
    oldBytes ← bs58_decode oldBlockhash;
    newBytes ← bs58_decode blockhash;
    let offset := blockhashOffset decoded compiledMsg txBytes in
    let existing := slice txBytes offset (offset + 32) in
    if negb (every_equal existing oldBytes)
    then Throw (JsError
           "Blockhash offset mismatch - raw bytes do not match decoded blockhash")
    else set_at txBytes newBytes offset.

End TransactionBuilder.

(** ** A reference codec for the wire format

    The layout stated in the source of [replaceBlockhash]:
    [[compact-u16 numSigs] [64 B x numSigs] [message]], a message being
    [[1 B prefix 0x80 (v0 only)] [3 B header] [compact-u16 numAccounts]
    [32 B x numAccounts] [32 B blockhash] [instructions] [lookups (v0)]].
    It instantiates [SolanaCodec] so that the builder can be run on
    concrete transactions. *)

Module WireCodec.

Import Buffer TransactionBuilder.

Definition alphabet : string :=
  "123456789ABCDEFGHJKLMNPQRSTUVWXYZabcdefghijkmnopqrstuvwxyz".

Definition be_combine (l : bytes) : Z :=
  fold_left (fun acc b => acc * 256 + b) l 0.

Fixpoint count_leading {A} (p : A -> bool) (l : list A) : nat :=
  match l with
  | x :: l' => if p x then S (count_leading p l') else O
  | [] => O
  end.

Fixpoint to_base58 (fuel : nat) (n : Z) (acc : string) : string :=
  match fuel with
  | O => acc
  | S fuel' =>
      if n =? 0 then acc
      else to_base58 fuel' (n / 58)
             (String.substring (Z.to_nat (n mod 58)) 1 alphabet +:+ acc)
  end.

(** [bs58.encode] *)
Definition bs58_encode (l : bytes) : string :=
  String.concat "" (replicate (count_leading (Z.eqb 0) l) "1")
  +:+ to_base58 (2 * length l) (be_combine l) "".

Fixpoint index_in (c : ascii) (s : string) (i : Z) : option Z :=
  match s with
  | String c' s' => if Ascii.eqb c c' then Some i else index_in c s' (i + 1)
  | EmptyString => None
  end.

Fixpoint from_base58 (s : string) (acc : Z) : option Z :=
  match s with
  | String c s' =>
      match index_in c alphabet 0 with
      | Some d => from_base58 s' (acc * 58 + d)
      | None => None
      end
  | EmptyString => Some acc
  end.

Fixpoint be_split (fuel : nat) (n : Z) (acc : bytes) : bytes :=
  match fuel with
  | O => acc
  | S fuel' => if n =? 0 then acc else be_split fuel' (n / 256) (n mod 256 :: acc)
  end.

Fixpoint count_ones (s : string) : nat :=
  match s with
  | String "1" s' => S (count_ones s')
  | _ => O
  end.

(** [bs58.decode] *)
Definition bs58_decode_ref (s : string) : result bytes :=
  match from_base58 s 0 with
  | Some n => Ok (replicate (count_ones s) 0 ++ be_split (String.length s) n [])
  | None => Throw (JsError "Non-base58 character")
  end.

(** A parser consumes a prefix of the bytes. *)
Definition Parser (A : Type) : Type := bytes -> result (A * bytes).

Definition read_u8 : Parser Z := fun l =>
  match l with
  | b :: l' => Ok (b, l')
  | [] => Throw (JsError "Codec: unexpected end of bytes")
  end.

Definition read_bytes (n : nat) : Parser bytes := fun l =>
  if (length l <? n)%nat then Throw (JsError "Codec: unexpected end of bytes")
  else Ok (take n l, drop n l).

(** compact-u16: seven bits per byte, least significant first, the high
    bit marking a continuation; at most three bytes. *)
Definition read_compact_u16 : Parser nat := fun l =>
  '(b0, l0) ← read_u8 l;
  if Z.land b0 0x80 =? 0 then Ok (Z.to_nat b0, l0)
  else
    '(b1, l1) ← read_u8 l0;
    if Z.land b1 0x80 =? 0
    then Ok (Z.to_nat (Z.land b0 0x7f + 128 * b1), l1)
    else
      '(b2, l2) ← read_u8 l1;
      Ok (Z.to_nat (Z.land b0 0x7f + 128 * Z.land b1 0x7f + 16384 * b2), l2).

Fixpoint read_many {A} (n : nat) (p : Parser A) : Parser (list A) := fun l =>
  match n with
  | O => Ok ([], l)
  | S n' =>
      '(x, l1) ← p l;
      '(xs, l2) ← read_many n' p l1;
      Ok (x :: xs, l2)
  end.

Definition read_address : Parser string := fun l =>
  '(b, l') ← read_bytes 32 l; Ok (bs58_encode b, l').

Definition read_instruction : Parser CompiledInstruction := fun l =>
  '(prog, l1) ← read_u8 l;
  '(n, l2) ← read_compact_u16 l1;
  '(idx, l3) ← read_bytes n l2;
  '(len, l4) ← read_compact_u16 l3;
  '(d, l5) ← read_bytes len l4;
  Ok ({| programAddressIndex := prog; accountIndices := Some idx; data := Some d |}, l5).

Record Header : Type := {
  numSignerAccounts : Z;
  numReadonlySignerAccounts : Z;
  numReadonlyNonSignerAccounts : Z
}.

Definition read_prefix : Parser MessageVersion := fun l =>
  match l with
  | b :: l' =>
      if Z.land b 0x80 =? 0 then Ok (legacy, l)
      else if Z.land b 0x7f =? 0 then Ok (v0, l')
      else Throw (JsError "Codec: unsupported message version")
  | [] => Throw (JsError "Codec: unexpected end of bytes")
  end.

Definition read_header : Parser Header := fun l =>
  '(a, l1) ← read_u8 l;
  '(b, l2) ← read_u8 l1;
  '(c, l3) ← read_u8 l2;
  Ok ({| numSignerAccounts := a; numReadonlySignerAccounts := b;
         numReadonlyNonSignerAccounts := c |}, l3).

Definition read_message : Parser (Header * CompiledTransactionMessage) := fun l =>
  '(ver, l0) ← read_prefix l;
  '(hdr, l1) ← read_header l0;
  '(n, l2) ← read_compact_u16 l1;
  '(accounts, l3) ← read_many n read_address l2;
  '(token, l4) ← read_address l3;
  '(k, l5) ← read_compact_u16 l4;
  '(ixs, l6) ← read_many k read_instruction l5;
  Ok ((hdr, {| version := ver; staticAccounts := accounts;
               lifetimeToken := token; instructions := ixs |}), l6).

Definition decodeMessage_ref (l : bytes) : result CompiledTransactionMessage :=
  '(r, _) ← read_message l; Ok (snd r).

(** A signature slot of 64 zero bytes is an empty slot. *)
Definition signature_slot (sig : bytes) : option bytes :=
  if forallb (Z.eqb 0) sig then None else Some sig.

(** [Object.fromEntries]: a repeated key keeps its first position and
    takes the last value. *)
Fixpoint record_set (k : string) (v : option bytes)
    (m : list (string * option bytes)) : list (string * option bytes) :=
  match m with
  | [] => [(k, v)]
  | (k', v') :: m' =>
      if String.eqb k k' then (k, v) :: m' else (k', v') :: record_set k v m'
  end.

Definition fromEntries (l : list (string * option bytes))
    : list (string * option bytes) :=
  fold_left (fun m kv => record_set (fst kv) (snd kv) m) l [].

Definition decodeTransaction_ref (l : bytes) : result Transaction :=
  '(numSigs, l1) ← read_compact_u16 l;
  '(sigs, l2) ← read_many numSigs (read_bytes 64) l1;
  '(r, _) ← read_message l2;
  let signers := take (Z.to_nat (numSignerAccounts (fst r))) (staticAccounts (snd r)) in
  if negb (length signers =? numSigs)%nat
  then Throw (JsError "Codec: signature count does not match the signer count")
  else Ok {| signatures := fromEntries (zip signers (signature_slot <$> sigs));
             messageBytes := l2 |}.

#[global] Instance referenceCodec : SolanaCodec := {
  decodeTransaction := decodeTransaction_ref;
  decodeMessage := decodeMessage_ref;
  bs58_decode := bs58_decode_ref
}.

(** *** Example transactions *)

Definition sponsorKey : bytes := replicate 32 7.
Definition userKey : bytes := replicate 32 9.
Definition bridgeKey : bytes := replicate 32 3.
Definition systemKey : bytes := replicate 32 0.
Definition oldHash : bytes := replicate 32 5.
Definition newHash : bytes := replicate 32 6.

(** A legacy transaction with two signers (sponsor, user), a system
    transfer of the fee and one bridge instruction. *)
Definition exampleMessage (prefix blockhash : bytes) (ixs : bytes) : bytes :=
  prefix ++ [2; 0; 2] ++ [4] ++ sponsorKey ++ userKey ++ systemKey ++ bridgeKey
  ++ blockhash ++ ixs.

Definition transferIx : bytes := [2; 2; 1; 0; 4; 2; 0; 0; 0].
Definition bridgeIx : bytes := [3; 1; 1; 1; 1].

Definition exampleTx (prefix blockhash : bytes) : bytes :=
  [2] ++ replicate 64 1 ++ replicate 64 0
  ++ exampleMessage prefix blockhash ([2] ++ transferIx ++ bridgeIx).

(** The same with the bridge instruction first. *)
Definition leakTx : bytes :=
  [2] ++ replicate 64 1 ++ replicate 64 0
  ++ exampleMessage [] oldHash ([2] ++ bridgeIx ++ transferIx).

(** The same with the fee transfer repeated. *)
Definition duplicateTx : bytes :=
  [2] ++ replicate 64 1 ++ replicate 64 0
  ++ exampleMessage [] oldHash ([3] ++ transferIx ++ bridgeIx ++ transferIx).

(** A transaction that lists the sponsor twice among its signers: the
    signature record has one key for two signature slots on the wire. *)
Definition twinSignerTx : bytes :=
  [2] ++ replicate 64 1 ++ replicate 64 0
  ++ [2; 0; 2] ++ [4] ++ sponsorKey ++ sponsorKey ++ systemKey ++ bridgeKey
  ++ oldHash ++ [2] ++ transferIx ++ bridgeIx.

(** The decoding of an example transaction. *)
Definition decodedExample (tx : bytes) : Transaction * CompiledTransactionMessage :=
  match decodeCompiled tx with
  | Ok dm => dm
  | Throw _ =>
      ({| signatures := []; messageBytes := [] |},
       {| version := legacy; staticAccounts := []; lifetimeToken := "";
          instructions := [] |})
  end.

Definition sponsorAddress : string := bs58_encode sponsorKey.
Definition userAddress : string := bs58_encode userKey.

End WireCodec.

(** The program the first instruction of a message targets, when it
    resolves. *)
Definition firstProgram (message : TransactionBuilder.CompiledTransactionMessage)
    : option string :=
  firstInstruction ← head (TransactionBuilder.instructions message);
  js_index (TransactionBuilder.staticAccounts message)
    (TransactionBuilder.programAddressIndex firstInstruction).

(** The three hard checks of the builder's fund-leak validation. *)
Definition sponsorIsFeePayer (message : TransactionBuilder.CompiledTransactionMessage)
    (sponsorAddress : option string) : Prop :=
  truthy sponsorAddress = true ->
  TransactionBuilder.staticAccounts message !! 0%nat = sponsorAddress.

Definition firstIsFeeTransfer
    (message : TransactionBuilder.CompiledTransactionMessage) : Prop :=
  exists programId, firstProgram message = Some programId /\
                    fee_transfer_capable programId.

(** ** Swap orchestrator ([lib/swap/SwapOrchestrator.ts]) *)

Module SwapOrchestrator.

Import Buffer.

(** [CreateSwapData] of the repository ([lib/db/swaps.ts]). *)
Record CreateSwapData : Type := {
  cs_userWallet : string;
  cs_destWallet : string;
  cs_sourceToken : string;
  cs_sourceAmount : string;
  cs_destChain : string;
  cs_destToken : string;
  cs_destAmount : string;
  cs_provider : string;
  cs_providerId : string;
  cs_quoteId : string;
  cs_userFeeToken : FeeToken;
  cs_userFeeAmount : Q;
  cs_sponsorCostsSol : Q;
  cs_estimatedDuration : Q
}.

Record PendingSwap : Type := {
  createData : CreateSwapData;
  pending_validUntil : Z
}.

Inductive PrismaSwapStatus : Type := SUBMITTED | BRIDGING | COMPLETED | FAILED.

(** A durable row of the swap repository. *)
Record Swap : Type := {
  swap_data : CreateSwapData;
  swap_status : PrismaSwapStatus;
  swap_solanaSignature : option string;
  swap_errorMessage : option string
}.

(** The orchestrator's private maps together with the collaborators it
    writes to: the durable repository, the transactions handed to the
    chain, and the fee calculator's price cache. *)
Record State : Type := {
  pendingSwaps : gmap string PendingSwap;
  activeMonitors : gset string;
  repository : gmap string Swap;
  submitted : list bytes;
  priceCache : FeeCalculator.PriceCache
}.

Definition set_pending (f : gmap string PendingSwap -> gmap string PendingSwap)
    (st : State) : State :=
  {| pendingSwaps := f (pendingSwaps st);
     activeMonitors := activeMonitors st;
     repository := repository st;
     submitted := submitted st;
     priceCache := priceCache st |}.

Definition set_priceCache (c : FeeCalculator.PriceCache) (st : State) : State :=
  {| pendingSwaps := pendingSwaps st;
     activeMonitors := activeMonitors st;
     repository := repository st;
     submitted := submitted st;
     priceCache := c |}.

Definition set_repository (f : gmap string Swap -> gmap string Swap)
    (st : State) : State :=
  {| pendingSwaps := pendingSwaps st;
     activeMonitors := activeMonitors st;
     repository := f (repository st);
     submitted := submitted st;
     priceCache := priceCache st |}.

Definition submit (tx : bytes) (st : State) : State :=
  {| pendingSwaps := pendingSwaps st;
     activeMonitors := activeMonitors st;
     repository := repository st;
     submitted := submitted st ++ [tx];
     priceCache := priceCache st |}.

Definition start_monitor (swapId : string) (st : State) : State :=
  {| pendingSwaps := pendingSwaps st;
     activeMonitors := {[ swapId ]} ∪ activeMonitors st;
     repository := repository st;
     submitted := submitted st;
     priceCache := priceCache st |}.

(** [cleanupExpiredPendingSwaps] *)
Definition cleanupExpiredPendingSwaps (now : Z) (st : State) : State :=
  set_pending (filter (fun kv => ¬ (pending_validUntil (snd kv) < now))) st.

(** [adjustCostsForSponsoredMode] *)
Definition adjustCostsForSponsoredMode (costs : CostBreakdown)
    (solAdvanceLamports : Q) : CostBreakdown :=
  let adjustedGasFee := (SOLANA_BASE_FEE_LAMPORTS * 2)%Q in
  {| solanaGasFee := adjustedGasFee;
     solanaPriorityFee := solanaPriorityFee costs;
     bridgeFee := bridgeFee costs;
     transferFee := transferFee costs;
     accountRentCost := accountRentCost costs;
     totalSponsorCost :=
       (adjustedGasFee + solanaPriorityFee costs
        + default 0 (accountRentCost costs) + solAdvanceLamports)%Q |}.

(** *** [FeeValidator.validateEconomicGuarantees] *)

Definition convertFee_SOL_to_USDC (cache : FeeCalculator.PriceCache) (now : Z)
    (reply : FeeCalculator.AccountInfoReply) (amount : Q)
    : FeeCalculator.PriceCache * result Q :=
  let '(cache', r) := FeeCalculator.getSolPrice cache now reply in
  (cache', solPrice ← r; Ok (amount * solPrice)%Q).

Definition validateEconomicGuarantees (cfg : Config)
    (cache : FeeCalculator.PriceCache) (now : Z)
    (reply : FeeCalculator.AccountInfoReply)
    (quote : BridgeQuote) (userFee : UserFee) (sponsorCosts : CostBreakdown)
    : FeeCalculator.PriceCache * result (list string) :=
  let errors1 :=
    if FeeCalculator.validateFeeCoverage cfg cache userFee sponsorCosts then []
    else ["User fee does not cover sponsor costs"] in
  let errors2 := if validUntil quote <? now then ["Quote has expired"] else [] in
  let '(cache1, minFees) :=
    FeeCalculator.calculateMinimumFee cache now reply sponsorCosts
      (FEE_VOLATILITY_BUFFER cfg) in
  match minFees with
  | Throw e => (cache1, Throw e)
  | Ok minFees =>
      let '(cache2, userFeeAmount) :=
        match fee_token userFee with
        | USDC => (cache1, Ok (fee_amount userFee))
        | SOL => convertFee_SOL_to_USDC cache1 now reply (fee_amount userFee)
        end in
      (cache2,
       userFeeAmount ← userFeeAmount;
       let errors3 :=
         if negb (Qle_bool (FeeCalculator.feeInUsdc minFees) userFeeAmount)
         then ["Fee too low"] else [] in
       let costSol := (totalSponsorCost sponsorCosts / 1000000000)%Q in
       let errors4 :=
         if negb (Qle_bool costSol (1 # 10))
         then ["Sponsor costs unreasonably high"] else [] in
       Ok (errors1 ++ errors2 ++ errors3 ++ errors4))
  end.

(** *** [prepareSwap] *)

Record BuildTransactionResult : Type := {
  bt_transaction : bytes;
  bt_providerId : option string
}.

Record RequestParams : Type := {
  rp_sourceToken : string;
  rp_destChain : string;
  rp_destToken : string;
  rp_destWallet : string
}.

(** The answers of the provider selected by [quote.provider]. *)
Record ProviderCalls : Type := {
  pc_validateQuote : result QuoteValidation;
  pc_estimateCosts : result CostBreakdown;
  pc_buildTransaction : result BuildTransactionResult
}.

Record Simulation : Type := {
  sim_success : bool;
  sim_insufficientFunds : bool
}.

(** Everything [prepareSwap] obtains from outside during one call. *)
Record PrepareEnv : Type := {
  p_now : Z;
  p_provider : option ProviderCalls;
  p_requestParams : result RequestParams;
  p_recentBlockhash : result string;
  p_oracle : FeeCalculator.AccountInfoReply;
  p_withFeeTransfer : result bytes;
  p_simulation : Simulation;
  p_uuid : string
}.

Record PreparedSwap : Type := {
  ps_quote : BridgeQuote;
  ps_transaction : bytes;
  ps_userFee : UserFee;
  ps_sponsorCosts : CostBreakdown;
  ps_validUntil : Z;
  ps_swapId : string
}.

(** [catch (error) { if (error instanceof AppError) throw error; throw new
    BridgeError(...) }] *)
Definition rethrow_prepare (providerName : string) (e : Error) : Error :=
  if instanceof_AppError e then e
  else BridgeError "Failed to prepare swap" providerName.

(** Steps 1 to 3: quote validation, request parameters, cost estimate and
    the provider's transaction. *)
Definition prepareInputs (cfg : Config) (env : PrepareEnv) (quote : BridgeQuote)
    : result (RequestParams * CostBreakdown * BuildTransactionResult) :=
  match p_provider env with
  | None => Throw (NotFoundError "Provider" (provider quote))
  | Some calls =>
      validation ← pc_validateQuote calls;
      if negb (FeeValidator.validateQuoteDrift validation (MAX_QUOTE_DRIFT cfg))
      then Throw QuoteDriftError
      else
        reqParams ← p_requestParams env;
        costs ← pc_estimateCosts calls;
        built ← pc_buildTransaction calls;
        Ok (reqParams, costs, built)
  end.

(** Step 4, sponsored branch; threads the price cache. *)
Definition prepareSponsored `{TransactionBuilder.SolanaCodec} (cfg : Config)
    (sponsor : string) (env : PrepareEnv) (cache : FeeCalculator.PriceCache)
    (quote : BridgeQuote) (costs : CostBreakdown)
    : FeeCalculator.PriceCache * result (bytes * UserFee * CostBreakdown) :=
  let solAdvance :=
    if String.eqb (provider quote) "debridge"
    then DEBRIDGE_ORDER_RENT_LAMPORTS else 0%Q in
  let finalCosts := adjustCostsForSponsoredMode costs solAdvance in
  let '(cache1, minFees) :=
    FeeCalculator.calculateMinimumFee cache (p_now env) (p_oracle env) finalCosts
      (FEE_VOLATILITY_BUFFER cfg) in
  match minFees with
  | Throw e => (cache1, Throw e)
  | Ok minFees =>
      let userFee :=
        {| fee_token := USDC;
           fee_amount := FeeCalculator.feeInUsdc minFees;
           valueUSD := FeeCalculator.feeInUsdc minFees |} in
      let '(cache2, guarantees) :=
        validateEconomicGuarantees cfg cache1 (p_now env) (p_oracle env)
          quote userFee finalCosts in
      (cache2,
       violations ← guarantees;
       match violations with
       | _ :: _ => Throw (EconomicValidationError violations)
       | [] =>
           completeTx ← p_withFeeTransfer env;
           let txValidation :=
             TransactionBuilder.validateNoFundLeak completeTx (Some sponsor) in
           if negb (TransactionBuilder.isValid txValidation)
           then Throw (TransactionValidationError
                         (TransactionBuilder.errors txValidation))
           else Ok (completeTx, userFee, finalCosts)
       end)
  end.

Definition prepareSwap `{TransactionBuilder.SolanaCodec} (cfg : Config)
    (sponsor : string) (env : PrepareEnv) (st : State) (quote : BridgeQuote)
    (userWallet : string) (feeToken : FeeToken) : State * result PreparedSwap :=
  let st0 := cleanupExpiredPendingSwaps (p_now env) st in
  match prepareInputs cfg env quote with
  | Throw e => (st0, Throw (rethrow_prepare (provider quote) e))
  | Ok (reqParams, costs, built) =>
      let '(cache1, built4) :=
        match feeToken with
        | SOL =>
            (priceCache st0,
             completeTx ← TransactionBuilder.replaceBlockhash
                            (p_recentBlockhash env) (bt_transaction built);
             Ok (completeTx,
                 {| fee_token := SOL; fee_amount := 0; valueUSD := 0 |}, costs))
        | USDC => prepareSponsored cfg sponsor env (priceCache st0) quote costs
        end in
      let st1 := set_priceCache cache1 st0 in
      match built4 with
      | Throw e => (st1, Throw (rethrow_prepare (provider quote) e))
      | Ok (completeTx, userFee, finalCosts) =>
          if negb (sim_success (p_simulation env))
             && sim_insufficientFunds (p_simulation env)
          then (st1, Throw (AppError "Insufficient balance to cover the fee"
                              "INSUFFICIENT_BALANCE"))
          else
            let swapId := p_uuid env in
            let until := p_now env + QUOTE_EXPIRY_SECONDS cfg * 1000 in
            let entry :=
              {| createData :=
                   {| cs_userWallet := userWallet;
                      cs_destWallet := rp_destWallet reqParams;
                      cs_sourceToken := rp_sourceToken reqParams;
                      cs_sourceAmount := sourceAmount quote;
                      cs_destChain := rp_destChain reqParams;
                      cs_destToken := rp_destToken reqParams;
                      cs_destAmount := destAmount quote;
                      cs_provider := provider quote;
                      cs_providerId :=
                        match bt_providerId built with
                        | Some pid => if String.eqb pid "" then quoteId quote else pid
                        | None => quoteId quote
                        end;
                      cs_quoteId := quoteId quote;
                      cs_userFeeToken := fee_token userFee;
                      cs_userFeeAmount := fee_amount userFee;
                      cs_sponsorCostsSol :=
                        match feeToken with
                        | SOL => 0%Q
                        | USDC => totalSponsorCost finalCosts
                        end;
                      cs_estimatedDuration := estimatedDuration quote |};
                 pending_validUntil := until |} in
            (set_pending (insert swapId entry) st1,
             Ok {| ps_quote := quote; ps_transaction := completeTx;
                   ps_userFee := userFee; ps_sponsorCosts := finalCosts;
                   ps_validUntil := until; ps_swapId := swapId |})
      end
  end.

(** *** [executeSwap] *)

Record SendResult : Type := {
  send_success : bool;
  send_signature : option string;
  send_error : option string
}.

(** Everything [executeSwap] obtains from outside during one call: the
    clock, whether the repository calls throw, what
    [sendAndConfirmTransaction] answers, and whether the provider is
    registered when the monitor starts. *)
Record ExecuteEnv : Type := {
  e_now : Z;
  e_create : option Error;
  e_send : result SendResult;
  e_update : option Error;
  e_providerRegistered : bool
}.

Inductive ExecutionStatus : Type := failed | submitted_status.

Record ExecutionResult : Type := {
  er_swapId : string;
  er_status : ExecutionStatus;
  er_signature : option string;
  er_error : option string
}.

Definition failedResult (swapId : string) (err : option string) : ExecutionResult :=
  {| er_swapId := swapId; er_status := failed; er_signature := None;
     er_error := err |}.

(** The [catch] block of [executeSwap]. *)
Definition catch_execute (swapId : string) (st : State) (e : Error)
    : State * result ExecutionResult :=
  let st' := set_pending (delete swapId) st in
  if instanceof_AppError e then (st', Throw e)
  else (st', Ok (failedResult swapId (Some (error_message e)))).

Definition newSwap (d : CreateSwapData) : Swap :=
  {| swap_data := d; swap_status := SUBMITTED;
     swap_solanaSignature := None; swap_errorMessage := None |}.

Definition updateStatus (swapId : string) (status : PrismaSwapStatus)
    (sig err : option string) (st : State) : State :=
  set_repository
    (alter (fun s =>
       {| swap_data := swap_data s; swap_status := status;
          swap_solanaSignature :=
            match sig with Some _ => sig | None => swap_solanaSignature s end;
          swap_errorMessage :=
            match err with Some _ => err | None => swap_errorMessage s end |})
       swapId) st.

(** Steps 5 to 8, inside the [try]: the durable record, the submission,
    the status update and the monitor. *)
Definition createAndSend (env : ExecuteEnv) (st : State) (swapId : string)
    (pending : PendingSwap) (txBytes : bytes) : State * result ExecutionResult :=
  match e_create env with
  | Some e => catch_execute swapId st e
  | None =>
      let st1 := set_repository (insert swapId (newSwap (createData pending))) st in
      let st2 := set_pending (delete swapId) st1 in
      let st3 := submit txBytes st2 in
      match e_send env with
      | Throw e => catch_execute swapId st3 e
      | Ok sent =>
          match e_update env with
          | Some e => catch_execute swapId st3 e
          | None =>
              if negb (send_success sent)
              then (updateStatus swapId FAILED None (send_error sent) st3,
                    Ok (failedResult swapId (send_error sent)))
              else
                let st4 := updateStatus swapId SUBMITTED (send_signature sent) None st3 in
                let st5 :=
                  if e_providerRegistered env then start_monitor swapId st4 else st4 in
                (st5,
                 Ok {| er_swapId := swapId; er_status := submitted_status;
                       er_signature := send_signature sent; er_error := None |})
          end
      end
  end.

(** [txBytes] are the bytes of the base64 argument [userSignedTx]. *)
Definition executeSwap `{TransactionBuilder.SolanaCodec} (sponsor : string)
    (env : ExecuteEnv) (st : State) (swapId : string) (txBytes : bytes)
    : State * result ExecutionResult :=
  match pendingSwaps st !! swapId with
  | None => (st, Throw (NotFoundError "Swap" swapId))
  | Some pending =>
      if pending_validUntil pending <? e_now env
      then (set_pending (delete swapId) st, Throw QuoteExpiredError)
      else
        let validation :=
          match cs_userFeeToken (createData pending) with
          | SOL => None
          | USDC => Some (TransactionBuilder.validateNoFundLeak txBytes (Some sponsor))
          end in
        match validation with
        | Some v =>
            if negb (TransactionBuilder.isValid v)
            then (set_pending (delete swapId) st,
                  Ok (failedResult swapId
                        (Some (String.concat ", " (TransactionBuilder.errors v)))))
            else createAndSend env st swapId pending txBytes
        | None => createAndSend env st swapId pending txBytes
        end
  end.

(** *** A pending entry and environments to run the definitions *)

Definition exampleCreateData : CreateSwapData :=
  {| cs_userWallet := "UserWallet"; cs_destWallet := "0xDest";
     cs_sourceToken := "SourceMint"; cs_sourceAmount := "100";
     cs_destChain := "1"; cs_destToken := "0xToken"; cs_destAmount := "1000";
     cs_provider := "debridge"; cs_providerId := "order-1"; cs_quoteId := "q-1";
     cs_userFeeToken := USDC; cs_userFeeAmount := 2588 # 1000000;
     cs_sponsorCostsSol := 15000; cs_estimatedDuration := 180 |}.

(** One pending swap, valid until millisecond 30000. *)
Definition exampleState : State :=
  {| pendingSwaps :=
       {[ "swap-1" := {| createData := exampleCreateData;
                         pending_validUntil := 30000 |} ]};
     activeMonitors := ∅; repository := ∅; submitted := [];
     priceCache := ∅ |}.

(** Collaborators that all succeed, at the given time. *)
Definition exampleExecuteEnv (now : Z) : ExecuteEnv :=
  {| e_now := now; e_create := None;
     e_send := Ok {| send_success := true; send_signature := Some "sig-1";
                     send_error := None |};
     e_update := None; e_providerRegistered := true |}.

(** A direct-mode (SOL) preparation of the example transaction. *)
Definition examplePrepareEnv : PrepareEnv :=
  {| p_now := 1000;
     p_provider := Some
       {| pc_validateQuote :=
            Ok {| isValid := true; driftPercentage := Some 0%Q;
                  currentDestAmount := Some "1000"; reason := None |};
          pc_estimateCosts := Ok FeeCalculator.exampleCosts;
          pc_buildTransaction :=
            Ok {| bt_transaction := WireCodec.exampleTx [] WireCodec.oldHash;
                  bt_providerId := Some "order-1" |} |};
     p_requestParams :=
       Ok {| rp_sourceToken := "SourceMint"; rp_destChain := "1";
             rp_destToken := "0xToken"; rp_destWallet := "0xDest" |};
     p_recentBlockhash := Ok (WireCodec.bs58_encode WireCodec.newHash);
     p_oracle := FeeCalculator.exampleReply;
     p_withFeeTransfer := Ok (WireCodec.exampleTx [] WireCodec.newHash);
     p_simulation := {| sim_success := true; sim_insufficientFunds := false |};
     p_uuid := "swap-2" |}.

(** The error a caller sees as "not found" (code NOT_FOUND, status 404). *)
Definition is_not_found {A} (r : result A) : Prop :=
  exists resource id, r = Throw (NotFoundError resource id).

End SwapOrchestrator.

(** ** Fee calculator: conversions and smallest units
       ([lib/fees/FeeCalculator.ts]) *)

Module FeeConversion.

Import FeeCalculator.

(** [from === to] *)
Definition same_token (a b : FeeToken) : bool :=
  match a, b with
  | USDC, USDC | SOL, SOL => true
  | _, _ => false
  end.

(** [convertFee(amount, from, to)]: the price is fetched only when the
    tokens differ.  [None] is a quotient that is not a finite number. *)
Definition convertFee (cache : PriceCache) (now : Z) (reply : AccountInfoReply)
    (amount : Q) (from to : FeeToken) : PriceCache * result (option Q) :=
  if same_token from to then (cache, Ok (Some amount))
  else
    let '(cache', r) := getSolPrice cache now reply in
    (cache',
     solPrice ← r;
     match from, to with
     | SOL, USDC => Ok (Some (amount * solPrice)%Q)
     | _, _ => Ok (Num.div amount solPrice)
     end).

(** [calculateFeeInLamports(feeInSol)]: [Math.ceil(feeInSol * LAMPORTS_PER_SOL)] *)
Definition calculateFeeInLamports (feeInSol : Q) : Z :=
  Qceiling (feeInSol * LAMPORTS_PER_SOL).

(** [x.toFixed(0)] of decimal.js at its default rounding mode
    ([ROUND_HALF_UP]): to the nearest integer, ties away from zero. *)
Definition toFixed0 (x : Q) : Z :=
  if Qle_bool 0 x then Qfloor (x + (1 # 2)) else Qceiling (x - (1 # 2)).

(** [calculateFeeInTokenUnits(fee, decimals)] *)
Definition calculateFeeInTokenUnits (fee : Q) (decimals : Z) : Z :=
  let multiplier := Qpower 10 decimals in
  let tokenUnits := (fee * multiplier)%Q in
  toFixed0 tokenUnits.

End FeeConversion.

(** ** Sponsored preparation: violations and fixtures *)

Module SponsoredExamples.

Import SwapOrchestrator.


(** The USDC fee [prepareSwap] charges for a minimum fee. *)
Definition usdcFee (minFees : FeeCalculator.MinimumFee) : UserFee :=
  {| fee_token := USDC;
     fee_amount := FeeCalculator.feeInUsdc minFees;
     valueUSD := FeeCalculator.feeInUsdc minFees |}.



(** The example preparation at the time of the example price account. *)
Definition sponsoredEnv : PrepareEnv :=
  {| p_now := FeeCalculator.exampleNow;
     p_provider := p_provider examplePrepareEnv;
     p_requestParams := p_requestParams examplePrepareEnv;
     p_recentBlockhash := p_recentBlockhash examplePrepareEnv;
     p_oracle := FeeCalculator.exampleReply;
     p_withFeeTransfer := p_withFeeTransfer examplePrepareEnv;
     p_simulation := p_simulation examplePrepareEnv;
     p_uuid := "swap-3" |}.

Definition sponsoredQuote : BridgeQuote :=
  DeBridgeProvider.exampleQuote "1000" (FeeCalculator.exampleNow + 30000).


End SponsoredExamples.

(** ** Transaction builder: signatures, size and lookup tables
       ([lib/transactions/TransactionBuilder.ts]) *)

Module TransactionBytes.

Import Buffer TransactionBuilder.

(** [arr.indexOf(x)] on an array of strings, as a position. *)
Fixpoint indexOf_string (l : list string) (x : string) : option nat :=
  match l with
  | [] => None
  | y :: l' => if String.eqb y x then Some O else S <$> indexOf_string l' x
  end.

(** [addUserSignature(serializedTx, userSignature, userAddress)]: the
    signature is written at [1 + userIndex * 64], the length prefix being
    taken to be one byte. *)
Definition addUserSignature `{SolanaCodec} (serializedTx userSignature : bytes)
    (userAddress : string) : result bytes :=
  decoded ← decodeTransaction serializedTx;
  let signerAddresses := fst <$> signatures decoded in
  match indexOf_string signerAddresses userAddress with
  | None => Throw (JsError "User public key not found in transaction")
  | Some userIndex =>
      let sigOffset := (1 + userIndex * 64)%nat in
      set_at serializedTx (slice userSignature 0 64) sigOffset
  end.

Record SizeCheck : Type := {
  size_valid : bool;
  size : nat;
  maxSize : nat
}.

(** [validateTransactionSize(serializedTx)] *)
Definition validateTransactionSize (serializedTx : bytes) : SizeCheck :=
  let size := length serializedTx in
  let maxSize := 1232%nat in
  {| size_valid := (size <=? maxSize)%nat; size := size; maxSize := maxSize |}.

(** Address Lookup Table account header size (bytes). *)
Definition ALT_HEADER_SIZE : nat := 56.

(** [for (let i = ALT_HEADER_SIZE; i + 32 <= data.length; i += 32)
       addresses.push(data.subarray(i, i + 32))]; the fuel bounds the number
    of rounds and is never the reason the loop stops. *)
Fixpoint tableAddresses_from (fuel i : nat) (data : bytes) : list bytes :=
  match fuel with
  | O => []
  | S fuel' =>
      if (i + 32 <=? length data)%nat
      then slice data i (i + 32) :: tableAddresses_from fuel' (i + 32) data
      else []
  end.

Definition tableAddresses (data : bytes) : list bytes :=
  tableAddresses_from (length data) ALT_HEADER_SIZE data.

(** [resolveAddressLookupTables(lookups)]: each lookup comes with what
    [getAccountInfo] answers for its table ([None]: no such account, the
    table is skipped); a table listed twice keeps the last answer. *)
Definition resolveAddressLookupTables
    (lookups : option (list (string * option bytes))) : gmap string (list bytes) :=
  match lookups with
  | None => ∅
  | Some lookups =>
      fold_left (fun result lookup =>
                   match snd lookup with
                   | None => result
                   | Some data => <[fst lookup := tableAddresses data]> result
                   end) lookups ∅
  end.

(** A lookup table of two addresses followed by five stray bytes. *)
Definition exampleTable : bytes :=
  replicate 56 0 ++ WireCodec.userKey ++ WireCodec.bridgeKey ++ [1; 2; 3; 4; 5].

(** A user signature. *)
Definition exampleSignature : bytes := replicate 64 4.

End TransactionBytes.

(** ** Solana service ([lib/solana/SolanaService.ts]) *)

Module SolanaService.

Import Buffer.

Inductive TokenType : Type := spl | token_2022.

Record TransferFeeConfig : Type := {
  transferFeeBasisPoints : Z;
  maximumFee : Z
}.

Record TokenInfo : Type := {
  mint : string;
  decimals : Z;
  type : TokenType;
  transferFeeConfig : option TransferFeeConfig
}.

(** *** [getRecentPriorityFee] *)

(** The comparator [(a, b) => a - b]. *)
Definition ascending (a b : Z) : Q := (inject_Z a - inject_Z b)%Q.

(** [getRecentPriorityFee()]; [entries] are the prioritization fees
    [getRecentPrioritizationFees] answers.  The index [length / 2] lies
    inside a non-empty array. *)
Definition getRecentPriorityFee (entries : list Z) : Z :=
  let fees := ArraySort.sort ascending (List.filter (fun f => 0 <? f) entries) in
  if (length fees =? 0)%nat then 0
  else default 0 (fees !! (length fees / 2)%nat).

(** *** [getTransferFee] *)

(** [getTransferFee(mintAddress, amount)] on the token information
    [getTokenInfo] answers; bigint division truncates. *)
Definition getTransferFee (tokenInfo : TokenInfo) (amount : Z) : Z :=
  match type tokenInfo, transferFeeConfig tokenInfo with
  | token_2022, Some cfg =>
      let fee := (amount * transferFeeBasisPoints cfg) ÷ 10000 in
      if maximumFee cfg <? fee then maximumFee cfg else fee
  | _, _ => 0
  end.

(** *** [parseTransferFeeExtension] *)

(** The [while] loop over the extensions, from [offset]; the fuel bounds the
    number of rounds (every round advances by four bytes at least). *)
Fixpoint parseTransferFee_from (fuel : nat) (offset : Z) (data : bytes)
    : result (option TransferFeeConfig) :=
  match fuel with
  | O => Ok None
  | S fuel' =>
      if offset + 4 <=? Z.of_nat (length data) then
        extType ← readUIntLE data offset 2;
        extLen ← readUIntLE data (offset + 2) 2;
        let next := parseTransferFee_from fuel' (offset + (4 + extLen)) data in
        if extType =? 1 then
          let extDataStart := offset + 4 in
          let newerOffset := extDataStart + 32 + 32 + 8 + 18 in
          if newerOffset + 18 <=? Z.of_nat (length data) then
            maxFee ← readUIntLE data (newerOffset + 8) 8;
            basisPoints ← readUIntLE data (newerOffset + 16) 2;
            Ok (Some {| transferFeeBasisPoints := basisPoints; maximumFee := maxFee |})
          else next
        else next
      else Ok None
  end.

(** [parseTransferFeeExtension(data)]: the extensions start after the 82
    bytes of the mint and the account type; a failed read gives no
    configuration. *)
Definition parseTransferFeeExtension (data : bytes) : option TransferFeeConfig :=
  match parseTransferFee_from (length data) 83 data with
  | Ok cfg => cfg
  | Throw _ => None
  end.

(** The layout the parser reads: an extension is [type (u16)], [length
    (u16)] and its payload; the payload of a transfer-fee configuration is
    two authorities, the withheld amount, the older and the newer fee, a
    fee being [epoch (u64)], [maximum_fee (u64)], [basis_points (u16)]. *)
Definition extension (extType : Z) (payload : bytes) : bytes :=
  FeeCalculator.le_bytes 2 extType
  ++ FeeCalculator.le_bytes 2 (Z.of_nat (length payload)) ++ payload.

Definition transferFee (epoch maxFee basisPoints : Z) : bytes :=
  FeeCalculator.le_bytes 8 epoch ++ FeeCalculator.le_bytes 8 maxFee
  ++ FeeCalculator.le_bytes 2 basisPoints.

Definition transferFeePayload (configAuthority withdrawAuthority withheld
    older newer : bytes) : bytes :=
  configAuthority ++ withdrawAuthority ++ withheld ++ older ++ newer.

(** *** [validateBalance] *)

Record AccountStatus : Type := {
  account_exists : bool;
  balance : Z;
  hasDust : bool;
  isCloseable : bool;
  owner : string
}.

(** What [getAccountInfo] answers for a token account with the parsed
    encoding: no account, an account without parsed information, or the
    amount and the owner. *)
Inductive ParsedAccount : Type :=
  | NoAccount
  | NotParsed
  | Parsed (amount : Z) (accountOwner : string).

(** [error.name]: the class name; a plain error is an [Error], and
    [AppError] stands for an instance of the base class. *)
Definition error_name (e : Error) : string :=
  match e with
  | NotFoundError _ _ => "NotFoundError"
  | QuoteDriftError => "QuoteDriftError"
  | QuoteExpiredError => "QuoteExpiredError"
  | EconomicValidationError _ => "EconomicValidationError"
  | PriceOracleError _ => "PriceOracleError"
  | BridgeError _ _ => "BridgeError"
  | TransactionValidationError _ => "TransactionValidationError"
  | AppError _ _ => "AppError"
  | JsError _ => "Error"
  end.

(** The error inside a template literal, [`${error}`]:
    [Error.prototype.toString] gives the name, a colon and the message, or
    the name alone when the message is empty. *)
Definition error_toString (e : Error) : string :=
  if String.eqb (error_message e) "" then error_name e
  else error_name e +:+ ": " +:+ error_message e.

(** [checkAccountStatus(tokenAccountAddress)] *)
Definition checkAccountStatus (reply : result ParsedAccount) : result AccountStatus :=
  match reply with
  | Throw e => Throw (JsError ("Failed to check account status: " +:+ error_toString e))
  | Ok NoAccount =>
      Ok {| account_exists := false; balance := 0; hasDust := false;
            isCloseable := true; owner := "11111111111111111111111111111111" |}
  | Ok NotParsed =>
      Throw (JsError "Failed to check account status: Error: Failed to parse token account data")
  | Ok (Parsed amount accountOwner) =>
      Ok {| account_exists := true; balance := amount;
            hasDust := (0 <? amount) && (amount <? 1000);
            isCloseable := amount =? 0; owner := accountOwner |}
  end.

Record BalanceCheck : Type := {
  sufficient : bool;
  currentBalance : Z;
  requiredBalance : Z;
  deficit : Z;
  check_decimals : Z
}.

(** Everything [validateBalance] obtains from the node during one call:
    the wallet's lamports, the token information (asked for twice: by
    [validateBalance] and again by [getTransferFee]), the associated token
    address ([None] for an empty address) and the token account. *)
Record BalanceEnv : Type := {
  b_solBalance : result Z;
  b_tokenInfo : result TokenInfo;
  b_ata : result (option string);
  b_account : result ParsedAccount;
  b_tokenInfoAgain : result TokenInfo
}.

Definition SOL_MINT : string := "So11111111111111111111111111111111111111112".

(** The body of the [try] block of [validateBalance]. *)
Definition validateBalance_try (env : BalanceEnv) (tokenAddress : string)
    (requiredAmount : Z) : result BalanceCheck :=
  if String.eqb tokenAddress SOL_MINT then
    solBalance ← b_solBalance env;
    let sufficient := requiredAmount <=? solBalance in
    Ok {| sufficient := sufficient; currentBalance := solBalance;
          requiredBalance := requiredAmount;
          deficit := if sufficient then 0 else requiredAmount - solBalance;
          check_decimals := 9 |}
  else
    tokenInfo ← b_tokenInfo env;
    ataInfo ← b_ata env;
    let missing :=
      {| sufficient := false; currentBalance := 0; requiredBalance := requiredAmount;
         deficit := requiredAmount; check_decimals := decimals tokenInfo |} in
    match ataInfo with
    | None => Ok missing
    | Some _ =>
        accountStatus ← checkAccountStatus (b_account env);
        if negb (account_exists accountStatus) then Ok missing
        else
          let currentBalance := balance accountStatus in
          effectiveRequired ←
            match transferFeeConfig tokenInfo with
            | Some _ =>
                again ← b_tokenInfoAgain env;
                Ok (requiredAmount + getTransferFee again requiredAmount)
            | None => Ok requiredAmount
            end;
          let sufficient := effectiveRequired <=? currentBalance in
          Ok {| sufficient := sufficient; currentBalance := currentBalance;
                requiredBalance := effectiveRequired;
                deficit := if sufficient then 0 else effectiveRequired - currentBalance;
                check_decimals := decimals tokenInfo |}
    end.

(** [validateBalance(walletAddress, tokenAddress, requiredAmount)] *)
Definition validateBalance (env : BalanceEnv) (tokenAddress : string)
    (requiredAmount : Z) : result BalanceCheck :=
  match validateBalance_try env tokenAddress requiredAmount with
  | Ok check => Ok check
  | Throw e => Throw (JsError ("Failed to validate balance: " +:+ error_toString e))
  end.

(** *** [sendAndConfirmTransaction] *)

Inductive Commitment : Type := processed | confirmed | finalized.

Record SignatureStatus : Type := {
  status_err : option string;
  confirmationStatus : option Commitment
}.

(** What [getSignatureStatuses([signature])] answers at one poll: the call
    throws, or [value[0]] is [null] or a status. *)
Abbreviation Poll := (result (option SignatureStatus)).

Definition isConfirmed (s : SignatureStatus) : bool :=
  match confirmationStatus s with
  | Some confirmed | Some finalized => true
  | _ => false
  end.

(** The polling loop [for (let i = 0; i < maxAttempts; i++)] from round
    [i], with [remaining] rounds to go. *)
Fixpoint pollConfirmation (polls : nat -> Poll) (signature : string)
    (i remaining : nat) : result SwapOrchestrator.SendResult :=
  match remaining with
  | O =>
      Ok {| SwapOrchestrator.send_success := false;
            SwapOrchestrator.send_signature := Some signature;
            SwapOrchestrator.send_error := Some "Transaction confirmation timeout" |}
  | S remaining' =>
      statuses ← polls i;
      match statuses with
      | Some status =>
          match status_err status with
          | Some err =>
              Ok {| SwapOrchestrator.send_success := false;
                    SwapOrchestrator.send_signature := Some signature;
                    SwapOrchestrator.send_error := Some err |}
          | None =>
              if isConfirmed status
              then Ok {| SwapOrchestrator.send_success := true;
                         SwapOrchestrator.send_signature := Some signature;
                         SwapOrchestrator.send_error := None |}
              else pollConfirmation polls signature (S i) remaining'
          end
      | None => pollConfirmation polls signature (S i) remaining'
      end
  end.

Definition maxAttempts : nat := 30.

(** [sendAndConfirmTransaction(serializedTx)]: [sent] is what
    [sendTransaction] answers, [polls i] what the [i]-th status poll
    answers. *)
Definition sendAndConfirmTransaction (sent : result string) (polls : nat -> Poll)
    : SwapOrchestrator.SendResult :=
  match (signature ← sent; pollConfirmation polls signature 0 maxAttempts) with
  | Ok r => r
  | Throw e =>
      {| SwapOrchestrator.send_success := false;
         SwapOrchestrator.send_signature := Some "";
         SwapOrchestrator.send_error :=
           Some ("Failed to send transaction: " +:+ error_toString e) |}
  end.

(** A poll is still pending: no status yet, or one without error that has
    not reached the confirmed commitment. *)
Definition pending (p : Poll) : Prop :=
  p = Ok None \/
  exists s, p = Ok (Some s) /\ status_err s = None /\ isConfirmed s = false.

(** *** Fixtures *)

(** A Token-2022 mint with a metadata-pointer extension before its
    transfer-fee configuration: 50 basis points, at most 5000 units. *)
Definition exampleMint : bytes :=
  replicate 82 0 ++ [1]
  ++ extension 18 (replicate 64 7)
  ++ extension 1 (transferFeePayload (replicate 32 1) (replicate 32 2) (replicate 8 0)
                    (transferFee 10 9000 100) (transferFee 11 5000 50))
  ++ replicate 3 0.

(** The third poll sees the transaction confirmed. *)
Definition examplePolls (i : nat) : Poll :=
  match i with
  | 0%nat => Ok None
  | 1%nat => Ok (Some {| status_err := None; confirmationStatus := Some processed |})
  | _ => Ok (Some {| status_err := None; confirmationStatus := Some confirmed |})
  end.

(** A wallet whose token account holds 1 000 000 units of [exampleMint]. *)
Definition exampleTokenInfo : TokenInfo :=
  {| mint := "Mint"; decimals := 6; type := token_2022;
     transferFeeConfig := parseTransferFeeExtension exampleMint |}.

Definition exampleBalanceEnv : BalanceEnv :=
  {| b_solBalance := Ok 5000000;
     b_tokenInfo := Ok exampleTokenInfo;
     b_ata := Ok (Some "Ata");
     b_account := Ok (Parsed 1000000 "Owner");
     b_tokenInfoAgain := Ok exampleTokenInfo |}.

End SolanaService.

(** ** Cost estimates of the providers
       ([lib/bridges/DeBridgeProvider.ts], [lib/bridges/RelayProvider.ts]) *)

Module BridgeProviders.


(** [quote.provider === 'debridge' ? DEBRIDGE_ORDER_RENT_LAMPORTS : 0] in
    [prepareSwap] *)
Definition solAdvance (providerName : string) : Q :=
  if String.eqb providerName "debridge" then DEBRIDGE_ORDER_RENT_LAMPORTS else 0%Q.

End BridgeProviders.

(** ** Provider registry: lookups ([lib/bridges/ProviderRegistry.ts]) *)

Module RegistryLookups.

Import ProviderRegistry.

(** [getProvider(name)] *)
Fixpoint getProvider (providerName : string) (m : Registry) : option Provider :=
  match m with
  | [] => None
  | (k, v) :: m' =>
      if String.eqb k providerName then Some v else getProvider providerName m'
  end.

(** [hasProvider(name)] *)
Definition hasProvider (providerName : string) (m : Registry) : bool :=
  bool_decide (is_Some (getProvider providerName m)).

(** [getProviderCount()] *)
Definition getProviderCount (m : Registry) : nat := length m.

(** The registrations of [getSwapOrchestrator]: on an empty registry
    only. *)
Definition registerDefaults (relay debridge : Provider) (m : Registry) : Registry :=
  if (getProviderCount m =? 0)%nat then register debridge (register relay m) else m.

(** The registrations of [initializeApp]. *)
Definition initializeApp (relay debridge : Provider) (m : Registry) : Registry :=
  register debridge (register relay m).

(** The keys of a [Map] are distinct. *)
Definition wellFormed (m : Registry) : Prop := NoDup (fst <$> m).

Definition exampleRelay : Provider :=
  {| name := "relay"; supportsRoute := Ok true;
     getQuote := Throw (JsError "no route") |}.

Definition exampleDeBridge : Provider :=
  {| name := "debridge"; supportsRoute := Ok true;
     getQuote := Ok (DeBridgeProvider.exampleQuote "1000" 30000) |}.

End RegistryLookups.

(** ** Retries with backoff ([lib/utils/retry.ts]) *)

Module Retry.

(** What [retryWithBackoff] throws: the error of [fn] as it is, or a
    [MaxRetriesExceededError] with its message, [attempts] and
    [lastError] ([None] is [undefined]). *)
Inductive Failure (E : Type) : Type :=
  | Original (error : E)
  | MaxRetriesExceededError (message : string) (attempts : Z) (lastError : option E).
Arguments Original {E} error.
Arguments MaxRetriesExceededError {E} message attempts lastError.

(** The options after the defaults are merged in; [maxAttempts] is taken
    to be an integer, as it is at every call. *)
Record RetryOptions (E : Type) : Type := {
  maxAttempts : Z;
  initialDelayMs : Q;
  maxDelayMs : Q;
  backoffMultiplier : Q;
  shouldRetry : E -> Z -> bool
}.
Arguments maxAttempts {E} r.
Arguments initialDelayMs {E} r.
Arguments maxDelayMs {E} r.
Arguments backoffMultiplier {E} r.
Arguments shouldRetry {E} r error attempt.

(** One run: what it returns or throws, how often [fn] was called, and the
    waits between the calls in milliseconds. *)
Record Run (T E : Type) : Type := {
  outcome : T + Failure E;
  calls : Z;
  delays : list Q
}.
Arguments outcome {T E} r.
Arguments calls {T E} r.
Arguments delays {T E} r.

Section retryWithBackoff.

Context {T E : Type}.

(** [fn attempt] is what the call of [fn] made at that attempt answers
    ([inr]: it throws), [random attempt] the [Math.random()] drawn after
    it. *)
Variable opts : RetryOptions E.
Variable fn : Z -> T + E.
Variable random : Z -> Q.

Definition jitteredDelay (attempt : Z) : Q :=
  let exponentialDelay :=
    (initialDelayMs opts * backoffMultiplier opts ^ (attempt - 1))%Q in
  let delayMs := Qmin exponentialDelay (maxDelayMs opts) in
  (delayMs * ((1 # 2) + random attempt * (1 # 2)))%Q.

Definition exhausted (made : Z) (lastError : option E) (waited : list Q) : Run T E :=
  {| outcome :=
       inr (MaxRetriesExceededError
              ("Failed after " +:+ pretty (maxAttempts opts) +:+ " attempts")
              (maxAttempts opts) lastError);
     calls := made;
     delays := waited |}.

(** The [for] loop from [attempt] on; [fuel] bounds the iterations left. *)
Fixpoint attempts_from (fuel : nat) (attempt : Z) (lastError : option E)
    (waited : list Q) : Run T E :=
  match fuel with
  | O => exhausted (attempt - 1) lastError waited
  | S fuel' =>
      if attempt <=? maxAttempts opts
      then
        match fn attempt with
        | inl v => {| outcome := inl v; calls := attempt; delays := waited |}
        | inr error =>
            if negb (shouldRetry opts error attempt)
            then {| outcome := inr (Original error); calls := attempt;
                    delays := waited |}
            else if attempt >=? maxAttempts opts
            then exhausted attempt (Some error) waited
            else attempts_from fuel' (attempt + 1) (Some error)
                   (waited ++ [jitteredDelay attempt])
        end
      else exhausted (attempt - 1) lastError waited
  end.

(** [retryWithBackoff(fn, options)] *)
Definition retryWithBackoff : Run T E :=
  attempts_from (Z.to_nat (maxAttempts opts)) 1 None [].

End retryWithBackoff.

(** The call at attempt [j] threw an error that [shouldRetry] accepts. *)
Definition retried {T E} (opts : RetryOptions E) (fn : Z -> T + E) (j : Z) : Prop :=
  exists e, fn j = inr e /\ shouldRetry opts e j = true.

(** What [isRetryableError] reads of a thrown value: its classes, its
    message, and the properties [status] and [statusCode] when they are
    numbers. *)
Record Thrown : Type := {
  instanceof_RetryableError : bool;
  instanceof_Error : bool;
  message : string;
  status : option Z;
  statusCode : option Z
}.

(** [s.includes(sub)] *)
Fixpoint includes (s sub : string) : bool :=
  String.prefix sub s ||
  match s with
  | EmptyString => false
  | String _ s' => includes s' sub
  end.

(** [a || b] on optional numbers: the first one that is not 0. *)
Definition or_number (a b : option Z) : option Z :=
  match a with
  | Some x => if x =? 0 then b else a
  | None => b
  end.

(** [isRetryableError(error)]; [toLowerCase] is the string method. *)
Definition isRetryableError (toLowerCase : string -> string) (error : Thrown) : bool :=
  if instanceof_RetryableError error then true
  else
    let message := toLowerCase (message error) in
    if instanceof_Error error &&
       (includes message "network" || includes message "timeout" ||
        includes message "econnreset" || includes message "enotfound" ||
        includes message "etimedout")
    then true
    else
      match or_number (status error) (statusCode error) with
      | Some statusCode =>
          if statusCode =? 0 then false
          else (500 <=? statusCode) || (statusCode =? 408) || (statusCode =? 429) ||
               (statusCode =? 502) || (statusCode =? 503) || (statusCode =? 504)
      | None => false
      end.

(** [retryApiCall(fn, operationName)] without the circuit breaker, as the
    providers call it. *)
Definition retryApiCall {T} (toLowerCase : string -> string) (fn : Z -> T + Thrown)
    (random : Z -> Q) : Run T Thrown :=
  retryWithBackoff
    {| maxAttempts := 2; initialDelayMs := 500; maxDelayMs := 5000;
       backoffMultiplier := 2;
       shouldRetry := fun error _ => isRetryableError toLowerCase error |}
    fn random.

(** An error of the [AppError] hierarchy as [isRetryableError] sees it. *)
Definition ofAppError (message : string) (statusCode : Z) : Thrown :=
  {| instanceof_RetryableError := false; instanceof_Error := true;
     message := message; status := None; statusCode := Some statusCode |}.

(** The body of a provider call: [try { ... } catch (error) { throw new
    BridgeError(msg, this.name, { cause: error }) }]; a [BridgeError] has
    the status code 502. *)
Definition guarded {T} (msg : string) (body : Z -> T + Thrown) (attempt : Z)
    : T + Thrown :=
  match body attempt with
  | inl v => inl v
  | inr _ => inr (ofAppError msg 502)
  end.

(** [getQuote], [buildTransaction] and [getStatus] of both providers:
    [retryApiCall(async () => { try { ... } catch ... }, name)]. *)
Definition providerCall {T} (toLowerCase : string -> string) (msg : string)
    (body : Z -> T + Thrown) (random : Z -> Q) : Run T Thrown :=
  retryApiCall toLowerCase (guarded msg body) random.

(** Lower-casing of the ASCII letters, to run the definitions. *)
Definition asciiLower (s : string) : string :=
  string_of_list_ascii
    ((fun c => let n := N_of_ascii c in
               if ((65 <=? n) && (n <=? 90))%N then ascii_of_N (n + 32) else c)
       <$> list_ascii_of_string s).

End Retry.

(** ** Circuit breaker ([lib/utils/circuit-breaker.ts]) *)

Module CircuitBreaker.

Inductive CircuitState : Type := CLOSED | OPEN | HALF_OPEN.

(** [oldState === newState] *)
Definition CircuitState_eqb (a b : CircuitState) : bool :=
  match a, b with
  | CLOSED, CLOSED | OPEN, OPEN | HALF_OPEN, HALF_OPEN => true
  | _, _ => false
  end.

Record CircuitBreakerConfig : Type := {
  failureThreshold : Z;
  successThreshold : Z;
  timeout : Z
}.

(** The private fields of a [CircuitBreaker]. *)
Record Breaker : Type := {
  state : CircuitState;
  failureCount : Z;
  successCount : Z;
  nextAttemptTime : Z
}.

(** [new CircuitBreaker(config)] *)
Definition create : Breaker :=
  {| state := CLOSED; failureCount := 0; successCount := 0; nextAttemptTime := 0 |}.

(** [transitionTo(newState)]; [now] is [Date.now()]. *)
Definition transitionTo (cfg : CircuitBreakerConfig) (now : Z)
    (newState : CircuitState) (cb : Breaker) : Breaker :=
  if CircuitState_eqb (state cb) newState then cb
  else
    {| state := newState;
       failureCount := failureCount cb;
       successCount := successCount cb;
       nextAttemptTime :=
         match newState with
         | OPEN => now + timeout cfg
         | _ => nextAttemptTime cb
         end |}.

(** [onSuccess()] *)
Definition onSuccess (cfg : CircuitBreakerConfig) (now : Z) (cb : Breaker) : Breaker :=
  let cb1 :=
    {| state := state cb; failureCount := 0; successCount := successCount cb;
       nextAttemptTime := nextAttemptTime cb |} in
  match state cb1 with
  | HALF_OPEN =>
      let cb2 :=
        {| state := state cb1; failureCount := failureCount cb1;
           successCount := successCount cb1 + 1;
           nextAttemptTime := nextAttemptTime cb1 |} in
      if successCount cb2 >=? successThreshold cfg
      then
        let cb3 := transitionTo cfg now CLOSED cb2 in
        {| state := state cb3; failureCount := failureCount cb3; successCount := 0;
           nextAttemptTime := nextAttemptTime cb3 |}
      else cb2
  | _ => cb1
  end.

(** [onFailure()] *)
Definition onFailure (cfg : CircuitBreakerConfig) (now : Z) (cb : Breaker) : Breaker :=
  let cb1 :=
    {| state := state cb; failureCount := failureCount cb + 1; successCount := 0;
       nextAttemptTime := nextAttemptTime cb |} in
  match state cb1 with
  | HALF_OPEN => transitionTo cfg now OPEN cb1
  | _ =>
      if failureCount cb1 >=? failureThreshold cfg
      then transitionTo cfg now OPEN cb1
      else cb1
  end.

(** What [execute] throws: the error of [fn] as it is, or a
    [CircuitBreakerError] with its [nextAttemptAt]. *)
Inductive Thrown (E : Type) : Type :=
  | Original (error : E)
  | CircuitBreakerError (nextAttemptAt : Z).
Arguments Original {E} error.
Arguments CircuitBreakerError {E} nextAttemptAt.

(** One call of [execute]: the clock when it starts, what [fn] answers if
    it is called ([inr]: it throws), and the clock when [fn] settles. *)
Record Call (T E : Type) : Type := {
  started : Z;
  answer : T + E;
  settled : Z
}.
Arguments started {T E} c.
Arguments answer {T E} c.
Arguments settled {T E} c.

Record Executed (T E : Type) : Type := {
  breaker : Breaker;
  output : T + Thrown E;
  invoked : bool
}.
Arguments breaker {T E} e.
Arguments output {T E} e.
Arguments invoked {T E} e.

(** [execute(fn)] *)
Definition execute {T E} (cfg : CircuitBreakerConfig) (call : Call T E)
    (cb : Breaker) : Executed T E :=
  let run (cb : Breaker) : Executed T E :=
    match answer call with
    | inl v =>
        {| breaker := onSuccess cfg (settled call) cb; output := inl v;
           invoked := true |}
    | inr error =>
        {| breaker := onFailure cfg (settled call) cb;
           output := inr (Original error); invoked := true |}
    end in
  match state cb with
  | OPEN =>
      if started call <? nextAttemptTime cb
      then {| breaker := cb;
              output := inr (CircuitBreakerError (nextAttemptTime cb));
              invoked := false |}
      else run (transitionTo cfg (started call) HALF_OPEN cb)
  | _ => run cb
  end.

(** The breaker after a sequence of calls, one after the other. *)
Definition executeAll {T E} (cfg : CircuitBreakerConfig) (calls : list (Call T E))
    (cb : Breaker) : Breaker :=
  foldl (fun cb call => breaker (execute cfg call cb)) cb calls.

Definition failed {T E} (call : Call T E) : bool :=
  match answer call with inl _ => false | inr _ => true end.

(** The number of calls at the head of the list whose [fn] throws. *)
Fixpoint leadingFailures {T E} (calls : list (Call T E)) : nat :=
  match calls with
  | [] => O
  | call :: calls' => if failed call then S (leadingFailures calls') else O
  end.

(** The number of calls since the last one whose [fn] returned. *)
Definition failuresSinceSuccess {T E} (calls : list (Call T E)) : nat :=
  leadingFailures (reverse calls).

(** What a breaker that has served [calls] keeps: closed, it has seen
    fewer consecutive failures than the threshold; open, it waits for the
    timeout after a failed call; half-open, it still counts successes. *)
Definition invariant {T E} (cfg : CircuitBreakerConfig) (calls : list (Call T E))
    (cb : Breaker) : Prop :=
  match state cb with
  | CLOSED =>
      successCount cb = 0 /\
      Z.of_nat (failuresSinceSuccess calls) <= failureCount cb < failureThreshold cfg
  | OPEN =>
      successCount cb = 0 /\
      exists call, call ∈ calls /\ failed call = true /\
                   nextAttemptTime cb = settled call + timeout cfg
  | HALF_OPEN => 0 <= successCount cb < successThreshold cfg
  end.

(** [CircuitBreakerPresets.externalApi] *)
Definition externalApi : CircuitBreakerConfig :=
  {| failureThreshold := 5; successThreshold := 2; timeout := 60000 |}.

(** Five calls in a row that fail, each settling at 1200 ms. *)
Definition exampleOutage : list (Call Z string) :=
  replicate 5 {| started := 1000; answer := inr "down"%string; settled := 1200 |}.

End CircuitBreaker.

(** ** Routes of the providers
       ([lib/bridges/DeBridgeProvider.ts], [lib/bridges/RelayProvider.ts]) *)

Module Routes.

Definition SOLANA_CHAIN_ID : string := "7565164".
Definition NATIVE_SOL_ADDRESS : string := "11111111111111111111111111111111".

(** [TokenInfo] of [types/bridge.ts], as far as [supportsRoute] reads it;
    the address is read with [?.]. *)
Record TokenInfo : Type := {
  token_address : option string;
  token_chainId : string
}.

Record RouteParams : Type := {
  sourceToken : string;
  destChain : string;
  destToken : string
}.

(** [tokens.some((t) => t.address?.toLowerCase() === wanted.toLowerCase())];
    [toLowerCase] is the string method. *)
Definition hasToken (toLowerCase : string -> string) (tokens : list TokenInfo)
    (wanted : string) : bool :=
  existsb (fun t => bool_decide (toLowerCase <$> token_address t
                                 = Some (toLowerCase wanted))) tokens.

(** [params.sourceToken === SOL_MINT ? NATIVE_SOL_ADDRESS : params.sourceToken] *)
Definition sourceForCheck (params : RouteParams) : string :=
  if String.eqb (sourceToken params) SolanaService.SOL_MINT
  then NATIVE_SOL_ADDRESS else sourceToken params.

(** [supportsRoute(params)] of both providers.  [tokenCache] is the
    provider's cache ([None]: not fetched yet) and [fetched] what
    [fetchSupportedTokens] answers if it is called; the result is the
    cache afterwards and the answer. *)
Definition supportsRoute (toLowerCase : string -> string)
    (tokenCache : option (gmap string (list TokenInfo)))
    (fetched : result (gmap string (list TokenInfo))) (params : RouteParams)
    : option (gmap string (list TokenInfo)) * bool :=
  let loaded :=
    match tokenCache with
    | Some cache => Ok cache
    | None => fetched
    end in
  match loaded with
  | Throw _ => (tokenCache, true)
  | Ok cache =>
      let solanaTokens := default [] (cache !! SOLANA_CHAIN_ID) in
      let destTokens := default [] (cache !! destChain params) in
      if (length solanaTokens =? 0)%nat && (length destTokens =? 0)%nat
      then (Some cache, true)
      else
        let hasSource :=
          (length solanaTokens =? 0)%nat
          || hasToken toLowerCase solanaTokens (sourceForCheck params) in
        let hasDest :=
          (length destTokens =? 0)%nat
          || hasToken toLowerCase destTokens (destToken params) in
        (Some cache, hasSource && hasDest)
  end.

(** No token of the list has the wanted address, case aside. *)
Definition unlisted (toLowerCase : string -> string) (tokens : list TokenInfo)
    (wanted : string) : Prop :=
  forall t a, t ∈ tokens -> token_address t = Some a ->
              toLowerCase a <> toLowerCase wanted.

(** A token list that knows USDC and native SOL on Solana and USDC on
    Ethereum. *)
Definition exampleTokens : gmap string (list TokenInfo) :=
  {[ SOLANA_CHAIN_ID :=
       [{| token_address := Some "EPjFWdd5AufqSSqeM2qN1xzybapC8G4wEGGkZwyTDt1v";
           token_chainId := SOLANA_CHAIN_ID |};
        {| token_address := Some NATIVE_SOL_ADDRESS;
           token_chainId := SOLANA_CHAIN_ID |}];
     "1" := [{| token_address := Some "0xA0b86991c6218b36c1d19D4a2e9Eb0cE3606eB48";
                token_chainId := "1" |}] ]}.

End Routes.

(** * Properties *)

(** ** Rounding *)

Section Rounding.

Local Open Scope Q_scope.

Lemma pow10_pos (n : nat) : (0 < Num.pow10 n)%Z.
Proof. unfold Num.pow10. apply Z.pow_pos_nonneg; lia. Qed.

Lemma inject_pow10_pos (n : nat) : 0 < inject_Z (Num.pow10 n).
Proof.
  change 0 with (inject_Z 0). rewrite <- Zlt_Qlt. apply pow10_pos.
Qed.


(** The result is a whole number of smallest units. *)
Lemma toDecimalPlaces_ROUND_UP_units (x : Q) (dp : nat) :
  exists k : Z, Num.toDecimalPlaces_ROUND_UP x dp == inject_Z k / inject_Z (Num.pow10 dp).
Proof.
  unfold Num.toDecimalPlaces_ROUND_UP.
  destruct (Qle_bool 0 x); eexists; reflexivity.
Qed.


End Rounding.

(** ** Price oracle and fee calculator *)

Section FeeCalculatorProperties.

Import FeeCalculator.
Local Open Scope Q_scope.











(** The test-suite example run through the definitions: 15000 lamports at
    150 USD with a 15 percent buffer cost 0.0025875 USD, charged 0.002588
    USDC or 0.00001725 SOL. *)
Example calculateMinimumFee_example :
  match snd (calculateMinimumFee ∅ exampleNow exampleReply exampleCosts (15 # 100)) with
  | Ok fees => feeInUsdc fees == 2588 # 1000000 /\ feeInSol fees == 17250 # 1000000000
  | Throw _ => False
  end.
Proof. vm_compute. split; reflexivity. Qed.

(** [Decimal.ROUND_UP] rounds away from zero, so the guarantee is tied to
    non-negative costs: a negative amount is rounded further down. *)
Example toDecimalPlaces_ROUND_UP_negative :
  Num.toDecimalPlaces_ROUND_UP (- (15 # 10000000)) 6 == - (2 # 1000000).
Proof. vm_compute. reflexivity. Qed.



(** C10. Fee coverage fails closed: when the cached SOL/USD price cannot
    be read (no cache entry, so [getCachedSolPrice] throws),
    [validateFeeCoverage] returns [false] instead of throwing, and therefore
    [FeeValidator.validateNoFundLeak] reports the fee as not covering the
    sponsor costs. *)
Theorem validateFeeCoverage_fails_closed
    (cfg : Config) (cache : PriceCache) (userFee : UserFee)
    (sponsorCosts : CostBreakdown) (err : Error) :
  getCachedSolPrice cache = Throw err ->
  cache !! SOL_USD = None /\
  validateFeeCoverage cfg cache userFee sponsorCosts = false /\
  FeeValidator.leak_valid
    (FeeValidator.validateNoFundLeak cfg cache userFee sponsorCosts) = false /\
  is_Some (FeeValidator.warning
    (FeeValidator.validateNoFundLeak cfg cache userFee sponsorCosts)).
Proof.
  intros Herr. unfold FeeValidator.validateNoFundLeak, validateFeeCoverage.
  rewrite Herr. cbn. unfold getCachedSolPrice in Herr.
  destruct (cache !! SOL_USD); [discriminate |]. eauto.
Qed.

Lemma validateFeeCoverage_fails_closed_witness :
  (∅ : PriceCache) !! SOL_USD = None /\
  validateFeeCoverage defaultConfig ∅
    {| fee_token := USDC; fee_amount := 1; valueUSD := 1 |} exampleCosts = false /\
  FeeValidator.leak_valid
    (FeeValidator.validateNoFundLeak defaultConfig ∅
       {| fee_token := USDC; fee_amount := 1; valueUSD := 1 |} exampleCosts) = false /\
  is_Some (FeeValidator.warning
    (FeeValidator.validateNoFundLeak defaultConfig ∅
       {| fee_token := USDC; fee_amount := 1; valueUSD := 1 |} exampleCosts)).
Proof.
  apply (validateFeeCoverage_fails_closed defaultConfig ∅ _ exampleCosts
           (PriceOracleError "No cached SOL price available - call getSolPrice() first")).
  reflexivity.
Defined.

(** With a cached price the same check is the plain comparison, so the
    [false] above is due to the missing price alone. *)
Lemma validateFeeCoverage_with_price
    (cfg : Config) (cache : PriceCache) (userFee : UserFee)
    (sponsorCosts : CostBreakdown) (e : PriceEntry) :
  cache !! SOL_USD = Some e ->
  validateFeeCoverage cfg cache userFee sponsorCosts = true <->
  totalSponsorCost sponsorCosts / LAMPORTS_PER_SOL * price e
    * (1 + FEE_VOLATILITY_BUFFER cfg) <= valueUSD userFee.
Proof.
  intros He. unfold validateFeeCoverage, getCachedSolPrice. rewrite He.
  apply Qle_bool_iff.
Qed.

Example validateFeeCoverage_example :
  validateFeeCoverage defaultConfig exampleCache
    {| fee_token := USDC; fee_amount := 1; valueUSD := 1 |} exampleCosts = true.
Proof. reflexivity. Qed.

End FeeCalculatorProperties.

(** ** Fee validator: transaction shape *)

Section FeeValidatorProperties.

Import FeeValidator.

Lemma truthy_Some (o : option string) :
  truthy o = true <-> exists s, o = Some s /\ s <> "".
Proof.
  destruct o as [s|]; cbn.
  - rewrite negb_true_iff. split.
    + intros H. exists s. split; [reflexivity |].
      intros ->. discriminate.
    + intros (s' & [= <-] & Hne). now apply String.eqb_neq.
  - split; [discriminate | intros (s & H & _); discriminate].
Qed.

(** Exact acceptance condition of [validateTransactionStructure]. *)
Lemma validateTransactionStructure_valid_iff
    (ixs : list CompiledInstruction) (keys : list string) :
  valid (validateTransactionStructure ixs keys) = true <->
  (2 <= length ixs)%nat /\
  exists firstIx rest programId,
    ixs = firstIx :: rest /\
    js_index keys (programIdIndex firstIx) = Some programId /\
    (programId = SYSTEM_PROGRAM_ADDRESS \/ programId = TOKEN_PROGRAM_ADDRESS \/
     programId = TOKEN_2022_PROGRAM_ADDRESS).
Proof.
  unfold validateTransactionStructure.
  destruct ixs as [|firstIx rest].
  { cbn. split; [discriminate | intros [H _]; lia]. }
  destruct (truthy (js_index keys (programIdIndex firstIx))) eqn:Ht; cbn [negb].
  2:{ cbn [valid]. split; [discriminate |].
      intros (_ & f & r & pid & [= <- <-] & Hpid & Hcap).
      assert (truthy (js_index keys (programIdIndex firstIx)) = true) as Ht'; [| congruence].
      apply truthy_Some. exists pid. split; [exact Hpid |].
      destruct Hcap as [-> | [-> | ->]]; discriminate. }
  apply truthy_Some in Ht as (pid & Hpid & Hne). rewrite Hpid.
  destruct (Nat.ltb_spec (length (firstIx :: rest)) 2) as [Hlt | Hge].
  - split.
    + repeat case_bool_decide; cbn; discriminate.
    + intros [H _]. lia.
  - split.
    + intros Hv. split; [exact Hge |]. exists firstIx, rest, pid.
      split; [reflexivity |]. split; [exact Hpid |].
      repeat case_bool_decide; cbn in Hv; try discriminate; simplify_eq; auto.
    + intros (_ & f & r & pid' & [= <- <-] & Hpid' & Hcap).
      rewrite Hpid in Hpid'. injection Hpid' as <-.
      destruct Hcap as [-> | [-> | ->]]; reflexivity.
Qed.

(** C5. [validateTransactionStructure] rejects every instruction list with
    fewer than two instructions, in particular every list of length one
    whatever its program id, and accepts only when the first instruction's
    program resolves to a fee-transfer-capable program. *)
Theorem validateTransactionStructure_shape :
  (forall ixs keys,
      (length ixs < 2)%nat -> valid (validateTransactionStructure ixs keys) = false) /\
  (forall ix keys, valid (validateTransactionStructure [ix] keys) = false) /\
  (forall ixs keys,
      valid (validateTransactionStructure ixs keys) = true ->
      exists firstIx rest programId,
        ixs = firstIx :: rest /\
        js_index keys (programIdIndex firstIx) = Some programId /\
        fee_transfer_capable programId).
Proof.
  assert (Hshort : forall ixs keys, (length ixs < 2)%nat ->
            valid (validateTransactionStructure ixs keys) = false).
  { intros ixs keys Hlen.
    destruct (valid (validateTransactionStructure ixs keys)) eqn:Hv; [| reflexivity].
    apply validateTransactionStructure_valid_iff in Hv as [Hge _]. lia. }
  split; [exact Hshort |]. split.
  - intros ix keys. apply Hshort. cbn. lia.
  - intros ixs keys Hv.
    apply validateTransactionStructure_valid_iff in Hv
      as (_ & f & r & pid & -> & Hpid & Hcap).
    exists f, r, pid. unfold fee_transfer_capable. intuition.
Qed.

Lemma validateTransactionStructure_shape_witness :
  valid (validateTransactionStructure [testTransfer] testKeys) = false /\
  valid (validateTransactionStructure [testBridge] testKeys) = false /\
  exists firstIx rest programId,
    [testTransfer; testBridge] = firstIx :: rest /\
    js_index testKeys (programIdIndex firstIx) = Some programId /\
    fee_transfer_capable programId.
Proof.
  destruct validateTransactionStructure_shape as (Hshort & Hone & Hacc).
  split; [| split].
  - apply (Hshort [testTransfer] testKeys). cbn. lia.
  - apply (Hone testBridge testKeys).
  - apply (Hacc [testTransfer; testBridge] testKeys). reflexivity.
Defined.

(** This validator is stricter than the transaction builder's: an
    associated-account creation in first position is not accepted here. *)
Example validateTransactionStructure_ata_first :
  valid (validateTransactionStructure
           [{| programIdIndex := 4; accountKeyIndexes := [0]; data := [1] |};
            testTransfer; testBridge] testKeys) = false.
Proof. reflexivity. Qed.

End FeeValidatorProperties.

(** ** Quote drift *)

Section QuoteDriftProperties.

Import DeBridgeProvider.
Local Open Scope Q_scope.

Lemma div_nonzero (a b : Q) : ~ b == 0 -> Num.div a b = Some (a / b).
Proof.
  intros Hb. unfold Num.div.
  destruct (Qeq_bool b 0) eqn:E; [| reflexivity].
  apply Qeq_bool_iff in E. contradiction.
Qed.





(** An expired quote, a failed re-quote and a zero original amount are
    all rejected. *)
Lemma quoteAccepted_rejects (cfg : Config) (now : Z) (quote : BridgeQuote) :
  ((validUntil quote < now)%Z ->
     forall requote, quoteAccepted cfg now quote requote = false) /\
  (forall e, quoteAccepted cfg now quote (Throw e) = false) /\
  (forall fresh, ParseFloat.parseFloat (destAmount quote) = Some 0 ->
     quoteAccepted cfg now quote (Ok fresh) = false).
Proof.
  unfold quoteAccepted, FeeValidator.validateQuoteDrift, validateQuote.
  repeat split.
  - intros Hexp requote.
    destruct (Z.ltb_spec (validUntil quote) now); [reflexivity | lia].
  - intros e. now destruct (validUntil quote <? now)%Z.
  - intros fresh H0. destruct (validUntil quote <? now)%Z; [reflexivity |].
    unfold drift. rewrite H0. cbn.
    now destruct (ParseFloat.parseFloat (destAmount fresh)).
Qed.

Example parseFloat_examples :
  ParseFloat.parseFloat "1000" = Some 1000 /\
  ParseFloat.parseFloat "abc" = None /\
  (exists q, ParseFloat.parseFloat " -12.50e1xyz" = Some q /\ q == -125).
Proof. repeat split. eexists. split; [vm_compute; reflexivity | reflexivity]. Qed.

End QuoteDriftProperties.

(** ** The stable sort *)

Section ArraySortProperties.

Import ArraySort.
Local Open Scope Q_scope.

Context {A : Type}.

Lemma insert_by_perm (cmp : A -> A -> Q) (x : A) (l : list A) :
  insert_by cmp x l ≡ₚ x :: l.
Proof.
  induction l as [|y l IH]; cbn; [reflexivity |].
  destruct (Qle_bool (cmp x y) 0); [reflexivity |].
  rewrite IH. apply Permutation_swap.
Qed.

Lemma sort_cons (cmp : A -> A -> Q) (x : A) (l : list A) :
  sort cmp (x :: l) = insert_by cmp x (sort cmp l).
Proof. reflexivity. Qed.

Lemma sort_perm (cmp : A -> A -> Q) (l : list A) : sort cmp l ≡ₚ l.
Proof.
  induction l as [|x l IH]; [reflexivity |].
  rewrite sort_cons, insert_by_perm. now f_equiv.
Qed.

(** The sort only consults the comparator on elements of the list. *)
Lemma insert_by_ext (cmp cmp' : A -> A -> Q) (x : A) (l : list A) :
  (forall y, y ∈ l -> cmp x y == cmp' x y) ->
  insert_by cmp x l = insert_by cmp' x l.
Proof.
  induction l as [|y l IH]; cbn; intros H; [reflexivity |].
  rewrite (H y) by left. rewrite IH; [reflexivity |].
  intros z Hz. apply H. now right.
Qed.

Lemma sort_ext (cmp cmp' : A -> A -> Q) (l : list A) :
  (forall a b, a ∈ l -> b ∈ l -> cmp a b == cmp' a b) ->
  sort cmp l = sort cmp' l.
Proof.
  induction l as [|x l IH]; intros H; [reflexivity |].
  rewrite !sort_cons.
  rewrite IH by (intros a b Ha Hb; apply H; now right).
  apply insert_by_ext. intros y Hy. apply H; [left |].
  right. now rewrite sort_perm in Hy.
Qed.

Variable key : A -> Q.

Local Abbreviation cmpk := (by_key_desc key).
Local Abbreviation R := (key_ge key).

Lemma insert_by_sorted (x : A) (l : list A) :
  StronglySorted R l -> StronglySorted R (insert_by cmpk x l).
Proof.
  induction l as [|y l IH]; cbn; intros Hs.
  - repeat constructor.
  - apply StronglySorted_inv in Hs as [Hl Hy].
    destruct (Qle_bool (cmpk x y) 0) eqn:E.
    + apply Qle_bool_iff in E. unfold by_key_desc in E.
      constructor; [now constructor |].
      constructor; [unfold key_ge; lra |].
      eapply Forall_impl; [exact Hy |]. unfold key_ge. intros z Hz. lra.
    + assert (key x < key y) as Hlt.
      { apply Qnot_le_lt. intros Hle.
        assert (Qle_bool (cmpk x y) 0 = true); [| congruence].
        apply Qle_bool_iff. unfold by_key_desc. lra. }
      constructor; [now apply IH |].
      rewrite insert_by_perm. constructor; [unfold key_ge; lra | exact Hy].
Qed.

Lemma sort_sorted (l : list A) : StronglySorted R (sort cmpk l).
Proof.
  induction l as [|x l IH]; [constructor |].
  rewrite sort_cons. now apply insert_by_sorted.
Qed.

Lemma StronglySorted_descending (l : list A) :
  StronglySorted R l -> descending key l.
Proof.
  induction 1 as [|a l Hs IH Ha]; intros i j x y Hij Hi Hj.
  - now rewrite lookup_nil in Hi.
  - destruct j as [|j]; [lia |]. cbn in Hj.
    destruct i as [|i]; cbn in Hi.
    + injection Hi as <-. rewrite Forall_forall in Ha.
      apply Ha. eapply list_elem_of_lookup_2, Hj.
    + apply (IH i j); [lia | assumption | assumption].
Qed.

Lemma sort_descending (l : list A) : descending key (sort cmpk l).
Proof. apply StronglySorted_descending, sort_sorted. Qed.





End ArraySortProperties.

(** ** Quote ranking *)

Section RankingProperties.

Import ProviderRegistry ArraySort.
Local Open Scope Q_scope.



Lemma rankQuotes_perm (l : list BridgeQuote) : rankQuotes l ≡ₚ l.
Proof. apply sort_perm. Qed.


(** The score is finite when the amounts parse and neither the best net
    amount nor the longest duration is zero. *)
Lemma score_is_Some (ranked : list BridgeQuote) (q best : BridgeQuote)
    (n m d : Q) :
  calculateNetAmount q = Some n ->
  head ranked = Some best -> calculateNetAmount best = Some m ->
  max_list (estimatedDuration <$> ranked) = Some d ->
  ~ m == 0 -> ~ d == 0 ->
  is_Some (score ranked q).
Proof.
  intros Hn Hb Hm Hd Hm0 Hd0. unfold score.
  rewrite Hn, Hb. cbn [mbind option_bind]. rewrite Hm. cbn [mbind option_bind].
  rewrite div_nonzero by exact Hm0. cbn [mbind option_bind].
  rewrite Hd. cbn [mbind option_bind].
  rewrite div_nonzero by exact Hd0. cbn [mbind option_bind]. eauto.
Qed.





(** The example run: net amounts 950, 1080 and 950 rank B first and keep A
    before C; the fast quote C has the best score and is recommended. *)
Example rankQuotes_example :
  rankQuotes exampleQuotes = [quoteB; quoteA; quoteC] /\
  selectRecommendedQuote (rankQuotes exampleQuotes) = Ok quoteC.
Proof. split; vm_compute; reflexivity. Qed.

Example score_example :
  exists s, score (rankQuotes exampleQuotes) quoteC = Some s /\
            s == (7 # 10) * (950 / 1080) + (3 # 10) * (1 - 100 / 600).
Proof. eexists. split; [vm_compute; reflexivity | reflexivity]. Qed.

End RankingProperties.

(** ** Quote aggregation *)

Section AggregationProperties.

Import ProviderRegistry.

Lemma in_order_seq {A} (pre l : list A) :
  in_order (seq (length pre) (length l)) (pre ++ l) = l.
Proof.
  revert pre. induction l as [|a l IH]; intros pre; [reflexivity |].
  unfold in_order in *. cbn [length seq omap list_omap].
  rewrite list_lookup_middle by reflexivity. f_equal.
  specialize (IH (pre ++ [a])).
  rewrite length_app, Nat.add_1_r, <- app_assoc in IH. exact IH.
Qed.

(** Whatever the completion order, every call of the round is recorded. *)
Lemma in_order_complete {A} (order : list nat) (l : list A) :
  complete_schedule order (length l) -> in_order order l ≡ₚ l.
Proof.
  unfold complete_schedule, in_order. intros ->.
  change (in_order (seq (length (@nil A)) (length l)) ([] ++ l) ≡ₚ l).
  now rewrite in_order_seq.
Qed.

Lemma elem_of_eligible (providers : list Provider) (p : Provider) :
  p ∈ List.filter supported providers <-> p ∈ providers /\ supported p = true.
Proof. rewrite !list_elem_of_In. apply filter_In. Qed.

Lemma length_zero_iff {A} (l : list A) : (length l =? 0)%nat = true <-> l = [].
Proof. destruct l; cbn; split; congruence. Qed.

Lemma selectRecommendedQuote_total (ranked : list BridgeQuote) :
  ranked <> [] -> exists q, selectRecommendedQuote ranked = Ok q.
Proof.
  intros Hne. destruct ranked as [|q0 [|q1 rest]]; [congruence | now exists q0 |].
  unfold selectRecommendedQuote.
  destruct (ArraySort.sort _ _) as [|best sorted] eqn:Es; [| eauto].
  assert (Hp : ArraySort.sort (descending_cmp snd)
            ((fun q => (q, score (q0 :: q1 :: rest) q)) <$> q0 :: q1 :: rest)
            ≡ₚ (fun q => (q, score (q0 :: q1 :: rest) q)) <$> q0 :: q1 :: rest)
    by apply sort_perm.
  rewrite Es in Hp. symmetry in Hp. apply Permutation_nil_r in Hp. discriminate.
Qed.

(** C6. Aggregation: a provider whose probe throws stays eligible; every
    provider is either eligible or recorded as having no route; a provider
    whose [getQuote] fails is recorded with its error and only left out of
    the quote list, every successful quote being kept; and the aggregation
    throws exactly when no provider returned a quote.  This holds for every
    order in which the concurrent calls complete. *)
Theorem getAggregatedQuotes_outcomes
    (m : Registry) (probeOrder quoteOrder : list nat) :
  complete_schedule probeOrder (length (getAllProviders m)) ->
  complete_schedule quoteOrder
    (length (List.filter supported (getAllProviders m))) ->
  let providers := getAllProviders m in
  let eligible := List.filter supported providers in
  (forall p e, p ∈ providers -> supportsRoute p = Throw e -> p ∈ eligible) /\
  ((exists e, getAggregatedQuotes m probeOrder quoteOrder = Throw e) <->
   omap quoteOf eligible = []) /\
  (forall agg,
      getAggregatedQuotes m probeOrder quoteOrder = Ok agg ->
      quotes agg ≡ₚ omap quoteOf eligible /\
      (forall p, p ∈ providers ->
         p ∈ eligible \/
         {| pr_provider := name p; pr_status := no_route; pr_error := None |}
           ∈ providerResults agg) /\
      (forall p e, p ∈ eligible -> getQuote p = Throw e ->
         {| pr_provider := name p; pr_status := error;
            pr_error := Some (error_message e) |} ∈ providerResults agg) /\
      (forall p q, p ∈ eligible -> getQuote p = Ok q ->
         q ∈ quotes agg /\
         {| pr_provider := name p; pr_status := success; pr_error := None |}
           ∈ providerResults agg)).
Proof.
  intros Hprobe Hquote providers eligible.
  split; [| split].
  - intros p e Hp He. apply elem_of_eligible. split; [exact Hp |].
    unfold supported. now rewrite He.
  - unfold getAggregatedQuotes. fold providers. fold eligible.
    destruct (length providers =? 0)%nat eqn:E1.
    { apply length_zero_iff in E1. split; [| eauto].
      intros _. subst eligible. now rewrite E1. }
    destruct (length eligible =? 0)%nat eqn:E2.
    { apply length_zero_iff in E2. split; [| eauto]. intros _. now rewrite E2. }
    destruct (length (omap quoteOf eligible) =? 0)%nat eqn:E3.
    { apply length_zero_iff in E3. split; [| eauto]. intros _. exact E3. }
    assert (Hne : omap quoteOf eligible <> []).
    { intros Hnil. apply length_zero_iff in Hnil. congruence. }
    destruct (selectRecommendedQuote_total (rankQuotes (omap quoteOf eligible)))
      as [r Hr].
    { intros Hnil. apply Hne. apply Permutation_nil_r.
      rewrite <- Hnil. symmetry. apply sort_perm. }
    rewrite Hr. cbn. split; [intros [e He]; discriminate | contradiction].
  - intros agg. unfold getAggregatedQuotes. fold providers. fold eligible.
    destruct (length providers =? 0)%nat; [discriminate |].
    destruct (length eligible =? 0)%nat; [discriminate |].
    destruct (length (omap quoteOf eligible) =? 0)%nat; [discriminate |].
    destruct (selectRecommendedQuote _) as [r|e]; cbn; [| discriminate].
    intros [= <-]. cbn.
    apply in_order_complete in Hprobe, Hquote. fold providers in Hprobe.
    fold providers in Hquote. fold eligible in Hquote.
    split; [apply sort_perm |]. split; [| split].
    + intros p Hp. destruct (supported p) eqn:Es.
      * left. now apply elem_of_eligible.
      * right. apply elem_of_app. left. apply list_elem_of_omap.
        exists p. split; [now rewrite Hprobe |].
        unfold supported in Es. unfold probeResult.
        destruct (supportsRoute p) as [[]|]; congruence.
    + intros p e Hp He. apply elem_of_app. right.
      apply list_elem_of_fmap. exists p. split; [| now rewrite Hquote].
      unfold quoteResult. now rewrite He.
    + intros p q Hp Hq. split.
      * rewrite (rankQuotes_perm (omap quoteOf eligible)). apply list_elem_of_omap.
        exists p. split; [exact Hp |]. unfold quoteOf. now rewrite Hq.
      * apply elem_of_app. right.
        apply list_elem_of_fmap. exists p. split; [| now rewrite Hquote].
        unfold quoteResult. now rewrite Hq.
Qed.

(** What is ranked: the successful quotes in provider registration order;
    the best quote is the first of the ranking and the recommendation is
    [selectRecommendedQuote] of it. *)
Lemma getAggregatedQuotes_ranking
    (m : Registry) (probeOrder quoteOrder : list nat) (agg : AggregatedQuotes) :
  getAggregatedQuotes m probeOrder quoteOrder = Ok agg ->
  quotes agg
    = rankQuotes (omap quoteOf (List.filter supported (getAllProviders m))) /\
  bestQuote agg = head (quotes agg) /\
  selectRecommendedQuote (quotes agg) = Ok (recommendedQuote agg).
Proof.
  unfold getAggregatedQuotes.
  destruct (length (getAllProviders m) =? 0)%nat; [discriminate |].
  destruct (length (List.filter supported (getAllProviders m)) =? 0)%nat;
    [discriminate |].
  destruct (length (omap quoteOf _) =? 0)%nat; [discriminate |].
  destruct (selectRecommendedQuote _) as [r|e] eqn:Er; cbn; [| discriminate].
  intros [= <-]. cbn. auto.
Qed.

Lemma getAggregatedQuotes_outcomes_witness :
  (exists agg,
      getAggregatedQuotes exampleRegistry [2; 0; 3; 1]%nat [1; 2; 0]%nat = Ok agg) /\
  (forall agg,
      getAggregatedQuotes exampleRegistry [2; 0; 3; 1]%nat [1; 2; 0]%nat = Ok agg ->
      quotes agg ≡ₚ [quoteA; quoteB] /\
      {| pr_provider := "flaky"; pr_status := error;
         pr_error := Some "Failed to get quote" |} ∈ providerResults agg).
Proof.
  assert (Hp1 : complete_schedule [2; 0; 3; 1]%nat
                  (length (getAllProviders exampleRegistry)))
    by (unfold complete_schedule; apply (bool_decide_unpack _); vm_compute; reflexivity).
  assert (Hp2 : complete_schedule [1; 2; 0]%nat
                  (length (List.filter supported (getAllProviders exampleRegistry))))
    by (unfold complete_schedule; apply (bool_decide_unpack _); vm_compute; reflexivity).
  destruct (getAggregatedQuotes_outcomes exampleRegistry
              [2; 0; 3; 1]%nat [1; 2; 0]%nat Hp1 Hp2) as (_ & Hthrow & Hok).
  split.
  - destruct (getAggregatedQuotes exampleRegistry [2; 0; 3; 1]%nat [1; 2; 0]%nat)
      as [agg|e] eqn:E; [eauto |].
    assert (Hnil : omap quoteOf
              (List.filter supported (getAllProviders exampleRegistry)) = [])
      by (apply Hthrow; eauto).
    vm_compute in Hnil. discriminate.
  - intros agg Hagg. destruct (Hok agg Hagg) as (Hq & _ & Herr & _).
    split; [exact Hq |].
    apply (Herr {| name := "flaky"; supportsRoute := Ok true;
                   getQuote := Throw (BridgeError "Failed to get quote" "flaky") |}
             (BridgeError "Failed to get quote" "flaky")); [| reflexivity].
    apply elem_of_eligible. split; [| reflexivity].
    vm_compute. do 2 right. left.
Defined.

(** The example run: the probe failure of "debridge" is ignored, "slow"
    is recorded as having no route (its probe completes third), and the
    quote failure of "flaky" is recorded while the two quotes are ranked. *)
Example getAggregatedQuotes_example :
  getAggregatedQuotes exampleRegistry [2; 0; 3; 1]%nat [1; 2; 0]%nat =
  Ok {| quotes := [quoteB; quoteA];
        bestQuote := Some quoteB;
        recommendedQuote := quoteA;
        providerResults :=
          [ {| pr_provider := "slow"; pr_status := no_route; pr_error := None |};
            {| pr_provider := "debridge"; pr_status := success; pr_error := None |};
            {| pr_provider := "flaky"; pr_status := error;
               pr_error := Some "Failed to get quote" |};
            {| pr_provider := "relay"; pr_status := success; pr_error := None |} ] |}.
Proof. vm_compute. reflexivity. Qed.

(** With no successful quote the aggregation throws. *)
Example getAggregatedQuotes_no_quote :
  getAggregatedQuotes
    (register {| name := "flaky"; supportsRoute := Ok true;
                 getQuote := Throw (JsError "boom") |} []) [0%nat] [0%nat]
  = Throw (JsError "Failed to get quotes from any provider").
Proof. reflexivity. Qed.

End AggregationProperties.

(** ** Transaction builder: fund-leak validation *)

Section FundLeakProperties.

Import TransactionBuilder.

Lemma is_empty_app {A} (l1 l2 : list A) :
  is_empty (l1 ++ l2) = is_empty l1 && is_empty l2.
Proof. now destruct l1, l2. Qed.

Lemma is_empty_if {A} (b : bool) (x : A) :
  is_empty (if b then [x] else []) = negb b.
Proof. now destruct b. Qed.

Lemma truthy_true (o : option string) :
  truthy o = true <-> exists s, o = Some s /\ s <> "".
Proof.
  destruct o as [s|]; cbn.
  - rewrite negb_true_iff. split.
    + intros Hs. exists s. split; [reflexivity |]. intros ->. discriminate.
    + intros (s' & [= <-] & Hne). now apply String.eqb_neq.
  - split; [discriminate | intros (s & Hs & _); discriminate].
Qed.

Lemma fee_transfer_capable_truthy (programId : string) :
  fee_transfer_capable programId -> truthy (Some programId) = true.
Proof. intros [-> | [-> | [-> | ->]]]; reflexivity. Qed.

Lemma fee_transfer_capable_decide (programId : string) :
  negb (bool_decide (Some programId = Some SYSTEM_PROGRAM_ADDRESS))
  && negb (bool_decide (Some programId = Some TOKEN_PROGRAM_ADDRESS)
           || bool_decide (Some programId = Some TOKEN_2022_PROGRAM_ADDRESS))
  && negb (bool_decide (Some programId = Some ASSOCIATED_TOKEN_PROGRAM_ADDRESS))
  = false <-> fee_transfer_capable programId.
Proof.
  unfold fee_transfer_capable.
  repeat case_bool_decide; cbn; simplify_eq; split; try tauto; try discriminate.
  intros [-> | [-> | [-> | ->]]]; congruence.
Qed.

(** Validity of a decoded message is exactly the three hard checks. *)
Lemma validateMessage_valid_iff (message : CompiledTransactionMessage)
    (sponsorAddress : option string) :
  isValid (validateMessage message sponsorAddress) = true <->
  sponsorIsFeePayer message sponsorAddress /\
  (2 <= length (instructions message))%nat /\
  firstIsFeeTransfer message.
Proof.
  unfold validateMessage, sponsorIsFeePayer, firstIsFeeTransfer, firstProgram.
  destruct (instructions message) as [|firstIx rest] eqn:Eix.
  { cbn. split; [discriminate | intros (_ & Hlen & _); lia]. }
  cbn [head mbind option_bind].
  destruct (js_index (staticAccounts message) (programAddressIndex firstIx))
    as [pid|] eqn:Epid.
  2:{ cbn. split; [discriminate | intros (_ & _ & pid & Hpid & _); discriminate]. }
  destruct (truthy (Some pid)) eqn:Etruthy; cbn [negb].
  2:{ cbn [isValid]. split; [discriminate |].
      intros (_ & _ & pid' & [= <-] & Hcap).
      apply fee_transfer_capable_truthy in Hcap. congruence. }
  cbn [isValid]. rewrite !is_empty_app, !is_empty_if, !andb_true_iff.
  rewrite !negb_true_iff, fee_transfer_capable_decide, Nat.ltb_ge.
  assert (Hpayer :
    is_empty
      (if truthy sponsorAddress
       then if negb (truthy (staticAccounts message !! 0%nat))
               || negb (bool_decide (staticAccounts message !! 0%nat = sponsorAddress))
            then ["Sponsor is not the fee payer of this transaction"] else []
       else []) = true
    <-> (truthy sponsorAddress = true ->
         staticAccounts message !! 0%nat = sponsorAddress)).
  { destruct (truthy sponsorAddress) eqn:Ets; [| cbn; intuition congruence].
    rewrite is_empty_if, negb_true_iff, orb_false_iff, !negb_false_iff.
    rewrite bool_decide_eq_true. split; [tauto |].
    intros Hs. specialize (Hs eq_refl). split; [| exact Hs]. now rewrite Hs. }
  rewrite Hpayer. split.
  - intros [[Hp Hlen] Hcap]. repeat split; eauto.
  - intros (Hp & Hlen & pid' & [= <-] & Hcap). auto.
Qed.

Lemma duplicateWarnings_seen (ixs : list CompiledInstruction)
    (seen : gset string) (ix : CompiledInstruction) :
  ix ∈ ixs -> instructionHash ix ∈ seen ->
  "Duplicate instruction detected" ∈ duplicateWarnings ixs seen.
Proof.
  revert seen. induction ixs as [|a ixs IH]; intros seen Hin Hseen.
  - now apply elem_of_nil in Hin.
  - cbn. apply elem_of_app. apply elem_of_cons in Hin as [<- | Hin].
    + left. rewrite bool_decide_eq_true_2 by exact Hseen. left.
    + right. apply IH; [exact Hin | set_solver].
Qed.

(** An instruction that occurs twice raises the warning. *)
Lemma duplicateWarnings_duplicate (l1 l2 l3 : list CompiledInstruction)
    (ix : CompiledInstruction) (seen : gset string) :
  "Duplicate instruction detected"
    ∈ duplicateWarnings (l1 ++ ix :: l2 ++ ix :: l3) seen.
Proof.
  revert seen. induction l1 as [|a l1 IH]; intros seen.
  - cbn. apply elem_of_app. right.
    apply duplicateWarnings_seen with (ix := ix); [| set_solver].
    apply elem_of_app. right. left.
  - cbn. apply elem_of_app. right. apply IH.
Qed.

Context `{SolanaCodec}.

(** C2. [validateNoFundLeak] returns [isValid = false] when the bytes do
    not decode, when a sponsor address is supplied and account 0 of the
    decoded message is not that sponsor, when fewer than two instructions
    exist, or when the first instruction's program is not the System,
    Token, Token-2022 or Associated Token program; otherwise it returns
    [isValid = true], so the duplicate-instruction check, which adds a
    warning for a repeated instruction, never turns a valid result invalid. *)
Theorem validateNoFundLeak_hard_checks
    (serializedTx : Buffer.bytes) (sponsorAddress : option string) :
  (forall e, decodeCompiled serializedTx = Throw e ->
     isValid (validateNoFundLeak serializedTx sponsorAddress) = false) /\
  (forall decoded message,
     decodeCompiled serializedTx = Ok (decoded, message) ->
     (truthy sponsorAddress = true /\
        staticAccounts message !! 0%nat <> sponsorAddress) \/
     (length (instructions message) < 2)%nat \/
     ~ firstIsFeeTransfer message ->
     isValid (validateNoFundLeak serializedTx sponsorAddress) = false) /\
  (forall decoded message,
     decodeCompiled serializedTx = Ok (decoded, message) ->
     sponsorIsFeePayer message sponsorAddress ->
     (2 <= length (instructions message))%nat ->
     firstIsFeeTransfer message ->
     isValid (validateNoFundLeak serializedTx sponsorAddress) = true /\
     errors (validateNoFundLeak serializedTx sponsorAddress) = [] /\
     forall l1 ix l2 l3, instructions message = l1 ++ ix :: l2 ++ ix :: l3 ->
       "Duplicate instruction detected"
         ∈ warnings (validateNoFundLeak serializedTx sponsorAddress)).
Proof.
  unfold validateNoFundLeak. split; [| split].
  - intros e ->. reflexivity.
  - intros decoded message -> Hbad.
    destruct (isValid (validateMessage message sponsorAddress)) eqn:Hv; [| reflexivity].
    apply validateMessage_valid_iff in Hv as (Hp & Hlen & Hcap).
    destruct Hbad as [[Hs Hne] | [Hshort | Hnot]]; [| lia | contradiction].
    now specialize (Hp Hs).
  - intros decoded message -> Hp Hlen Hcap.
    assert (Hv : isValid (validateMessage message sponsorAddress) = true)
      by now apply validateMessage_valid_iff.
    split; [exact Hv |].
    destruct Hcap as (pid & Hpid & Hcap). unfold firstProgram in Hpid.
    unfold validateMessage in *.
    destruct (instructions message) as [|firstIx rest] eqn:Eix; [discriminate |].
    cbn [head mbind option_bind] in Hpid. rewrite Hpid in *.
    rewrite (fee_transfer_capable_truthy pid Hcap) in *. cbn [negb] in *.
    cbn [isValid errors warnings] in *. split.
    + match goal with
      | Hv : is_empty ?l = true |- ?l = [] =>
          destruct l; [reflexivity | discriminate Hv]
      end.
    + intros l1 ix l2 l3 Hdup. apply elem_of_app. right.
      rewrite Hdup. apply duplicateWarnings_duplicate.
Qed.

End FundLeakProperties.

Section FundLeakExamples.

Import TransactionBuilder WireCodec.

Lemma validateNoFundLeak_hard_checks_witness :
  isValid (validateNoFundLeak [1; 2; 3] (Some sponsorAddress)) = false /\
  isValid (validateNoFundLeak (exampleTx [] oldHash) (Some userAddress)) = false /\
  isValid (validateNoFundLeak leakTx (Some sponsorAddress)) = false /\
  isValid (validateNoFundLeak duplicateTx (Some sponsorAddress)) = true /\
  "Duplicate instruction detected"
    ∈ warnings (validateNoFundLeak duplicateTx (Some sponsorAddress)).
Proof.
  split; [| split; [| split]].
  - destruct (validateNoFundLeak_hard_checks [1; 2; 3] (Some sponsorAddress))
      as (Hthrow & _ & _).
    apply (Hthrow (JsError "Codec: unexpected end of bytes")).
    vm_compute. reflexivity.
  - destruct (validateNoFundLeak_hard_checks (exampleTx [] oldHash) (Some userAddress))
      as (_ & Hbad & _).
    apply (Hbad (fst (decodedExample (exampleTx [] oldHash)))
                (snd (decodedExample (exampleTx [] oldHash))));
      [vm_compute; reflexivity |].
    left. split; [reflexivity | vm_compute; discriminate].
  - destruct (validateNoFundLeak_hard_checks leakTx (Some sponsorAddress))
      as (_ & Hbad & _).
    apply (Hbad (fst (decodedExample leakTx)) (snd (decodedExample leakTx)));
      [vm_compute; reflexivity |].
    right. right. intros (pid & Hpid & Hcap). vm_compute in Hpid.
    injection Hpid as <-.
    destruct Hcap as [Hc | [Hc | [Hc | Hc]]]; vm_compute in Hc; discriminate.
  - destruct (validateNoFundLeak_hard_checks duplicateTx (Some sponsorAddress))
      as (_ & _ & Hgood).
    destruct (Hgood (fst (decodedExample duplicateTx)) (snd (decodedExample duplicateTx)))
      as (Hv & _ & Hdup).
    + vm_compute. reflexivity.
    + intros _. vm_compute. reflexivity.
    + vm_compute. lia.
    + exists SYSTEM_PROGRAM_ADDRESS. split; [vm_compute; reflexivity | now left].
    + split; [exact Hv |].
      apply (Hdup [] {| programAddressIndex := 2; accountIndices := Some [1; 0];
                        data := Some [2; 0; 0; 0] |}
                  [{| programAddressIndex := 3; accountIndices := Some [1];
                      data := Some [1] |}] []).
      vm_compute. reflexivity.
Defined.

(** The sponsored example transaction passes, with and without a sponsor
    address to compare against. *)
Example validateNoFundLeak_example :
  validateNoFundLeak (exampleTx [] oldHash) (Some sponsorAddress)
    = {| isValid := true; errors := []; warnings := [] |} /\
  validateNoFundLeak (exampleTx [] oldHash) None
    = {| isValid := true; errors := []; warnings := [] |}.
Proof. split; vm_compute; reflexivity. Qed.

End FundLeakExamples.

(** ** Transaction builder: blockhash replacement *)

Section ReplaceBlockhashProperties.

Import Buffer TransactionBuilder.

Lemma every_equal_prefix (existing oldBytes : bytes) :
  every_equal existing oldBytes = true <-> existing `prefix_of` oldBytes.
Proof.
  revert oldBytes. induction existing as [|b ex IH]; intros old; cbn.
  - split; [intros _; apply prefix_nil | reflexivity].
  - destruct old as [|o old].
    + split; [discriminate |]. intros [k Hk]. discriminate.
    + rewrite andb_true_iff, IH, Z.eqb_eq. split.
      * intros [-> Hp]. now apply prefix_cons.
      * intros [k Hk]. injection Hk as -> ->. split; [reflexivity |].
        now exists k.
Qed.

Lemma length_slice (data : bytes) (start n : nat) :
  length (slice data start (start + n)) = Nat.min n (length data - start).
Proof.
  unfold slice. rewrite length_take, length_drop. lia.
Qed.

Lemma slice_full (data : bytes) (start n : nat) :
  (0 < n)%nat ->
  length (slice data start (start + n)) = n <-> (start + n <= length data)%nat.
Proof. rewrite length_slice. lia. Qed.

(** A successful [set_at] rewrites the window and nothing else. *)
Lemma set_at_frame (target newBytes out : bytes) (offset : nat) :
  set_at target newBytes offset = Ok out ->
  (offset + length newBytes <= length target)%nat /\
  length out = length target /\
  slice out offset (offset + length newBytes) = newBytes /\
  forall i, (i < offset \/ offset + length newBytes <= i)%nat ->
            out !! i = target !! i.
Proof.
  unfold set_at.
  destruct (Nat.ltb_spec (length target) (offset + length newBytes)) as [|Hfit];
    [discriminate |].
  intros [= <-]. split; [exact Hfit |]. split; [| split].
  - rewrite !length_app, length_take, length_drop. lia.
  - unfold slice. rewrite drop_app_length'; [| rewrite length_take; lia].
    replace (offset + length newBytes - offset)%nat with (length newBytes) by lia.
    now rewrite take_app_length.
  - intros i [Hlt | Hge].
    + rewrite lookup_app_l by (rewrite length_take; lia).
      apply lookup_take_lt. lia.
    + rewrite lookup_app_r by (rewrite length_take; lia).
      rewrite length_take, lookup_app_r by lia.
      rewrite lookup_drop. f_equal. lia.
Qed.

Context `{SolanaCodec}.

(** C4. [replaceBlockhash] returns the input bytes themselves when the
    fresh blockhash equals the decoded one.  Otherwise, at the offset
    computed from the signature count, the version prefix, the header and
    the static account count, it throws when the 32 bytes there are not the
    decoded old blockhash, and else returns a copy of the same length whose
    32 bytes at the offset are the new blockhash and whose every other
    byte is unchanged. *)
Theorem replaceBlockhash_frame (txBytes : bytes) (blockhash : string)
    (decoded : Transaction) (compiledMsg : CompiledTransactionMessage) :
  decodeCompiled txBytes = Ok (decoded, compiledMsg) ->
  (lifetimeToken compiledMsg = blockhash ->
     replaceBlockhash (Ok blockhash) txBytes = Ok txBytes) /\
  (forall oldBytes newBytes,
     lifetimeToken compiledMsg <> blockhash ->
     bs58_decode (lifetimeToken compiledMsg) = Ok oldBytes ->
     bs58_decode blockhash = Ok newBytes ->
     length oldBytes = 32%nat -> length newBytes = 32%nat ->
     let numSigs := length (signatures decoded) in
     let numAccounts := length (staticAccounts compiledMsg) in
     let msgStart := (compactLen numSigs + numSigs * 64)%nat in
     let offset := blockhashOffset decoded compiledMsg txBytes in
     offset = (msgStart + (if highBitSet txBytes msgStart then 1 else 0) + 3
               + compactLen numAccounts + numAccounts * 32)%nat /\
     (slice txBytes offset (offset + 32) <> oldBytes ->
        exists e, replaceBlockhash (Ok blockhash) txBytes = Throw e) /\
     (slice txBytes offset (offset + 32) = oldBytes ->
        exists out,
          replaceBlockhash (Ok blockhash) txBytes = Ok out /\
          length out = length txBytes /\
          slice out offset (offset + 32) = newBytes /\
          forall i, (i < offset \/ offset + 32 <= i)%nat ->
                    out !! i = txBytes !! i)).
Proof.
  intros Hdec. unfold replaceBlockhash. cbn [mbind result_bind].
  rewrite Hdec. cbn [mbind result_bind]. split.
  - intros ->. now rewrite String.eqb_refl.
  - intros oldBytes newBytes Hne Hold Hnew Hlo Hln.
    apply String.eqb_neq in Hne. rewrite Hne, Hold, Hnew. cbn [mbind result_bind].
    set (offset := blockhashOffset decoded compiledMsg txBytes).
    split; [reflexivity |]. split.
    + intros Hdiff.
      destruct (every_equal (slice txBytes offset (offset + 32)) oldBytes) eqn:Ee;
        cbn [negb]; [| eauto].
      apply every_equal_prefix in Ee.
      unfold set_at. rewrite Hln.
      destruct (Nat.ltb_spec (length txBytes) (offset + 32)) as [|Hfit]; [eauto |].
      exfalso. apply Hdiff.
      apply prefix_length_eq; [exact Ee |].
      apply slice_full in Hfit; lia.
    + intros Hsame.
      assert (Ee : every_equal (slice txBytes offset (offset + 32)) oldBytes = true)
        by (apply every_equal_prefix; now rewrite Hsame).
      rewrite Ee. cbn [negb].
      assert (Hfit : (offset + 32 <= length txBytes)%nat)
        by (apply slice_full; [lia | now rewrite Hsame]).
      destruct (set_at txBytes newBytes offset) as [out|e] eqn:Eset.
      * exists out. split; [reflexivity |].
        apply set_at_frame in Eset. rewrite Hln in Eset. tauto.
      * unfold set_at in Eset. rewrite Hln in Eset.
        destruct (Nat.ltb_spec (length txBytes) (offset + 32)); [lia | discriminate].
Qed.

End ReplaceBlockhashProperties.

Section ReplaceBlockhashExamples.

Import Buffer TransactionBuilder WireCodec.

Lemma replaceBlockhash_frame_witness :
  replaceBlockhash (Ok (bs58_encode oldHash)) (exampleTx [] oldHash)
    = Ok (exampleTx [] oldHash) /\
  (exists out,
      replaceBlockhash (Ok (bs58_encode newHash)) (exampleTx [128] oldHash) = Ok out /\
      length out = length (exampleTx [128] oldHash) /\
      slice out 262 (262 + 32) = newHash /\
      forall i, (i < 262 \/ 262 + 32 <= i)%nat ->
                out !! i = exampleTx [128] oldHash !! i) /\
  (exists e,
      replaceBlockhash (Ok (bs58_encode newHash)) twinSignerTx = Throw e).
Proof.
  split; [| split].
  - destruct (replaceBlockhash_frame (exampleTx [] oldHash) (bs58_encode oldHash)
                (fst (decodedExample (exampleTx [] oldHash)))
                (snd (decodedExample (exampleTx [] oldHash)))) as [Hsame _];
      [vm_compute; reflexivity |].
    apply Hsame. vm_compute. reflexivity.
  - destruct (replaceBlockhash_frame (exampleTx [128] oldHash) (bs58_encode newHash)
                (fst (decodedExample (exampleTx [128] oldHash)))
                (snd (decodedExample (exampleTx [128] oldHash)))) as [_ Hdiff];
      [vm_compute; reflexivity |].
    destruct (Hdiff oldHash newHash) as (Hoff & _ & Hok);
      [vm_compute; discriminate | vm_compute; reflexivity | vm_compute; reflexivity
      | reflexivity | reflexivity |].
    vm_compute in Hoff.
    change (blockhashOffset (fst (decodedExample (exampleTx [128] oldHash)))
              (snd (decodedExample (exampleTx [128] oldHash)))
              (exampleTx [128] oldHash)) with 262%nat in Hok.
    apply Hok. vm_compute. reflexivity.
  - destruct (replaceBlockhash_frame twinSignerTx (bs58_encode newHash)
                (fst (decodedExample twinSignerTx))
                (snd (decodedExample twinSignerTx))) as [_ Hdiff];
      [vm_compute; reflexivity |].
    destruct (Hdiff oldHash newHash) as (_ & Hthrow & _);
      [vm_compute; discriminate | vm_compute; reflexivity | vm_compute; reflexivity
      | reflexivity | reflexivity |].
    apply Hthrow. vm_compute. discriminate.
Defined.

(** Replacement on the legacy and on the v0 layout yields the transaction
    built with the new blockhash. *)
Example replaceBlockhash_example :
  replaceBlockhash (Ok (bs58_encode newHash)) (exampleTx [] oldHash)
    = Ok (exampleTx [] newHash) /\
  replaceBlockhash (Ok (bs58_encode newHash)) (exampleTx [128] oldHash)
    = Ok (exampleTx [128] newHash).
Proof. split; vm_compute; reflexivity. Qed.

End ReplaceBlockhashExamples.

(** ** Swap orchestrator: the pending-swap cache *)

Section OrchestratorProperties.

Import SwapOrchestrator.

Context `{TransactionBuilder.SolanaCodec}.

(** [prepareSwap] writes to the pending cache (and the price cache) only. *)
Lemma prepareSwap_frame (cfg : Config) (sponsor : string) (env : PrepareEnv)
    (st : State) (quote : BridgeQuote) (userWallet : string) (feeToken : FeeToken) :
  let st' := fst (prepareSwap cfg sponsor env st quote userWallet feeToken) in
  repository st' = repository st /\ submitted st' = submitted st /\
  activeMonitors st' = activeMonitors st.
Proof.
  unfold prepareSwap.
  destruct (prepareInputs cfg env quote) as [[[reqParams costs] built]|e];
    [| cbn; auto].
  destruct (match feeToken with SOL => _ | USDC => _ end) as [cache1 built4].
  destruct built4 as [[[completeTx userFee] finalCosts]|e]; [| cbn; auto].
  destruct (negb _ && _); cbn; auto.
Qed.

(** A successful [prepareSwap] leaves the entry under the returned id. *)
Lemma prepareSwap_stores (cfg : Config) (sponsor : string) (env : PrepareEnv)
    (st st' : State) (quote : BridgeQuote) (userWallet : string)
    (feeToken : FeeToken) (prepared : PreparedSwap) :
  prepareSwap cfg sponsor env st quote userWallet feeToken = (st', Ok prepared) ->
  ps_swapId prepared = p_uuid env /\
  ps_validUntil prepared = (p_now env + QUOTE_EXPIRY_SECONDS cfg * 1000)%Z /\
  exists entry,
    pendingSwaps st' !! ps_swapId prepared = Some entry /\
    pending_validUntil entry = ps_validUntil prepared /\
    cs_userFeeToken (createData entry) = fee_token (ps_userFee prepared) /\
    cs_userWallet (createData entry) = userWallet /\
    cs_quoteId (createData entry) = quoteId quote.
Proof.
  unfold prepareSwap.
  destruct (prepareInputs cfg env quote) as [[[reqParams costs] built]|e];
    [| discriminate].
  destruct (match feeToken with SOL => _ | USDC => _ end) as [cache1 built4].
  destruct built4 as [[[completeTx userFee] finalCosts]|e]; [| discriminate].
  destruct (negb _ && _); [discriminate |].
  intros [= <- <-]. cbn. split; [reflexivity |]. split; [reflexivity |].
  eexists. split; [apply lookup_insert_eq |]. cbn. auto.
Qed.

Lemma catch_execute_consumes (swapId : string) (st : State) (e : Error) :
  pendingSwaps (fst (catch_execute swapId st e)) !! swapId = None /\
  submitted (fst (catch_execute swapId st e)) = submitted st /\
  repository (fst (catch_execute swapId st e)) = repository st.
Proof.
  unfold catch_execute. destruct (instanceof_AppError e); cbn;
    rewrite lookup_delete_eq; auto.
Qed.

Lemma createAndSend_consumes (env : ExecuteEnv) (st : State) (swapId : string)
    (pending : PendingSwap) (txBytes : Buffer.bytes) :
  pendingSwaps (fst (createAndSend env st swapId pending txBytes)) !! swapId = None.
Proof.
  unfold createAndSend.
  destruct (e_create env); [apply catch_execute_consumes |].
  destruct (e_send env) as [sent|e]; [| apply catch_execute_consumes].
  destruct (e_update env); [apply catch_execute_consumes |].
  destruct (negb (send_success sent)); cbn; [apply lookup_delete_eq |].
  destruct (e_providerRegistered env); cbn; apply lookup_delete_eq.
Qed.

(** On a missing id nothing happens but the not-found error. *)
Lemma executeSwap_missing (sponsor : string) (env : ExecuteEnv) (st : State)
    (swapId : string) (txBytes : Buffer.bytes) :
  pendingSwaps st !! swapId = None ->
  executeSwap sponsor env st swapId txBytes
    = (st, Throw (NotFoundError "Swap" swapId)).
Proof. intros E. unfold executeSwap. now rewrite E. Qed.

(** Whatever its outcome, [executeSwap] leaves no entry under the id. *)
Lemma executeSwap_consumes (sponsor : string) (env : ExecuteEnv) (st : State)
    (swapId : string) (txBytes : Buffer.bytes) :
  pendingSwaps (fst (executeSwap sponsor env st swapId txBytes)) !! swapId = None.
Proof.
  unfold executeSwap.
  destruct (pendingSwaps st !! swapId) as [pending|] eqn:E; [| exact E].
  destruct (pending_validUntil pending <? e_now env)%Z;
    [cbn; apply lookup_delete_eq |].
  destruct (cs_userFeeToken (createData pending)).
  - destruct (negb _); [cbn; apply lookup_delete_eq |].
    apply createAndSend_consumes.
  - apply createAndSend_consumes.
Qed.

(** An entry that has expired but is still cached yields the
    quote-expired error; the entry is dropped and nothing else changes. *)
Lemma executeSwap_expired (sponsor : string) (env : ExecuteEnv) (st : State)
    (swapId : string) (txBytes : Buffer.bytes) (pending : PendingSwap) :
  pendingSwaps st !! swapId = Some pending ->
  (pending_validUntil pending < e_now env)%Z ->
  executeSwap sponsor env st swapId txBytes
    = (set_pending (delete swapId) st, Throw QuoteExpiredError).
Proof.
  intros E Hexp. unfold executeSwap. rewrite E.
  destruct (Z.ltb_spec (pending_validUntil pending) (e_now env)); [reflexivity | lia].
Qed.

(** With a live entry, a transaction that passes validation (or direct
    mode) and collaborators that succeed, the swap is submitted once and
    recorded. *)
Lemma executeSwap_submits (sponsor : string) (env : ExecuteEnv) (st : State)
    (swapId : string) (txBytes : Buffer.bytes) (pending : PendingSwap)
    (sent : SendResult) :
  pendingSwaps st !! swapId = Some pending ->
  (e_now env <= pending_validUntil pending)%Z ->
  cs_userFeeToken (createData pending) = SOL \/
    TransactionBuilder.isValid
      (TransactionBuilder.validateNoFundLeak txBytes (Some sponsor)) = true ->
  e_create env = None -> e_update env = None ->
  e_send env = Ok sent -> send_success sent = true ->
  let '(st', r) := executeSwap sponsor env st swapId txBytes in
  r = Ok {| er_swapId := swapId; er_status := submitted_status;
            er_signature := send_signature sent; er_error := None |} /\
  submitted st' = submitted st ++ [txBytes] /\
  is_Some (repository st' !! swapId).
Proof.
  intros E Hlive Hvalid Hc Hu Hs Hok. unfold executeSwap. rewrite E.
  destruct (Z.ltb_spec (pending_validUntil pending) (e_now env)); [lia |].
  assert (Hsend :
    let '(st', r) := createAndSend env st swapId pending txBytes in
    r = Ok {| er_swapId := swapId; er_status := submitted_status;
              er_signature := send_signature sent; er_error := None |} /\
    submitted st' = submitted st ++ [txBytes] /\
    is_Some (repository st' !! swapId)).
  { unfold createAndSend. rewrite Hc, Hs, Hu, Hok. cbn [negb].
    assert (Hrow : forall sig,
      is_Some (alter (fun s : Swap =>
                 {| swap_data := swap_data s; swap_status := SUBMITTED;
                    swap_solanaSignature :=
                      match sig with
                      | Some _ => sig
                      | None => swap_solanaSignature s
                      end;
                    swap_errorMessage := swap_errorMessage s |}) swapId
                 (<[swapId := newSwap (createData pending)]> (repository st))
               !! swapId)).
    { intros sig. rewrite lookup_alter_eq, lookup_insert_eq. cbn. eauto. }
    destruct (e_providerRegistered env); cbn; repeat split; apply Hrow. }
  destruct (cs_userFeeToken (createData pending)) eqn:Etok.
  - destruct Hvalid as [Hsol | Hv]; [discriminate |]. rewrite Hv. exact Hsend.
  - exact Hsend.
Qed.

(** [prepareSwap] sweeps the entries that have expired by then, so a
    later [executeSwap] on such an id finds nothing. *)
Lemma prepareSwap_sweeps (cfg : Config) (sponsor : string) (env : PrepareEnv)
    (st : State) (quote : BridgeQuote) (userWallet : string) (feeToken : FeeToken)
    (swapId : string) (pending : PendingSwap) :
  pendingSwaps st !! swapId = Some pending ->
  (pending_validUntil pending < p_now env)%Z ->
  swapId <> p_uuid env ->
  pendingSwaps (fst (prepareSwap cfg sponsor env st quote userWallet feeToken))
    !! swapId = None.
Proof.
  intros E Hexp Hid.
  assert (Hswept : pendingSwaps (cleanupExpiredPendingSwaps (p_now env) st)
                     !! swapId = None).
  { cbn. apply map_lookup_filter_None. right. intros p Hp. cbn.
    rewrite E in Hp. injection Hp as <-. lia. }
  unfold prepareSwap.
  destruct (prepareInputs cfg env quote) as [[[reqParams costs] built]|e];
    [| exact Hswept].
  destruct (match feeToken with SOL => _ | USDC => _ end) as [cache1 built4].
  destruct built4 as [[[completeTx userFee] finalCosts]|e]; [| exact Hswept].
  destruct (negb _ && _); [exact Hswept |].
  cbn. rewrite lookup_insert_ne by congruence. exact Hswept.
Qed.

(** C3, with the expiry guard of the code.  [prepareSwap] writes the prepared swap to
    the pending cache only: the durable repository, the submitted
    transactions and the monitors are untouched.  Every [executeSwap]
    leaves no entry under its id, whether it succeeds or fails, so a second
    [executeSwap] on the same id, like one on an id that was never cached,
    throws the not-found error and changes nothing.  An id whose entry has
    expired but is still cached throws the quote-expired error instead; the
    entry is dropped and nothing is submitted.  A prepared swap executed in
    time, with a valid signed transaction and working collaborators, is
    submitted once. *)
Theorem pending_swap_lifecycle :
  (forall cfg sponsor env st quote userWallet feeToken,
      let st' := fst (prepareSwap cfg sponsor env st quote userWallet feeToken) in
      repository st' = repository st /\ submitted st' = submitted st /\
      activeMonitors st' = activeMonitors st) /\
  (forall cfg sponsor env st st' quote userWallet feeToken prepared,
      prepareSwap cfg sponsor env st quote userWallet feeToken = (st', Ok prepared) ->
      exists entry,
        pendingSwaps st' !! ps_swapId prepared = Some entry /\
        pending_validUntil entry
          = (p_now env + QUOTE_EXPIRY_SECONDS cfg * 1000)%Z) /\
  (forall sponsor env st swapId txBytes,
      pendingSwaps (fst (executeSwap sponsor env st swapId txBytes)) !! swapId
        = None) /\
  (forall sponsor env st swapId txBytes,
      pendingSwaps st !! swapId = None ->
      executeSwap sponsor env st swapId txBytes
        = (st, Throw (NotFoundError "Swap" swapId))) /\
  (forall sponsor env1 env2 st swapId tx1 tx2,
      let st1 := fst (executeSwap sponsor env1 st swapId tx1) in
      executeSwap sponsor env2 st1 swapId tx2
        = (st1, Throw (NotFoundError "Swap" swapId))) /\
  (forall sponsor env st swapId txBytes pending,
      pendingSwaps st !! swapId = Some pending ->
      (pending_validUntil pending < e_now env)%Z ->
      executeSwap sponsor env st swapId txBytes
        = (set_pending (delete swapId) st, Throw QuoteExpiredError)) /\
  (forall cfg sponsor penv st st' quote userWallet feeToken prepared env txBytes sent,
      prepareSwap cfg sponsor penv st quote userWallet feeToken = (st', Ok prepared) ->
      (e_now env <= ps_validUntil prepared)%Z ->
      fee_token (ps_userFee prepared) = SOL \/
        TransactionBuilder.isValid
          (TransactionBuilder.validateNoFundLeak txBytes (Some sponsor)) = true ->
      e_create env = None -> e_update env = None ->
      e_send env = Ok sent -> send_success sent = true ->
      let '(st'', r) := executeSwap sponsor env st' (ps_swapId prepared) txBytes in
      r = Ok {| er_swapId := ps_swapId prepared; er_status := submitted_status;
                er_signature := send_signature sent; er_error := None |} /\
      submitted st'' = submitted st' ++ [txBytes] /\
      is_Some (repository st'' !! ps_swapId prepared)).
Proof.
  split; [apply prepareSwap_frame |].
  split.
  { intros cfg sponsor env st st' quote userWallet feeToken prepared Hp.
    apply prepareSwap_stores in Hp as (_ & Hu & entry & He & Hv & _).
    exists entry. split; [exact He | congruence]. }
  split; [apply executeSwap_consumes |].
  split; [apply executeSwap_missing |].
  split.
  { intros sponsor env1 env2 st swapId tx1 tx2 st1.
    apply executeSwap_missing, executeSwap_consumes. }
  split; [apply executeSwap_expired |].
  intros cfg sponsor penv st st' quote userWallet feeToken prepared env txBytes sent
    Hp Hlive Hvalid Hc Hu Hs Hok.
  apply prepareSwap_stores in Hp as (_ & _ & entry & He & Hv & Htok & _).
  apply (executeSwap_submits sponsor env st' (ps_swapId prepared) txBytes entry sent);
    try assumption.
  - lia.
  - now rewrite Htok.
Qed.

End OrchestratorProperties.

Section OrchestratorExamples.

Import SwapOrchestrator WireCodec.

(** An entry that expired at millisecond 30000, executed at 31000: the
    error is the quote-expired error, not the not-found error. *)
Lemma executeSwap_expired_is_not_not_found :
  pendingSwaps exampleState !! "swap-1"
    = Some {| createData := exampleCreateData; pending_validUntil := 30000 |} /\
  snd (executeSwap sponsorAddress (exampleExecuteEnv 31000) exampleState "swap-1"
         (exampleTx [] oldHash)) = Throw QuoteExpiredError /\
  ~ is_not_found
      (snd (executeSwap sponsorAddress (exampleExecuteEnv 31000) exampleState
              "swap-1" (exampleTx [] oldHash))).
Proof.
  split; [reflexivity |].
  assert (E : snd (executeSwap sponsorAddress (exampleExecuteEnv 31000) exampleState
                     "swap-1" (exampleTx [] oldHash)) = Throw QuoteExpiredError)
    by (vm_compute; reflexivity).
  split; [exact E |]. rewrite E. intros (resource & id & Habs). discriminate.
Qed.

Lemma pending_swap_lifecycle_witness :
  executeSwap sponsorAddress (exampleExecuteEnv 31000) exampleState "swap-1"
    (exampleTx [] oldHash)
    = (set_pending (delete "swap-1") exampleState, Throw QuoteExpiredError) /\
  executeSwap sponsorAddress (exampleExecuteEnv 2000) exampleState "swap-9"
    (exampleTx [] oldHash)
    = (exampleState, Throw (NotFoundError "Swap" "swap-9")) /\
  (let '(st'', r) :=
     executeSwap sponsorAddress (exampleExecuteEnv 2000)
       (fst (prepareSwap defaultConfig sponsorAddress examplePrepareEnv exampleState
               (DeBridgeProvider.exampleQuote "1000" 30000) "UserWallet" SOL))
       "swap-2" (exampleTx [] newHash) in
   r = Ok {| er_swapId := "swap-2"; er_status := submitted_status;
             er_signature := Some "sig-1"; er_error := None |} /\
   submitted st''
     = submitted (fst (prepareSwap defaultConfig sponsorAddress examplePrepareEnv
                         exampleState (DeBridgeProvider.exampleQuote "1000" 30000)
                         "UserWallet" SOL)) ++ [exampleTx [] newHash] /\
   is_Some (repository st'' !! "swap-2")).
Proof.
  destruct pending_swap_lifecycle as (_ & _ & _ & Hmissing & _ & Hexpired & Hrun).
  split; [| split].
  - apply (Hexpired sponsorAddress (exampleExecuteEnv 31000) exampleState "swap-1"
             (exampleTx [] oldHash)
             {| createData := exampleCreateData; pending_validUntil := 30000 |});
      [reflexivity | reflexivity].
  - apply (Hmissing sponsorAddress (exampleExecuteEnv 2000) exampleState "swap-9").
    reflexivity.
  - apply (Hrun defaultConfig sponsorAddress examplePrepareEnv exampleState
             (fst (prepareSwap defaultConfig sponsorAddress examplePrepareEnv
                     exampleState (DeBridgeProvider.exampleQuote "1000" 30000)
                     "UserWallet" SOL))
             (DeBridgeProvider.exampleQuote "1000" 30000) "UserWallet" SOL
             {| ps_quote := DeBridgeProvider.exampleQuote "1000" 30000;
                ps_transaction := exampleTx [] newHash;
                ps_userFee := {| fee_token := SOL; fee_amount := 0; valueUSD := 0 |};
                ps_sponsorCosts := FeeCalculator.exampleCosts;
                ps_validUntil := 31000; ps_swapId := "swap-2" |}
             (exampleExecuteEnv 2000) (exampleTx [] newHash)
             {| send_success := true; send_signature := Some "sig-1";
                send_error := None |});
      [vm_compute; reflexivity | vm_compute; discriminate | now left
      | reflexivity | reflexivity | reflexivity | reflexivity].
Defined.

(** The full round: prepare in sponsored (USDC) mode, execute, execute
    again.  The second call finds nothing and submits nothing. *)
Example prepare_execute_twice :
  let st1 := fst (prepareSwap defaultConfig sponsorAddress examplePrepareEnv
                    exampleState (DeBridgeProvider.exampleQuote "1000" 30000)
                    "UserWallet" USDC) in
  let run1 := executeSwap sponsorAddress (exampleExecuteEnv 2000) st1 "swap-2"
                (exampleTx [] newHash) in
  let run2 := executeSwap sponsorAddress (exampleExecuteEnv 3000) (fst run1) "swap-2"
                (exampleTx [] newHash) in
  is_Some (pendingSwaps st1 !! "swap-2") /\ repository st1 = ∅ /\
  snd run1 = Ok {| er_swapId := "swap-2"; er_status := submitted_status;
                   er_signature := Some "sig-1"; er_error := None |} /\
  submitted (fst run1) = [exampleTx [] newHash] /\
  snd run2 = Throw (NotFoundError "Swap" "swap-2") /\
  submitted (fst run2) = [exampleTx [] newHash].
Proof.
  cbv zeta. split; [vm_compute; eauto |]. repeat split; vm_compute; reflexivity.
Qed.

End OrchestratorExamples.

(** ** Fee calculator: conversions and smallest units *)

Section FeeConversionProperties.

Import FeeCalculator FeeConversion.
Local Open Scope Q_scope.

(** A successful [getSolPrice] leaves the returned price in the cache. *)
Lemma getSolPrice_caches (cache cache' : PriceCache) (now : Z)
    (reply : AccountInfoReply) (p : Q) :
  getSolPrice cache now reply = (cache', Ok p) ->
  exists e, cache' !! SOL_USD = Some e /\ price e = p /\
            (cache' = cache \/ timestamp e = now).
Proof.
  unfold getSolPrice, refreshSolPrice.
  destruct (cache !! SOL_USD) as [c|] eqn:Hc.
  - destruct (now - timestamp c <? PRICE_CACHE_TTL)%Z.
    + intros [= <- <-]. eauto.
    + destruct (fetchPythPriceOnchain reply now) as [q|err].
      * intros [= <- <-]. eexists. rewrite lookup_insert_eq. eauto.
      * intros [= <- <-]. eauto.
  - destruct (fetchPythPriceOnchain reply now) as [q|err]; [| discriminate].
    intros [= <- <-]. eexists. rewrite lookup_insert_eq. eauto.
Qed.

(** Asked again at the same instant, with the same answer from the node,
    the oracle client hands out the same price and leaves the cache as it
    is. *)
Lemma getSolPrice_again (cache cache' : PriceCache) (now : Z)
    (reply : AccountInfoReply) (p : Q) :
  getSolPrice cache now reply = (cache', Ok p) ->
  getSolPrice cache' now reply = (cache', Ok p).
Proof.
  unfold getSolPrice, refreshSolPrice.
  destruct (cache !! SOL_USD) as [c|] eqn:Hc.
  - destruct (now - timestamp c <? PRICE_CACHE_TTL)%Z eqn:Hfresh.
    + intros [= <- <-]. now rewrite Hc, Hfresh.
    + destruct (fetchPythPriceOnchain reply now) as [q|err] eqn:Hf.
      * intros [= <- <-]. rewrite lookup_insert_eq. cbn.
        now rewrite Z.sub_diag.
      * intros [= <- <-]. now rewrite Hc, Hfresh.
  - destruct (fetchPythPriceOnchain reply now) as [q|err] eqn:Hf; [| discriminate].
    intros [= <- <-]. rewrite lookup_insert_eq. cbn. now rewrite Z.sub_diag.
Qed.


(** X1. The price the calculator hands out is the price it keeps: after a
    successful [getSolPrice], the synchronous [getCachedSolPrice] returns
    the same price, and so does a second [getSolPrice] at the same instant,
    without changing the cache. *)
Theorem getSolPrice_then_cached (cache cache' : PriceCache) (now : Z)
    (reply : AccountInfoReply) (p : Q) :
  getSolPrice cache now reply = (cache', Ok p) ->
  getCachedSolPrice cache' = Ok p /\
  getSolPrice cache' now reply = (cache', Ok p).
Proof.
  intros E. split; [| exact (getSolPrice_again _ _ _ _ _ E)].
  destruct (getSolPrice_caches _ _ _ _ _ E) as (e & He & Hp & _).
  unfold getCachedSolPrice. now rewrite He, Hp.
Qed.

Lemma getSolPrice_then_cached_witness :
  getCachedSolPrice (fst (getSolPrice ∅ exampleNow exampleReply))
    = Ok (inject_Z 15000000000 * Qpower 10 (-8)) /\
  getSolPrice (fst (getSolPrice ∅ exampleNow exampleReply)) exampleNow exampleReply
    = (fst (getSolPrice ∅ exampleNow exampleReply),
       Ok (inject_Z 15000000000 * Qpower 10 (-8))).
Proof.
  apply (getSolPrice_then_cached ∅ _ exampleNow exampleReply).
  vm_compute; reflexivity.
Defined.



(** An oracle that cannot be reached makes the conversion fail with the
    price-oracle error when nothing is cached; equal tokens never get
    there. *)
Lemma convertFee_no_price (now : Z) (reply : AccountInfoReply) (amount : Q)
    (from to : FeeToken) (err : Error) :
  fetchPythPriceOnchain reply now = Throw err ->
  same_token from to = false ->
  exists msg, convertFee ∅ now reply amount from to = (∅, Throw (PriceOracleError msg)).
Proof.
  intros Hf Hne. unfold convertFee, getSolPrice, refreshSolPrice.
  rewrite Hne, lookup_empty, Hf. cbn. eauto.
Qed.



(** [toFixed(0)] returns a nearest integer. *)
Lemma toFixed0_nearest (x : Q) :
  x - (1 # 2) <= inject_Z (toFixed0 x) /\ inject_Z (toFixed0 x) <= x + (1 # 2).
Proof.
  unfold toFixed0. destruct (Qle_bool 0 x).
  - pose proof (Qfloor_le (x + (1 # 2))) as Hlo.
    pose proof (Qlt_floor (x + (1 # 2))) as Hhi.
    rewrite inject_Z_plus in Hhi. change (inject_Z 1) with 1 in Hhi.
    generalize dependent (inject_Z (Qfloor (x + (1 # 2)))). intros n ? ?.
    split; lra.
  - pose proof (Qle_ceiling (x - (1 # 2))) as Hlo.
    pose proof (Qceiling_lt (x - (1 # 2))) as Hhi.
    unfold Z.sub in Hhi. rewrite inject_Z_plus, inject_Z_opp in Hhi.
    change (inject_Z 1) with 1 in Hhi.
    generalize dependent (inject_Z (Qceiling (x - (1 # 2)))). intros n ? ?.
    split; lra.
Qed.

(** On a whole number it is the identity. *)
Lemma toFixed0_whole (x : Q) (k : Z) : x == inject_Z k -> toFixed0 x = k.
Proof.
  intros E. pose proof (toFixed0_nearest x) as [Hlo Hhi].
  assert (H1 : (k - 1 < toFixed0 x)%Z).
  { rewrite Zlt_Qlt. unfold Z.sub. rewrite inject_Z_plus, inject_Z_opp.
    change (inject_Z 1) with 1.
    set (t := inject_Z (toFixed0 x)) in *. set (q := inject_Z k) in *.
    clearbody t q. lra. }
  assert (H2 : (toFixed0 x < k + 1)%Z).
  { rewrite Zlt_Qlt, inject_Z_plus. change (inject_Z 1) with 1.
    set (t := inject_Z (toFixed0 x)) in *. set (q := inject_Z k) in *.
    clearbody t q. lra. }
  lia.
Qed.

(** X4. [calculateFeeInTokenUnits] rounds to a nearest unit, so it is
    within half a unit of the fee; on the USDC fee of
    [calculateMinimumFee], which is a whole number of micro-USDC, it loses
    nothing: the token units at 6 decimals are the fee exactly. *)
Theorem calculateFeeInTokenUnits_minimum_fee
    (cache cache' : PriceCache) (now : Z) (reply : AccountInfoReply)
    (costs : CostBreakdown) (volatilityBuffer : Q) (fees : MinimumFee) :
  calculateMinimumFee cache now reply costs volatilityBuffer = (cache', Ok fees) ->
  inject_Z (calculateFeeInTokenUnits (feeInUsdc fees) 6) == feeInUsdc fees * 1000000 /\
  forall (fee : Q) (decimals : Z),
    Qabs (inject_Z (calculateFeeInTokenUnits fee decimals) - fee * Qpower 10 decimals)
      <= 1 # 2.
Proof.
  intros E. split.
  - unfold calculateMinimumFee in E.
    destruct (getSolPrice cache now reply) as [c r].
    destruct r as [p|err]; cbn [mbind result_bind] in E; [| discriminate].
    injection E as _ <-. cbn [feeInUsdc minimumFeeAt].
    match goal with |- context [Num.toDecimalPlaces_ROUND_UP ?x 6] =>
      destruct (toDecimalPlaces_ROUND_UP_units x 6) as [k Hk];
      set (f := Num.toDecimalPlaces_ROUND_UP x 6) in *
    end.
    change (inject_Z (Num.pow10 6)) with 1000000 in Hk.
    assert (Ek : f * Qpower 10 6 == inject_Z k).
    { rewrite Hk. change (Qpower 10 6) with 1000000. field. }
    unfold calculateFeeInTokenUnits. rewrite (toFixed0_whole _ _ Ek).
    rewrite Hk. field.
  - intros fee decimals. unfold calculateFeeInTokenUnits.
    pose proof (toFixed0_nearest (fee * Qpower 10 decimals)) as [Hlo Hhi].
    apply Qabs_Qle_condition. split; lra.
Qed.

Lemma calculateFeeInTokenUnits_minimum_fee_witness :
  inject_Z (calculateFeeInTokenUnits
              (feeInUsdc (minimumFeeAt (inject_Z 15000000000 * Qpower 10 (-8))
                            exampleCosts (15 # 100))) 6)
    == feeInUsdc (minimumFeeAt (inject_Z 15000000000 * Qpower 10 (-8))
                    exampleCosts (15 # 100)) * 1000000 /\
  forall (fee : Q) (decimals : Z),
    Qabs (inject_Z (calculateFeeInTokenUnits fee decimals) - fee * Qpower 10 decimals)
      <= 1 # 2.
Proof.
  apply (calculateFeeInTokenUnits_minimum_fee ∅
           (fst (getSolPrice ∅ exampleNow exampleReply)) exampleNow exampleReply
           exampleCosts (15 # 100)).
  vm_compute; reflexivity.
Defined.

(** Unlike the minimum fee itself, the token units of an arbitrary fee can
    fall below it: 0.4 micro-USDC is charged as nothing. *)
Example calculateFeeInTokenUnits_rounds_down :
  calculateFeeInTokenUnits (4 # 10000000) 6 = 0%Z /\
  calculateFeeInTokenUnits (5 # 10000000) 6 = 1%Z /\
  calculateFeeInTokenUnits (1 # 2) 6 = 500000%Z /\
  calculateFeeInLamports (15 # 10000000000) = 2%Z.
Proof. repeat split; vm_compute; reflexivity. Qed.

End FeeConversionProperties.

(** ** Economic guarantees of a sponsored swap *)

Section EconomicGuaranteeProperties.

Import FeeCalculator SwapOrchestrator SponsoredExamples.
Local Open Scope Q_scope.

Context `{TransactionBuilder.SolanaCodec}.

Lemma calculateMinimumFee_inv (cache cache' : PriceCache) (now : Z)
    (reply : AccountInfoReply) (costs : CostBreakdown) (vb : Q) (fees : MinimumFee) :
  calculateMinimumFee cache now reply costs vb = (cache', Ok fees) ->
  exists p, getSolPrice cache now reply = (cache', Ok p) /\
            fees = minimumFeeAt p costs vb.
Proof.
  unfold calculateMinimumFee.
  destruct (getSolPrice cache now reply) as [c r].
  destruct r as [p|err]; cbn [mbind result_bind]; [| discriminate].
  intros [= <- <-]. eauto.
Qed.

Lemma calculateMinimumFee_again (cache cache' : PriceCache) (now : Z)
    (reply : AccountInfoReply) (costs costs' : CostBreakdown) (vb vb' : Q)
    (fees : MinimumFee) :
  calculateMinimumFee cache now reply costs vb = (cache', Ok fees) ->
  exists p, fees = minimumFeeAt p costs vb /\
            getCachedSolPrice cache' = Ok p /\
            calculateMinimumFee cache' now reply costs' vb'
              = (cache', Ok (minimumFeeAt p costs' vb')).
Proof.
  intros E. apply calculateMinimumFee_inv in E as (p & E & ->).
  exists p. split; [reflexivity |].
  destruct (getSolPrice_caches _ _ _ _ _ E) as (e & He & Hp & _).
  split; [unfold getCachedSolPrice; now rewrite He, Hp |].
  unfold calculateMinimumFee. now rewrite (getSolPrice_again _ _ _ _ _ E).
Qed.

(** What an empty list of violations stands for. *)
Lemma validateEconomicGuarantees_valid (cfg : Config) (cache cache' : PriceCache)
    (now : Z) (reply : AccountInfoReply) (quote : BridgeQuote) (userFee : UserFee)
    (costs : CostBreakdown) :
  validateEconomicGuarantees cfg cache now reply quote userFee costs = (cache', Ok []) ->
  validateFeeCoverage cfg cache userFee costs = true /\
  (now <= validUntil quote)%Z /\
  totalSponsorCost costs / 1000000000 <= 1 # 10.
Proof.
  unfold validateEconomicGuarantees.
  destruct (calculateMinimumFee cache now reply costs (FEE_VOLATILITY_BUFFER cfg))
    as [cache1 [minFees|err]]; [| discriminate].
  destruct (match fee_token userFee with USDC => _ | SOL => _ end) as [cache2 [a|err]];
    cbn [mbind result_bind]; [| discriminate].
  destruct (validateFeeCoverage cfg cache userFee costs); [| discriminate].
  destruct (Z.ltb_spec (validUntil quote) now); [discriminate |].
  destruct (negb (Qle_bool (feeInUsdc minFees) a)); [discriminate |].
  destruct (Qle_bool (totalSponsorCost costs / 1000000000) (1 # 10)) eqn:Hcap;
    [| discriminate].
  intros _. apply Qle_bool_iff in Hcap. auto.
Qed.




(** X6. The coverage check reads the cached price before the validation
    refreshes it: on a calculator that has no cached SOL/USD price,
    [validateEconomicGuarantees] never reports a valid result, whatever the
    fee and whatever the oracle answers; when it returns, the violations
    include the uncovered fee. *)
Theorem validateEconomicGuarantees_without_cached_price (cfg : Config)
    (cache cache' : PriceCache) (now : Z) (reply : AccountInfoReply)
    (quote : BridgeQuote) (userFee : UserFee) (costs : CostBreakdown)
    (violations : list string) :
  cache !! SOL_USD = None ->
  validateEconomicGuarantees cfg cache now reply quote userFee costs
    = (cache', Ok violations) ->
  "User fee does not cover sponsor costs"%string ∈ violations.
Proof.
  intros Hnone. unfold validateEconomicGuarantees.
  assert (Hcov : validateFeeCoverage cfg cache userFee costs = false).
  { unfold validateFeeCoverage, getCachedSolPrice. now rewrite Hnone. }
  rewrite Hcov.
  destruct (calculateMinimumFee cache now reply costs (FEE_VOLATILITY_BUFFER cfg))
    as [cache1 [minFees|err]]; [| discriminate].
  destruct (match fee_token userFee with USDC => _ | SOL => _ end) as [cache2 [a|err]];
    cbn [mbind result_bind]; [| discriminate].
  intros [= _ <-]. apply elem_of_cons. now left.
Qed.

Lemma validateEconomicGuarantees_without_cached_price_witness :
  "User fee does not cover sponsor costs"%string ∈
    ["User fee does not cover sponsor costs"%string].
Proof.
  apply (validateEconomicGuarantees_without_cached_price defaultConfig ∅
           (fst (getSolPrice ∅ exampleNow exampleReply)) exampleNow exampleReply
           sponsoredQuote {| fee_token := USDC; fee_amount := 1000; valueUSD := 1000 |}
           exampleCosts).
  - reflexivity.
  - vm_compute; reflexivity.
Defined.

(** In USDC the validation consults the oracle once more, for the
    minimum fee. *)
Lemma validateEconomicGuarantees_cache (cfg : Config) (cache : PriceCache)
    (now : Z) (reply : AccountInfoReply) (quote : BridgeQuote) (userFee : UserFee)
    (costs : CostBreakdown) :
  fee_token userFee = USDC ->
  fst (validateEconomicGuarantees cfg cache now reply quote userFee costs)
    = fst (calculateMinimumFee cache now reply costs (FEE_VOLATILITY_BUFFER cfg)).
Proof.
  intros Htok. unfold validateEconomicGuarantees. rewrite Htok.
  destruct (calculateMinimumFee cache now reply costs (FEE_VOLATILITY_BUFFER cfg))
    as [cache1 [minFees|err]]; reflexivity.
Qed.

(** What the sponsored branch has established when it returns. *)
Lemma prepareSponsored_Ok (cfg : Config) (sponsor : string) (env : PrepareEnv)
    (cache cache' : PriceCache) (quote : BridgeQuote) (costs finalCosts : CostBreakdown)
    (completeTx : Buffer.bytes) (userFee : UserFee) :
  prepareSponsored cfg sponsor env cache quote costs
    = (cache', Ok (completeTx, userFee, finalCosts)) ->
  finalCosts = adjustCostsForSponsoredMode costs
                 (if String.eqb (provider quote) "debridge"
                  then DEBRIDGE_ORDER_RENT_LAMPORTS else 0) /\
  (exists p, getCachedSolPrice cache' = Ok p /\
             userFee = usdcFee (minimumFeeAt p finalCosts (FEE_VOLATILITY_BUFFER cfg)) /\
             totalSponsorCost finalCosts / LAMPORTS_PER_SOL * p
               * (1 + FEE_VOLATILITY_BUFFER cfg) <= valueUSD userFee) /\
  (p_now env <= validUntil quote)%Z /\
  totalSponsorCost finalCosts / 1000000000 <= 1 # 10 /\
  p_withFeeTransfer env = Ok completeTx /\
  TransactionBuilder.isValid
    (TransactionBuilder.validateNoFundLeak completeTx (Some sponsor)) = true.
Proof.
  unfold prepareSponsored.
  set (final := adjustCostsForSponsoredMode costs _).
  destruct (calculateMinimumFee cache (p_now env) (p_oracle env) final
              (FEE_VOLATILITY_BUFFER cfg)) as [cache1 [minFees|err]] eqn:Emin;
    [| discriminate].
  destruct (calculateMinimumFee_again _ _ _ _ final final _ (FEE_VOLATILITY_BUFFER cfg) _ Emin)
    as (p & -> & Hcached & Eagain).
  fold (usdcFee (minimumFeeAt p final (FEE_VOLATILITY_BUFFER cfg))).
  set (fee := usdcFee (minimumFeeAt p final (FEE_VOLATILITY_BUFFER cfg))).
  pose proof (validateEconomicGuarantees_cache cfg cache1 (p_now env) (p_oracle env)
                quote fee final eq_refl) as Hcache.
  rewrite Eagain in Hcache. cbn [fst] in Hcache.
  destruct (validateEconomicGuarantees cfg cache1 (p_now env) (p_oracle env) quote fee
              final) as [cache2 guarantees] eqn:Eg.
  cbn [fst] in Hcache. subst cache2.
  destruct guarantees as [violations|err]; cbn [mbind result_bind]; [| discriminate].
  destruct violations as [|v vs]; [| discriminate].
  apply validateEconomicGuarantees_valid in Eg as (Hcov & Hlive & Hcap).
  destruct (p_withFeeTransfer env) as [tx|err]; cbn [mbind result_bind];
    [| discriminate].
  destruct (TransactionBuilder.isValid
              (TransactionBuilder.validateNoFundLeak tx (Some sponsor))) eqn:Hv;
    cbn [negb]; [| discriminate].
  intros [= <- <- <- <-]. split; [reflexivity |]. split; [| auto].
  exists p. split; [exact Hcached |]. split; [reflexivity |].
  unfold validateFeeCoverage in Hcov. rewrite Hcached in Hcov.
  now apply Qle_bool_iff in Hcov.
Qed.

(** X7. A sponsored swap is handed to the user only after every guard has
    passed: when [prepareSwap] returns in USDC mode, the fee is the minimum
    USDC fee at the oracle price [p] of this preparation and covers the
    sponsor cost with the volatility buffer at that price, the quote has
    not expired, the sponsor cost is billed for two signatures and is at
    most 0.1 SOL, and the transaction returned has passed
    [validateNoFundLeak] for the sponsor. *)
Theorem prepareSwap_sponsored_guarantees (cfg : Config) (sponsor : string)
    (env : PrepareEnv) (st st' : State) (quote : BridgeQuote) (userWallet : string)
    (prepared : PreparedSwap) :
  prepareSwap cfg sponsor env st quote userWallet USDC = (st', Ok prepared) ->
  (exists p,
      ps_userFee prepared
        = usdcFee (minimumFeeAt p (ps_sponsorCosts prepared)
                     (FEE_VOLATILITY_BUFFER cfg)) /\
      totalSponsorCost (ps_sponsorCosts prepared) / LAMPORTS_PER_SOL * p
        * (1 + FEE_VOLATILITY_BUFFER cfg) <= valueUSD (ps_userFee prepared)) /\
  (p_now env <= validUntil quote)%Z /\
  solanaGasFee (ps_sponsorCosts prepared) == 2 * SOLANA_BASE_FEE_LAMPORTS /\
  totalSponsorCost (ps_sponsorCosts prepared) <= 100000000 /\
  TransactionBuilder.isValid
    (TransactionBuilder.validateNoFundLeak (ps_transaction prepared) (Some sponsor))
    = true.
Proof.
  unfold prepareSwap.
  destruct (prepareInputs cfg env quote) as [[[reqParams costs] built]|e];
    [| discriminate].
  destruct (prepareSponsored cfg sponsor env
              (priceCache (cleanupExpiredPendingSwaps (p_now env) st)) quote costs)
    as [cache1 built4] eqn:Esp.
  destruct built4 as [[[completeTx userFee] finalCosts]|e]; [| discriminate].
  destruct (negb _ && _); [discriminate |].
  intros [= <- <-]. cbn.
  apply prepareSponsored_Ok in Esp
    as (Hfinal & (p & _ & Hfee & Hcov) & Hlive & Hcap & _ & Hvalid).
  split; [exists p; auto |]. repeat split; try assumption.
  - rewrite Hfinal. cbn. unfold SOLANA_BASE_FEE_LAMPORTS. reflexivity.
  - set (c := totalSponsorCost finalCosts) in *. clearbody c.
    assert (Ec : c / 1000000000 * 1000000000 == c) by field. lra.
Qed.


End EconomicGuaranteeProperties.

Section EconomicGuaranteeExamples.

Import FeeCalculator SwapOrchestrator SponsoredExamples WireCodec.
Local Open Scope Q_scope.

Lemma prepareSwap_sponsored_guarantees_witness :
  (exists p,
      {| fee_token := USDC; fee_amount := 3108450 # 1000000;
         valueUSD := 3108450 # 1000000 |}
        = usdcFee (minimumFeeAt p
                     (adjustCostsForSponsoredMode exampleCosts
                        DEBRIDGE_ORDER_RENT_LAMPORTS) (15 # 100)) /\
      totalSponsorCost
        (adjustCostsForSponsoredMode exampleCosts DEBRIDGE_ORDER_RENT_LAMPORTS)
        / LAMPORTS_PER_SOL * p * (1 + (15 # 100)) <= 3108450 # 1000000) /\
  (exampleNow <= validUntil sponsoredQuote)%Z /\
  solanaGasFee (adjustCostsForSponsoredMode exampleCosts DEBRIDGE_ORDER_RENT_LAMPORTS)
    == 2 * SOLANA_BASE_FEE_LAMPORTS /\
  totalSponsorCost (adjustCostsForSponsoredMode exampleCosts DEBRIDGE_ORDER_RENT_LAMPORTS)
    <= 100000000 /\
  TransactionBuilder.isValid
    (TransactionBuilder.validateNoFundLeak (exampleTx [] newHash) (Some sponsorAddress))
    = true.
Proof.
  apply (prepareSwap_sponsored_guarantees defaultConfig sponsorAddress sponsoredEnv
           exampleState
           (fst (prepareSwap defaultConfig sponsorAddress sponsoredEnv exampleState
                   sponsoredQuote "UserWallet" USDC))
           sponsoredQuote "UserWallet"
           {| ps_quote := sponsoredQuote;
              ps_transaction := exampleTx [] newHash;
              ps_userFee := {| fee_token := USDC; fee_amount := 3108450 # 1000000;
                               valueUSD := 3108450 # 1000000 |};
              ps_sponsorCosts :=
                adjustCostsForSponsoredMode exampleCosts DEBRIDGE_ORDER_RENT_LAMPORTS;
              ps_validUntil := exampleNow + 30000; ps_swapId := "swap-3" |}).
  vm_compute; reflexivity.
Defined.


End EconomicGuaranteeExamples.

(** ** Transaction builder: signatures, size and lookup tables *)

Section TransactionBytesProperties.

Import Buffer TransactionBuilder TransactionBytes.

Lemma indexOf_string_Some (l : list string) (x : string) (i : nat) :
  indexOf_string l x = Some i ->
  l !! i = Some x /\ (i < length l)%nat /\
  forall j, (j < i)%nat -> l !! j <> Some x.
Proof.
  revert i. induction l as [|y l IH]; intros i; cbn; [discriminate |].
  destruct (String.eqb_spec y x) as [-> | Hne].
  - intros [= <-]. repeat split; [cbn; lia | intros j Hj; lia].
  - destruct (indexOf_string l x) as [k|]; cbn; [| discriminate].
    intros [= <-]. destruct (IH k eq_refl) as (Hk & Hlen & Hfirst).
    repeat split; [exact Hk | cbn; lia |].
    intros [|j] Hj; cbn; [congruence | apply Hfirst; lia].
Qed.

Lemma indexOf_string_None (l : list string) (x : string) :
  indexOf_string l x = None <-> x ∉ l.
Proof.
  induction l as [|y l IH]; cbn.
  - split; [intros _; apply not_elem_of_nil | reflexivity].
  - rewrite not_elem_of_cons. destruct (String.eqb_spec y x) as [-> | Hne].
    + split; [discriminate | intros [Hx _]; congruence].
    + destruct (indexOf_string l x) as [k|]; cbn.
      * split; [discriminate |]. intros [_ Hx]. now apply IH in Hx.
      * split; [| reflexivity]. intros _. split; [congruence | now apply IH].
Qed.

Lemma set_at_length (target newBytes out : bytes) (offset : nat) :
  set_at target newBytes offset = Ok out -> length out = length target.
Proof. intros E. now apply set_at_frame in E. Qed.

Context `{SolanaCodec}.

(** X9. [addUserSignature] fails when the user is not among the signers
    of the decoded transaction; otherwise it returns a copy of the same
    length in which the first 64 bytes of the signature stand in the slot
    of the user's first position among the signers, counted from byte 1,
    and every other byte is as before.  In particular nothing is written
    at or after byte [1 + 64 * numSigs], where the message starts. *)
Theorem addUserSignature_frame (serializedTx userSignature : bytes)
    (userAddress : string) (decoded : Transaction) :
  decodeTransaction serializedTx = Ok decoded ->
  (userAddress ∉ (fst <$> signatures decoded) ->
   addUserSignature serializedTx userSignature userAddress
     = Throw (JsError "User public key not found in transaction")) /\
  (forall out,
      addUserSignature serializedTx userSignature userAddress = Ok out ->
      exists userIndex,
        (fst <$> signatures decoded) !! userIndex = Some userAddress /\
        (forall j, (j < userIndex)%nat ->
                   (fst <$> signatures decoded) !! j <> Some userAddress) /\
        length out = length serializedTx /\
        slice out (1 + userIndex * 64)
          (1 + userIndex * 64 + Nat.min 64 (length userSignature))
          = take 64 userSignature /\
        (forall i, (i < 1 + userIndex * 64 \/
                    1 + userIndex * 64 + Nat.min 64 (length userSignature) <= i)%nat ->
                   out !! i = serializedTx !! i) /\
        drop (1 + 64 * length (signatures decoded)) out
          = drop (1 + 64 * length (signatures decoded)) serializedTx).
Proof.
  intros Hdec. unfold addUserSignature. rewrite Hdec.
  cbn [mbind result_bind]. cbv zeta. split.
  - intros Hnot. apply indexOf_string_None in Hnot. now rewrite Hnot.
  - intros out.
    destruct (indexOf_string (fst <$> signatures decoded) userAddress)
      as [userIndex|] eqn:Ei; [| discriminate].
    intros Eset. apply indexOf_string_Some in Ei as (Hi & Hlen & Hfirst).
    apply set_at_frame in Eset as (Hfit & Hout & Hwin & Hrest).
    unfold slice in Hwin, Hrest, Hfit. rewrite Nat.sub_0_r, drop_0 in *.
    rewrite length_take in *.
    exists userIndex. repeat split; try assumption.
    apply list_eq. intros i. rewrite !lookup_drop. apply Hrest. right.
    rewrite length_fmap in Hlen. lia.
Qed.

(** X10. Neither byte-level rewrite changes the size of a transaction:
    what [replaceBlockhash] and [addUserSignature] return has the length of
    their input, so [validateTransactionSize] gives the same verdict before
    and after; and [replaceBlockhash] leaves the signature section, the
    bytes before the message, as it is. *)
Theorem byte_rewrites_keep_size (txBytes out : bytes) :
  (forall recent,
      replaceBlockhash recent txBytes = Ok out ->
      validateTransactionSize out = validateTransactionSize txBytes /\
      forall decoded,
        decodeTransaction txBytes = Ok decoded ->
        let numSigs := length (signatures decoded) in
        take (compactLen numSigs + numSigs * 64) out
          = take (compactLen numSigs + numSigs * 64) txBytes) /\
  (forall userSignature userAddress,
      addUserSignature txBytes userSignature userAddress = Ok out ->
      validateTransactionSize out = validateTransactionSize txBytes).
Proof.
  split.
  - intros recent. unfold replaceBlockhash.
    destruct recent as [blockhash|e]; cbn [mbind result_bind]; [| discriminate].
    unfold decodeCompiled.
    destruct (decodeTransaction txBytes) as [decoded|e] eqn:Hdec;
      cbn [mbind result_bind]; [| discriminate].
    destruct (decodeMessage (messageBytes decoded)) as [compiledMsg|e];
      cbn [mbind result_bind]; [| discriminate].
    destruct (String.eqb (lifetimeToken compiledMsg) blockhash).
    { intros [= <-]. split; [reflexivity |]. now intros d [= <-]. }
    destruct (bs58_decode (lifetimeToken compiledMsg)) as [oldBytes|e];
      cbn [mbind result_bind]; [| discriminate].
    destruct (bs58_decode blockhash) as [newBytes|e];
      cbn [mbind result_bind]; [| discriminate].
    cbv zeta. destruct (negb _); [discriminate |].
    intros Eset. apply set_at_frame in Eset as (_ & Hlen & _ & Hrest).
    split; [unfold validateTransactionSize; now rewrite Hlen |].
    intros d [= <-]. set (numSigs := length (signatures decoded)).
    apply list_eq. intros i.
    destruct (Nat.lt_ge_cases i (compactLen numSigs + numSigs * 64)) as [Hi | Hi].
    + rewrite !lookup_take_lt by exact Hi. apply Hrest. left.
      unfold blockhashOffset. fold numSigs. lia.
    + rewrite !lookup_take_ge by exact Hi. reflexivity.
  - intros userSignature userAddress. unfold addUserSignature.
    destruct (decodeTransaction txBytes) as [decoded|e];
      cbn [mbind result_bind]; [| discriminate].
    destruct (indexOf_string _ _); [| discriminate].
    intros Eset. apply set_at_length in Eset.
    unfold validateTransactionSize. now rewrite Eset.
Qed.

Lemma tableAddresses_from_spec (fuel i : nat) (data : bytes) :
  (length data <= i + 32 * fuel)%nat ->
  let n := ((length data - i) / 32)%nat in
  length (tableAddresses_from fuel i data) = n /\
  Forall (fun a => length a = 32%nat) (tableAddresses_from fuel i data) /\
  concat (tableAddresses_from fuel i data) = take (32 * n) (drop i data).
Proof.
  revert i. induction fuel as [|fuel IH]; intros i Hfuel n.
  - assert (Hn : n = 0%nat).
    { unfold n. apply Nat.div_small. lia. }
    rewrite Hn. cbn. repeat split; constructor.
  - cbn [tableAddresses_from].
    destruct (Nat.leb_spec (i + 32) (length data)) as [Hfit | Hshort].
    + destruct (IH (i + 32)%nat) as (Hlen & Hall & Hcat); [lia |].
      assert (Hn : n = S ((length data - (i + 32)) / 32)).
      { unfold n. replace (length data - i)%nat
          with (1 * 32 + (length data - (i + 32)))%nat by lia.
        rewrite Nat.div_add_l by lia. lia. }
      cbn [length concat]. rewrite Hlen, Hcat, Hn. split; [reflexivity |]. split.
      * constructor; [| exact Hall]. rewrite length_slice. lia.
      * unfold slice. replace (i + 32 - i)%nat with 32%nat by lia.
        replace (32 * S ((length data - (i + 32)) / 32))%nat
          with (32 + 32 * ((length data - (i + 32)) / 32))%nat by lia.
        rewrite <- take_take_drop. now rewrite drop_drop.
    + assert (Hn : n = 0%nat).
      { unfold n. apply Nat.div_small. lia. }
      rewrite Hn. cbn. repeat split; constructor.
Qed.

(** X11. The addresses read from a lookup-table account are the payload
    after the 56-byte header cut into 32-byte slots, in order: there are
    [(length - 56) / 32] of them, each of 32 bytes, and together they are
    the first bytes of the payload; bytes that do not fill a slot, and any
    account not longer than its header, give no address. *)
Theorem tableAddresses_slots (data : bytes) :
  let n := ((length data - ALT_HEADER_SIZE) / 32)%nat in
  length (tableAddresses data) = n /\
  Forall (fun a => length a = 32%nat) (tableAddresses data) /\
  concat (tableAddresses data) = take (32 * n) (drop ALT_HEADER_SIZE data).
Proof.
  apply tableAddresses_from_spec. lia.
Qed.

(** A table whose account is missing is left out; the others are keyed by
    their address. *)
Example resolveAddressLookupTables_example :
  resolveAddressLookupTables None = ∅ /\
  resolveAddressLookupTables (Some [("TableA", None); ("TableB", Some exampleTable)])
    = {[ "TableB" := [WireCodec.userKey; WireCodec.bridgeKey] ]} /\
  tableAddresses (replicate 56 0 ++ replicate 31 9) = [].
Proof. repeat split; vm_compute; reflexivity. Qed.

End TransactionBytesProperties.

Section TransactionBytesExamples.

Import Buffer TransactionBuilder TransactionBytes WireCodec.

Lemma addUserSignature_frame_witness :
  addUserSignature (exampleTx [] oldHash) exampleSignature (bs58_encode bridgeKey)
    = Throw (JsError "User public key not found in transaction") /\
  (forall out,
      addUserSignature (exampleTx [] oldHash) exampleSignature userAddress = Ok out ->
      exists userIndex,
        (fst <$> signatures (fst (decodedExample (exampleTx [] oldHash)))) !! userIndex
          = Some userAddress /\
        (forall j, (j < userIndex)%nat ->
           (fst <$> signatures (fst (decodedExample (exampleTx [] oldHash)))) !! j
             <> Some userAddress) /\
        length out = length (exampleTx [] oldHash) /\
        slice out (1 + userIndex * 64)
          (1 + userIndex * 64 + Nat.min 64 (length exampleSignature))
          = take 64 exampleSignature /\
        (forall i, (i < 1 + userIndex * 64 \/
                    1 + userIndex * 64 + Nat.min 64 (length exampleSignature) <= i)%nat ->
                   out !! i = exampleTx [] oldHash !! i) /\
        drop (1 + 64 * length (signatures (fst (decodedExample (exampleTx [] oldHash)))))
             out
          = drop (1 + 64 * length (signatures (fst (decodedExample (exampleTx [] oldHash)))))
              (exampleTx [] oldHash)).
Proof.
  split.
  - apply (addUserSignature_frame (exampleTx [] oldHash) exampleSignature
             (bs58_encode bridgeKey) (fst (decodedExample (exampleTx [] oldHash))));
      [vm_compute; reflexivity |].
    apply (bool_decide_unpack _). vm_compute. reflexivity.
  - apply (addUserSignature_frame (exampleTx [] oldHash) exampleSignature userAddress).
    vm_compute; reflexivity.
Defined.

(** The user's signature fills the second slot of the example
    transaction; a stranger's is refused. *)
Example addUserSignature_example :
  addUserSignature (exampleTx [] oldHash) exampleSignature userAddress
    = Ok ([2] ++ replicate 64 1 ++ exampleSignature
          ++ exampleMessage [] oldHash ([2] ++ transferIx ++ bridgeIx)) /\
  addUserSignature (exampleTx [] oldHash) exampleSignature (bs58_encode bridgeKey)
    = Throw (JsError "User public key not found in transaction").
Proof. split; vm_compute; reflexivity. Qed.

Lemma byte_rewrites_keep_size_witness :
  validateTransactionSize (exampleTx [] newHash)
    = validateTransactionSize (exampleTx [] oldHash) /\
  take (compactLen 2 + 2 * 64) (exampleTx [] newHash)
    = take (compactLen 2 + 2 * 64) (exampleTx [] oldHash).
Proof.
  destruct (byte_rewrites_keep_size (exampleTx [] oldHash) (exampleTx [] newHash))
    as [Hblock _].
  destruct (Hblock (Ok (bs58_encode newHash))) as [Hsize Hsigs];
    [vm_compute; reflexivity |].
  split; [exact Hsize |].
  apply (Hsigs (fst (decodedExample (exampleTx [] oldHash)))).
  vm_compute; reflexivity.
Defined.

End TransactionBytesExamples.

(** ** Solana service *)

Section SolanaServiceProperties.

Import Buffer SolanaService.

(** *** The median priority fee *)

Lemma ascending_by_key (a b : Z) :
  (ascending a b == ArraySort.by_key_desc (fun x => - inject_Z x) a b)%Q.
Proof. unfold ascending, ArraySort.by_key_desc. ring. Qed.

Lemma sort_ascending (l : list Z) (i j : nat) (x y : Z) :
  (i <= j)%nat ->
  ArraySort.sort ascending l !! i = Some x ->
  ArraySort.sort ascending l !! j = Some y ->
  x <= y.
Proof.
  intros Hij Hi Hj.
  destruct (Nat.eq_dec i j) as [-> | Hne]; [rewrite Hi in Hj; injection Hj; lia |].
  rewrite (sort_ext ascending (ArraySort.by_key_desc (fun x => - inject_Z x)%Q))
    in Hi, Hj by (intros; apply ascending_by_key).
  pose proof (sort_descending (fun x => - inject_Z x)%Q l i j x y) as Hd.
  cbn beta in Hd. specialize (Hd ltac:(lia) Hi Hj).
  apply Qopp_le_compat in Hd. rewrite !Qopp_involutive in Hd.
  now rewrite Zle_Qle.
Qed.

Lemma length_filter_all {A} (p : A -> bool) (l : list A) :
  Forall (fun x => p x = true) l -> List.filter p l = l.
Proof.
  induction 1 as [|x l Hx _ IH]; [reflexivity |]. cbn. now rewrite Hx, IH.
Qed.

Lemma length_filter_perm {A} (p : A -> bool) (l l' : list A) :
  l ≡ₚ l' -> length (List.filter p l) = length (List.filter p l').
Proof.
  induction 1 as [|x l l' _ IH|x y l|l l' l'' _ IH1 _ IH2]; cbn.
  - reflexivity.
  - destruct (p x); cbn; lia.
  - destruct (p x), (p y); reflexivity.
  - lia.
Qed.

Lemma length_filter_app {A} (p : A -> bool) (l l' : list A) :
  length (List.filter p (l ++ l'))
  = (length (List.filter p l) + length (List.filter p l'))%nat.
Proof. now rewrite List.filter_app, length_app. Qed.

(** X12. [getRecentPriorityFee] is the upper median of the positive fees:
    it is 0 exactly when no recent fee is positive; otherwise it is one of
    the positive fees reported, more than half of the positive fees are at
    most it, and at least half of them are at least it. *)
Theorem getRecentPriorityFee_median (entries : list Z) :
  let positive := List.filter (fun f => 0 <? f) entries in
  let m := getRecentPriorityFee entries in
  (positive = [] -> m = 0) /\
  (positive <> [] ->
   0 < m /\ m ∈ entries /\
   (length positive < 2 * length (List.filter (fun f => (f <=? m)%Z) positive))%nat /\
   (length positive <= 2 * length (List.filter (fun f => (m <=? f)%Z) positive))%nat).
Proof.
  intros positive m. unfold m, getRecentPriorityFee. fold positive.
  set (fees := ArraySort.sort ascending positive).
  assert (Hperm : fees ≡ₚ positive) by apply sort_perm.
  assert (Hlen : length fees = length positive) by now rewrite Hperm.
  split.
  - intros E. rewrite Hlen, E. reflexivity.
  - intros Hne. assert (Hpos : (0 < length fees)%nat).
    { rewrite Hlen. destruct positive; [congruence | cbn; lia]. }
    destruct (Nat.eqb_spec (length fees) 0) as [|_]; [lia |].
    set (k := (length fees / 2)%nat).
    assert (Hk : (k < length fees)%nat) by (apply Nat.div_lt; lia).
    destruct (lookup_lt_is_Some_2 fees k Hk) as [v Hv]. rewrite Hv. cbn.
    assert (Hin : v ∈ positive).
    { rewrite <- Hperm. eapply list_elem_of_lookup_2, Hv. }
    assert (Hvpos : 0 < v).
    { unfold positive in Hin. apply list_elem_of_In, List.filter_In in Hin.
      destruct Hin as [_ Hin]. now apply Z.ltb_lt in Hin. }
    split; [exact Hvpos |]. split.
    { unfold positive in Hin. apply list_elem_of_In, List.filter_In in Hin.
      apply list_elem_of_In. tauto. }
    rewrite <- !(length_filter_perm _ fees positive Hperm), <- Hlen.
    pose proof (Nat.div_mod_eq (length fees) 2) as Hdiv.
    pose proof (Nat.mod_upper_bound (length fees) 2 ltac:(lia)) as Hmod.
    fold k in Hdiv.
    assert (Hlow : (S k <= length (List.filter (fun f => (f <=? v)%Z) fees))%nat).
    { replace (List.filter (fun f => (f <=? v)%Z) fees)
        with (List.filter (fun f => (f <=? v)%Z) (take (S k) fees ++ drop (S k) fees))
        by now rewrite take_drop.
      assert (Hall : Forall (fun x => (x <=? v) = true) (take (S k) fees)).
      { apply Forall_lookup. intros i x Hx. apply Z.leb_le.
        apply lookup_take_Some in Hx as [Hx Hi].
        apply (sort_ascending positive i k); [lia | exact Hx | exact Hv]. }
      rewrite length_filter_app,
        (length_filter_all (fun f => (f <=? v)%Z) _ Hall), length_take. lia. }
    assert (Hhigh : (length fees - k
                     <= length (List.filter (fun f => (v <=? f)%Z) fees))%nat).
    { replace (List.filter (fun f => (v <=? f)%Z) fees)
        with (List.filter (fun f => (v <=? f)%Z) (take k fees ++ drop k fees))
        by now rewrite take_drop.
      assert (Hall : Forall (fun x => (v <=? x) = true) (drop k fees)).
      { apply Forall_lookup. intros i x Hx. apply Z.leb_le.
        rewrite lookup_drop in Hx.
        apply (sort_ascending positive k (k + i)); [lia | exact Hv | exact Hx]. }
      rewrite length_filter_app,
        (length_filter_all (fun f => (v <=? f)%Z) _ Hall), length_drop. lia. }
    split; lia.
Qed.

Lemma getRecentPriorityFee_median_witness :
  getRecentPriorityFee [0; 0; 0] = 0 /\
  0 < getRecentPriorityFee [0; 7000; 100; 0; 2500; 900] /\
  getRecentPriorityFee [0; 7000; 100; 0; 2500; 900] ∈ [0; 7000; 100; 0; 2500; 900].
Proof.
  pose proof (getRecentPriorityFee_median [0; 0; 0]) as [Hnone _].
  pose proof (getRecentPriorityFee_median [0; 7000; 100; 0; 2500; 900]) as [_ Hsome].
  split; [apply Hnone; reflexivity |].
  destruct Hsome as (Hpos & Hin & _); [vm_compute; discriminate |]. auto.
Defined.

(** Four positive fees: the upper of the two middle ones. *)
Example getRecentPriorityFee_example :
  getRecentPriorityFee [0; 7000; 100; 0; 2500; 900] = 2500 /\
  getRecentPriorityFee [] = 0 /\ getRecentPriorityFee [42] = 42.
Proof. repeat split; vm_compute; reflexivity. Qed.

(** *** Balance validation *)

Lemma getTransferFee_nonneg (tokenInfo : TokenInfo) (amount : Z) :
  0 <= amount ->
  (forall cfg, transferFeeConfig tokenInfo = Some cfg ->
               0 <= transferFeeBasisPoints cfg /\ 0 <= maximumFee cfg) ->
  0 <= getTransferFee tokenInfo amount.
Proof.
  intros Ha Hcfg. unfold getTransferFee.
  destruct (type tokenInfo); [lia |].
  destruct (transferFeeConfig tokenInfo) as [cfg|]; [| lia].
  destruct (Hcfg cfg eq_refl) as [Hb Hm].
  destruct (Z.ltb_spec (maximumFee cfg) (amount * transferFeeBasisPoints cfg ÷ 10000));
    [exact Hm |].
  apply Z.quot_pos; lia.
Qed.

(** X13. The transfer fee of a Token-2022 mint is the truncated
    [amount * basisPoints / 10000] capped at the maximum fee of the
    configuration: it never exceeds the cap, ten thousand times the fee
    never exceeds [amount * basisPoints], a larger amount never pays less,
    and a mint of the classic token program, or one without the extension,
    pays nothing. *)
Theorem getTransferFee_capped (tokenInfo : TokenInfo) (amount : Z) :
  0 <= amount ->
  (forall cfg,
      type tokenInfo = token_2022 -> transferFeeConfig tokenInfo = Some cfg ->
      0 <= transferFeeBasisPoints cfg -> 0 <= maximumFee cfg ->
      0 <= getTransferFee tokenInfo amount <= maximumFee cfg /\
      10000 * getTransferFee tokenInfo amount <= amount * transferFeeBasisPoints cfg /\
      (getTransferFee tokenInfo amount < maximumFee cfg ->
       amount * transferFeeBasisPoints cfg
         < 10000 * (getTransferFee tokenInfo amount + 1)) /\
      forall larger, amount <= larger ->
        getTransferFee tokenInfo amount <= getTransferFee tokenInfo larger) /\
  (type tokenInfo = spl \/ transferFeeConfig tokenInfo = None ->
   getTransferFee tokenInfo amount = 0).
Proof.
  intros Ha. split.
  - intros cfg Hty Hcfg Hb Hm. unfold getTransferFee. rewrite Hty, Hcfg.
    assert (Hq : forall a, 0 <= a ->
               a * transferFeeBasisPoints cfg ÷ 10000
               = a * transferFeeBasisPoints cfg / 10000).
    { intros a Ha0. apply Z.quot_div_nonneg; lia. }
    rewrite (Hq amount Ha).
    set (q := amount * transferFeeBasisPoints cfg / 10000).
    assert (Hq0 : 0 <= q) by (apply Z.div_pos; lia).
    assert (Hlo : 10000 * q <= amount * transferFeeBasisPoints cfg)
      by (apply Z.mul_div_le; lia).
    assert (Hhi : amount * transferFeeBasisPoints cfg < 10000 * (q + 1)).
    { pose proof (Z.mul_succ_div_gt (amount * transferFeeBasisPoints cfg) 10000).
      unfold q. lia. }
    repeat split.
    + destruct (Z.ltb_spec (maximumFee cfg) q); lia.
    + destruct (Z.ltb_spec (maximumFee cfg) q); lia.
    + destruct (Z.ltb_spec (maximumFee cfg) q); lia.
    + destruct (Z.ltb_spec (maximumFee cfg) q); lia.
    + intros larger Hl. rewrite (Hq larger) by lia.
      assert (Hmono : q <= larger * transferFeeBasisPoints cfg / 10000).
      { apply Z.div_le_mono; [lia |]. apply Z.mul_le_mono_nonneg_r; lia. }
      destruct (Z.ltb_spec (maximumFee cfg) q),
               (Z.ltb_spec (maximumFee cfg)
                  (larger * transferFeeBasisPoints cfg / 10000)); lia.
  - intros [Hspl | Hnone]; unfold getTransferFee.
    + now rewrite Hspl.
    + rewrite Hnone. now destruct (type tokenInfo).
Qed.

Lemma getTransferFee_capped_witness :
  0 <= getTransferFee exampleTokenInfo 2000000 <= 5000 /\
  10000 * getTransferFee exampleTokenInfo 2000000 <= 2000000 * 50 /\
  (getTransferFee exampleTokenInfo 2000000 < 5000 ->
   2000000 * 50 < 10000 * (getTransferFee exampleTokenInfo 2000000 + 1)) /\
  forall larger, 2000000 <= larger ->
    getTransferFee exampleTokenInfo 2000000 <= getTransferFee exampleTokenInfo larger.
Proof.
  destruct (getTransferFee_capped exampleTokenInfo 2000000) as [Hcap _]; [lia |].
  apply (Hcap {| transferFeeBasisPoints := 50; maximumFee := 5000 |});
    [reflexivity | vm_compute; reflexivity | cbn; lia | cbn; lia].
Defined.

(** X14. Whenever [validateBalance] answers, the deficit is what is
    missing and nothing else: it is [max 0 (requiredBalance -
    currentBalance)]; a sufficient balance is at least the required one;
    the required balance is the amount asked for plus the capped transfer
    fee, hence never below the amount.  Whatever fails on the way is
    rethrown as a plain error whose message is the name of the operation
    followed by the cause as a string. *)
Theorem validateBalance_deficit (env : BalanceEnv) (tokenAddress : string)
    (requiredAmount : Z) :
  0 <= requiredAmount ->
  (forall info cfg, b_tokenInfoAgain env = Ok info ->
                    transferFeeConfig info = Some cfg ->
                    0 <= transferFeeBasisPoints cfg /\ 0 <= maximumFee cfg) ->
  (forall check,
      validateBalance env tokenAddress requiredAmount = Ok check ->
      deficit check = Z.max 0 (requiredBalance check - currentBalance check) /\
      (sufficient check = true -> requiredBalance check <= currentBalance check) /\
      requiredAmount <= requiredBalance check) /\
  (forall e,
      validateBalance env tokenAddress requiredAmount = Throw e ->
      exists cause,
        validateBalance_try env tokenAddress requiredAmount = Throw cause /\
        e = JsError ("Failed to validate balance: " +:+ error_toString cause)).
Proof.
  intros Hreq Hcfg. split.
  - intros check. unfold validateBalance.
    destruct (validateBalance_try env tokenAddress requiredAmount) as [c|e] eqn:E;
      [| discriminate].
    intros [= <-]. unfold validateBalance_try in E.
    destruct (String.eqb tokenAddress SOL_MINT).
    { destruct (b_solBalance env) as [solBalance|e]; cbn in E; [| discriminate].
      injection E as <-. cbn.
      destruct (Z.leb_spec requiredAmount solBalance);
        repeat split; try lia; discriminate. }
    destruct (b_tokenInfo env) as [tokenInfo|e]; cbn [mbind result_bind] in E;
      [| discriminate].
    destruct (b_ata env) as [[ata|]|e]; cbn [mbind result_bind] in E;
      [| injection E as <-; cbn; repeat split; try lia; discriminate
       | discriminate].
    destruct (checkAccountStatus (b_account env)) as [accountStatus|e];
      cbn [mbind result_bind] in E; [| discriminate].
    destruct (negb (account_exists accountStatus));
      [injection E as <-; cbn; repeat split; try lia; discriminate |].
    assert (Hfee : forall effectiveRequired,
      match transferFeeConfig tokenInfo with
      | Some _ =>
          again ← b_tokenInfoAgain env;
          Ok (requiredAmount + getTransferFee again requiredAmount)
      | None => Ok requiredAmount
      end = Ok effectiveRequired -> requiredAmount <= effectiveRequired).
    { intros r. destruct (transferFeeConfig tokenInfo); [| intros [= <-]; lia].
      destruct (b_tokenInfoAgain env) as [again|e] eqn:Eagain; cbn; [| discriminate].
      intros [= <-].
      pose proof (getTransferFee_nonneg again requiredAmount Hreq
                    (fun cfg => Hcfg again cfg eq_refl)). lia. }
    destruct (match transferFeeConfig tokenInfo with Some _ => _ | None => _ end)
      as [effectiveRequired|e]; cbn [mbind result_bind] in E; [| discriminate].
    specialize (Hfee effectiveRequired eq_refl).
    injection E as <-. cbn.
    destruct (Z.leb_spec effectiveRequired (balance accountStatus));
      repeat split; try lia; discriminate.
  - intros e. unfold validateBalance.
    destruct (validateBalance_try env tokenAddress requiredAmount) as [c|cause];
      [discriminate |].
    intros [= <-]. eauto.
Qed.

Lemma validateBalance_deficit_witness :
  (forall check,
      validateBalance exampleBalanceEnv "Mint" 2000000 = Ok check ->
      deficit check = Z.max 0 (requiredBalance check - currentBalance check) /\
      (sufficient check = true -> requiredBalance check <= currentBalance check) /\
      2000000 <= requiredBalance check) /\
  (forall e,
      validateBalance exampleBalanceEnv "Mint" 2000000 = Throw e ->
      exists cause,
        validateBalance_try exampleBalanceEnv "Mint" 2000000 = Throw cause /\
        e = JsError ("Failed to validate balance: " +:+ error_toString cause)).
Proof.
  apply (validateBalance_deficit exampleBalanceEnv "Mint" 2000000); [lia |].
  intros info cfg [= <-]. vm_compute. intros [= <-]. split; discriminate.
Defined.

(** A token wallet that is short by the amount and the transfer fee, a
    wallet without token account, and a node that cannot be reached. *)
Example validateBalance_example :
  validateBalance exampleBalanceEnv "Mint" 2000000
    = Ok {| sufficient := false; currentBalance := 1000000;
            requiredBalance := 2005000; deficit := 1005000; check_decimals := 6 |} /\
  validateBalance exampleBalanceEnv SOL_MINT 2000000
    = Ok {| sufficient := true; currentBalance := 5000000;
            requiredBalance := 2000000; deficit := 0; check_decimals := 9 |} /\
  validateBalance
    {| b_solBalance := Throw (JsError "fetch failed"); b_tokenInfo := Ok exampleTokenInfo;
       b_ata := Ok None; b_account := Ok NoAccount;
       b_tokenInfoAgain := Ok exampleTokenInfo |} SOL_MINT 1
    = Throw (JsError "Failed to validate balance: Error: fetch failed").
Proof. repeat split; vm_compute; reflexivity. Qed.

(** *** The transfer-fee extension *)

Lemma length_le_bytes (n : nat) (z : Z) : length (FeeCalculator.le_bytes n z) = n.
Proof. revert z. induction n as [|n IH]; intros z; cbn; [| rewrite IH]; reflexivity. Qed.

Lemma le_combine_le_bytes (n : nat) (z : Z) :
  le_combine (FeeCalculator.le_bytes n z) = z mod 256 ^ Z.of_nat n.
Proof.
  revert z. induction n as [|n IH]; intros z.
  - cbn. now rewrite Z.mod_1_r.
  - cbn [FeeCalculator.le_bytes le_combine]. rewrite IH.
    rewrite Nat2Z.inj_succ, Z.pow_succ_r by lia.
    rewrite Z.rem_mul_r by lia. lia.
Qed.

(** A read of the bytes [b] that sit between [a] and [c]. *)
Lemma readUIntLE_app (a b c : bytes) (off : Z) (n : nat) :
  off = Z.of_nat (length a) -> n = length b ->
  readUIntLE (a ++ b ++ c) off n = Ok (le_combine b).
Proof.
  intros -> ->. unfold readUIntLE.
  destruct (Z.ltb_spec (Z.of_nat (length a)) 0); [lia |].
  rewrite !length_app.
  destruct (Z.ltb_spec (Z.of_nat (length a + (length b + length c)))
              (Z.of_nat (length a) + Z.of_nat (length b))); [lia |].
  cbn [orb]. rewrite Nat2Z.id, drop_app_length, take_app_length. reflexivity.
Qed.

Lemma readUIntLE_le_bytes (a c : bytes) (off z : Z) (n : nat) :
  off = Z.of_nat (length a) -> 0 <= z < 256 ^ Z.of_nat n ->
  readUIntLE (a ++ FeeCalculator.le_bytes n z ++ c) off n = Ok z.
Proof.
  intros Hoff Hz.
  rewrite (readUIntLE_app a _ c off n Hoff) by now rewrite length_le_bytes.
  rewrite le_combine_le_bytes. now rewrite Z.mod_small.
Qed.

(** An extension of another type is stepped over. *)
Lemma parseTransferFee_skip (fuel : nat) (pre payload rest : bytes) (extType : Z) :
  0 <= extType < 65536 -> extType <> 1 ->
  Z.of_nat (length payload) < 65536 ->
  parseTransferFee_from (S fuel) (Z.of_nat (length pre))
    (pre ++ extension extType payload ++ rest)
  = parseTransferFee_from fuel (Z.of_nat (length (pre ++ extension extType payload)))
      (pre ++ extension extType payload ++ rest).
Proof.
  intros Ht Hne Hlen. cbn [parseTransferFee_from].
  set (data := pre ++ extension extType payload ++ rest).
  assert (Hdata : Z.of_nat (length pre) + 4 + Z.of_nat (length payload)
                  <= Z.of_nat (length data)).
  { unfold data, extension. rewrite !length_app, !length_le_bytes. lia. }
  destruct (Z.leb_spec (Z.of_nat (length pre) + 4) (Z.of_nat (length data))); [| lia].
  assert (Etype : readUIntLE data (Z.of_nat (length pre)) 2 = Ok extType).
  { unfold data, extension. rewrite <- !app_assoc.
    apply readUIntLE_le_bytes; [reflexivity | cbn; lia]. }
  assert (Elen : readUIntLE data (Z.of_nat (length pre) + 2) 2
                 = Ok (Z.of_nat (length payload))).
  { unfold data, extension. rewrite <- !app_assoc.
    rewrite (app_assoc pre).
    apply readUIntLE_le_bytes; [| cbn; lia].
    rewrite length_app, length_le_bytes. lia. }
  rewrite Etype, Elen. cbn [mbind result_bind].
  destruct (Z.eqb_spec extType 1); [contradiction |].
  f_equal. unfold extension. rewrite !length_app, !length_le_bytes. lia.
Qed.

(** The transfer-fee configuration is read from the newer fee. *)
Lemma parseTransferFee_hit (fuel : nat)
    (pre configAuthority withdrawAuthority withheld older rest : bytes)
    (epoch maxFee basisPoints : Z) :
  length configAuthority = 32%nat -> length withdrawAuthority = 32%nat ->
  length withheld = 8%nat ->
  length older = 18%nat ->
  0 <= maxFee < 2 ^ 64 -> 0 <= basisPoints < 65536 ->
  parseTransferFee_from (S fuel) (Z.of_nat (length pre))
    (pre ++ extension 1 (transferFeePayload configAuthority withdrawAuthority withheld
                           older (transferFee epoch maxFee basisPoints))
     ++ rest)
  = Ok (Some {| transferFeeBasisPoints := basisPoints; maximumFee := maxFee |}).
Proof.
  intros Hc Hw Hh Hold Hmax Hbps. cbn [parseTransferFee_from].
  set (payload := transferFeePayload configAuthority withdrawAuthority withheld
                    older (transferFee epoch maxFee basisPoints)).
  set (data := pre ++ extension 1 payload ++ rest).
  assert (Hpay : length payload = 108%nat).
  { unfold payload, transferFeePayload, transferFee.
    rewrite !length_app, !length_le_bytes. lia. }
  assert (Hdata : Z.of_nat (length pre) + 112 <= Z.of_nat (length data)).
  { unfold data, extension. rewrite !length_app, !length_le_bytes, Hpay. lia. }
  destruct (Z.leb_spec (Z.of_nat (length pre) + 4) (Z.of_nat (length data))); [| lia].
  assert (Etype : readUIntLE data (Z.of_nat (length pre)) 2 = Ok 1).
  { unfold data, extension. rewrite <- !app_assoc.
    apply readUIntLE_le_bytes; [reflexivity | cbn; lia]. }
  assert (Elen : readUIntLE data (Z.of_nat (length pre) + 2) 2 = Ok 108).
  { unfold data, extension. rewrite <- !app_assoc, (app_assoc pre), Hpay.
    apply readUIntLE_le_bytes; [| cbn; lia].
    rewrite length_app, length_le_bytes. lia. }
  rewrite Etype, Elen. cbn [mbind result_bind Z.eqb Pos.eqb].
  destruct (Z.leb_spec (Z.of_nat (length pre) + 4 + 32 + 32 + 8 + 18 + 18)
              (Z.of_nat (length data))); [| lia].
  set (head := pre ++ FeeCalculator.le_bytes 2 1 ++ FeeCalculator.le_bytes 2 108
               ++ configAuthority ++ withdrawAuthority ++ withheld ++ older
               ++ FeeCalculator.le_bytes 8 epoch).
  assert (Hhead : Z.of_nat (length head) = Z.of_nat (length pre) + 102).
  { unfold head. rewrite !length_app, !length_le_bytes. lia. }
  assert (Edata : data = head ++ FeeCalculator.le_bytes 8 maxFee
                         ++ FeeCalculator.le_bytes 2 basisPoints ++ rest).
  { unfold data, head, extension. rewrite Hpay.
    unfold payload, transferFeePayload, transferFee.
    rewrite <- !app_assoc. reflexivity. }
  assert (Emax : readUIntLE data (Z.of_nat (length pre) + 4 + 32 + 32 + 8 + 18 + 8) 8
                 = Ok maxFee).
  { rewrite Edata. apply readUIntLE_le_bytes; [lia | exact Hmax]. }
  assert (Ebps : readUIntLE data (Z.of_nat (length pre) + 4 + 32 + 32 + 8 + 18 + 16) 2
                 = Ok basisPoints).
  { rewrite Edata, (app_assoc head).
    apply readUIntLE_le_bytes; [| cbn; lia].
    rewrite length_app, length_le_bytes. lia. }
  rewrite Emax, Ebps. reflexivity.
Qed.

Lemma parseTransferFee_others (fuel : nat) (pre rest : bytes)
    (others : list (Z * bytes)) (configAuthority withdrawAuthority withheld older : bytes)
    (epoch maxFee basisPoints : Z) :
  (length others < fuel)%nat ->
  Forall (fun e => 0 <= fst e < 65536 /\ fst e <> 1 /\
                   Z.of_nat (length (snd e)) < 65536) others ->
  length configAuthority = 32%nat -> length withdrawAuthority = 32%nat ->
  length withheld = 8%nat ->
  length older = 18%nat ->
  0 <= maxFee < 2 ^ 64 -> 0 <= basisPoints < 65536 ->
  parseTransferFee_from fuel (Z.of_nat (length pre))
    (pre ++ concat ((fun e => extension (fst e) (snd e)) <$> others)
     ++ extension 1 (transferFeePayload configAuthority withdrawAuthority withheld
                      older (transferFee epoch maxFee basisPoints))
     ++ rest)
  = Ok (Some {| transferFeeBasisPoints := basisPoints; maximumFee := maxFee |}).
Proof.
  intros Hfuel Hothers Hc Hw Hh Hold Hmax Hbps. revert fuel pre Hfuel.
  induction Hothers as [|[t p] others (Ht & Hne & Hlen) _ IH]; intros fuel pre Hfuel.
  - destruct fuel as [|fuel]; [cbn in Hfuel; lia |].
    cbn [fmap list_fmap concat app]. now apply parseTransferFee_hit.
  - destruct fuel as [|fuel]; [cbn in Hfuel; lia |].
    cbn [fmap list_fmap concat fst snd]. rewrite <- !app_assoc.
    rewrite parseTransferFee_skip by assumption.
    rewrite (app_assoc pre). apply IH. cbn in Hfuel. lia.
Qed.

(** X15. [parseTransferFeeExtension] reads back what the Token-2022
    layout holds: on a mint of 82 bytes and an account type, followed by
    any extensions of other types and then by a transfer-fee configuration,
    it returns the basis points and the maximum fee of the newer fee of
    that configuration, whatever follows; on data too short to hold one
    extension header it returns nothing. *)
Theorem parseTransferFeeExtension_round_trip
    (base rest configAuthority withdrawAuthority withheld older : bytes)
    (others : list (Z * bytes)) (epoch maxFee basisPoints : Z) :
  length base = 83%nat ->
  Forall (fun e => 0 <= fst e < 65536 /\ fst e <> 1 /\
                   Z.of_nat (length (snd e)) < 65536) others ->
  length configAuthority = 32%nat -> length withdrawAuthority = 32%nat ->
  length withheld = 8%nat ->
  length older = 18%nat ->
  0 <= maxFee < 2 ^ 64 -> 0 <= basisPoints < 65536 ->
  parseTransferFeeExtension
    (base ++ concat ((fun e => extension (fst e) (snd e)) <$> others)
     ++ extension 1 (transferFeePayload configAuthority withdrawAuthority withheld
                      older (transferFee epoch maxFee basisPoints))
     ++ rest)
  = Some {| transferFeeBasisPoints := basisPoints; maximumFee := maxFee |} /\
  forall short, (length short < 87)%nat -> parseTransferFeeExtension short = None.
Proof.
  intros Hbase Hothers Hc Hw Hh Hold Hmax Hbps. split.
  - unfold parseTransferFeeExtension.
    change 83 with (Z.of_nat 83). rewrite <- Hbase.
    rewrite parseTransferFee_others; try assumption; [reflexivity |].
    rewrite !length_app.
    assert (Hcat : (length others
                    <= length (concat ((fun e => extension (fst e) (snd e)) <$> others)))%nat).
    { clear. induction others as [|e others IH]; [cbn; lia |].
      cbn [fmap list_fmap concat length]. rewrite length_app. unfold extension at 1.
      rewrite !length_app, !length_le_bytes. lia. }
    assert (Hext : (4 <= length (extension 1
                      (transferFeePayload configAuthority withdrawAuthority withheld
                      older (transferFee epoch maxFee basisPoints))))%nat).
    { unfold extension. rewrite !length_app, !length_le_bytes. lia. }
    lia.
  - intros short Hshort. unfold parseTransferFeeExtension.
    destruct (length short) as [|n] eqn:En; [reflexivity |].
    cbn [parseTransferFee_from]. rewrite En.
    destruct (Z.leb_spec (83 + 4) (Z.of_nat (S n))); [lia | reflexivity].
Qed.

Lemma parseTransferFeeExtension_round_trip_witness :
  parseTransferFeeExtension exampleMint
    = Some {| transferFeeBasisPoints := 50; maximumFee := 5000 |} /\
  forall short, (length short < 87)%nat -> parseTransferFeeExtension short = None.
Proof.
  apply (parseTransferFeeExtension_round_trip (replicate 82 0 ++ [1]) (replicate 3 0)
           (replicate 32 1) (replicate 32 2) (replicate 8 0)
           (transferFee 10 9000 100) [(18, replicate 64 7)] 11 5000 50).
  - reflexivity.
  - repeat constructor; cbn; lia.
  - reflexivity.
  - reflexivity.
  - reflexivity.
  - reflexivity.
  - lia.
  - lia.
Defined.

(** *** Sending and confirming *)

Lemma pollConfirmation_success (polls : nat -> Poll) (signature : string)
    (i remaining : nat) (r : SwapOrchestrator.SendResult) :
  pollConfirmation polls signature i remaining = Ok r ->
  SwapOrchestrator.send_signature r = Some signature /\
  (SwapOrchestrator.send_success r = true <->
   exists k s, (i <= k < i + remaining)%nat /\
     (forall j, (i <= j < k)%nat -> pending (polls j)) /\
     polls k = Ok (Some s) /\ status_err s = None /\ isConfirmed s = true).
Proof.
  revert i. induction remaining as [|remaining IH]; intros i; cbn.
  - intros [= <-]. split; [reflexivity |]. cbn. split; [discriminate |].
    intros (k & s & Hk & _). lia.
  - destruct (polls i) as [[status|]|e] eqn:Ei; cbn [mbind result_bind];
      [| | discriminate].
    + destruct (status_err status) as [err|] eqn:Eerr.
      * intros [= <-]. split; [reflexivity |]. cbn. split; [discriminate |].
        intros (k & s & Hk & Hpend & Hs & Hnone & Hconf).
        destruct (Nat.eq_dec k i) as [-> | Hne]; [congruence |].
        destruct (Hpend i) as [Hp | (s' & Hp & Hn' & _)]; [lia | congruence |].
        congruence.
      * destruct (isConfirmed status) eqn:Econf.
        -- intros [= <-]. split; [reflexivity |]. cbn. split; [| reflexivity].
           intros _. exists i, status. repeat split; try assumption; lia.
        -- intros Hr. destruct (IH (S i) Hr) as [Hsig Hiff].
           split; [exact Hsig |]. rewrite Hiff. split.
           ++ intros (k & s & Hk & Hpend & Hs). exists k, s.
              split; [lia |]. split; [| exact Hs].
              intros j Hj. destruct (Nat.eq_dec j i) as [-> | Hne].
              ** right. eauto.
              ** apply Hpend. lia.
           ++ intros (k & s & Hk & Hpend & Hs & Hnone & Hconf). exists k, s.
              assert (k <> i) by (intros ->; congruence).
              split; [lia |]. split; [intros j Hj; apply Hpend; lia | auto].
    + intros Hr. destruct (IH (S i) Hr) as [Hsig Hiff].
      split; [exact Hsig |]. rewrite Hiff. split.
      * intros (k & s & Hk & Hpend & Hs). exists k, s.
        split; [lia |]. split; [| exact Hs].
        intros j Hj. destruct (Nat.eq_dec j i) as [-> | Hne].
        -- now left.
        -- apply Hpend. lia.
      * intros (k & s & Hk & Hpend & Hs & Hnone & Hconf). exists k, s.
        assert (k <> i) by (intros ->; congruence).
        split; [lia |]. split; [intros j Hj; apply Hpend; lia | auto].
Qed.

(** X16. [sendAndConfirmTransaction] reports success exactly when the
    node accepted the transaction and one of the first thirty status polls
    showed it confirmed or finalized without error, every poll before that
    one being still pending; the signature reported is then the one the
    node returned.  An error status, a poll that throws, a rejected
    transaction and thirty pending polls all give a failure. *)
Theorem sendAndConfirmTransaction_success (sent : result string) (polls : nat -> Poll) :
  SwapOrchestrator.send_success (sendAndConfirmTransaction sent polls) = true <->
  exists signature k s,
    sent = Ok signature /\ (k < 30)%nat /\
    (forall j, (j < k)%nat -> pending (polls j)) /\
    polls k = Ok (Some s) /\ status_err s = None /\ isConfirmed s = true /\
    SwapOrchestrator.send_signature (sendAndConfirmTransaction sent polls)
      = Some signature.
Proof.
  unfold sendAndConfirmTransaction.
  destruct sent as [signature|e]; cbn [mbind result_bind].
  - destruct (pollConfirmation polls signature 0 maxAttempts) as [r|e] eqn:Er.
    + destruct (pollConfirmation_success _ _ _ _ _ Er) as [Hsig Hiff].
      rewrite Hiff. unfold maxAttempts. split.
      * intros (k & s & Hk & Hpend & Hs & Hnone & Hconf).
        exists signature, k, s. repeat split; try assumption; try lia.
        intros j Hj. apply Hpend. lia.
      * intros (sig & k & s & [= <-] & Hk & Hpend & Hs & Hnone & Hconf & _).
        exists k, s. repeat split; try assumption; try lia.
        intros j Hj. apply Hpend. lia.
    + cbn. split; [discriminate |].
      intros (sig & k & s & [= <-] & Hk & Hpend & Hs & Hnone & Hconf & _).
      exfalso. clear -Er Hk Hpend Hs Hnone Hconf.
      assert (Hgen : forall remaining i,
        (i <= k < i + remaining)%nat ->
        pollConfirmation polls signature i remaining <> Throw e).
      { induction remaining as [|remaining IH]; intros i Hi; [lia |]. cbn.
        destruct (Nat.eq_dec i k) as [-> | Hne].
        - rewrite Hs. cbn. rewrite Hnone, Hconf. discriminate.
        - destruct (Hpend i) as [Hp | (s' & Hp & Hn' & Hc')]; [lia | |];
            rewrite Hp; cbn [mbind result_bind].
          + apply IH. lia.
          + rewrite Hn', Hc'. apply IH. lia. }
      apply (Hgen maxAttempts 0%nat); [unfold maxAttempts; lia | exact Er].
  - cbn. split; [discriminate |]. intros (sig & k & s & Habs & _). discriminate.
Qed.

Lemma sendAndConfirmTransaction_success_witness :
  SwapOrchestrator.send_success (sendAndConfirmTransaction (Ok "sig-1") examplePolls)
    = true.
Proof.
  apply (sendAndConfirmTransaction_success (Ok "sig-1") examplePolls).
  exists "sig-1"%string, 2%nat,
    {| status_err := None; confirmationStatus := Some confirmed |}.
  repeat split; try reflexivity; [lia |].
  intros [|[|j]] Hj; [now left | | lia].
  right. eexists. repeat split; reflexivity.
Defined.

(** Thirty pending polls time out; a rejected transaction has no
    signature. *)
Example sendAndConfirmTransaction_example :
  sendAndConfirmTransaction (Ok "sig-1") (fun _ => Ok None)
    = {| SwapOrchestrator.send_success := false;
         SwapOrchestrator.send_signature := Some "sig-1";
         SwapOrchestrator.send_error := Some "Transaction confirmation timeout" |} /\
  sendAndConfirmTransaction (Throw (JsError "blockhash not found")) examplePolls
    = {| SwapOrchestrator.send_success := false;
         SwapOrchestrator.send_signature := Some "";
         SwapOrchestrator.send_error :=
           Some "Failed to send transaction: Error: blockhash not found" |}.
Proof. split; vm_compute; reflexivity. Qed.

End SolanaServiceProperties.

(** ** From confirmation to the swap record *)

Section ConfirmationProperties.

Import SwapOrchestrator SolanaService.

Context `{TransactionBuilder.SolanaCodec}.

Lemma sendAndConfirmTransaction_confirmed (sent : result string) (polls : nat -> Poll) :
  send_success (sendAndConfirmTransaction sent polls) = true ->
  exists signature k s,
    sent = Ok signature /\ (k < 30)%nat /\
    polls k = Ok (Some s) /\ status_err s = None /\ isConfirmed s = true /\
    send_signature (sendAndConfirmTransaction sent polls) = Some signature.
Proof.
  unfold sendAndConfirmTransaction.
  destruct sent as [signature|e]; cbn [mbind result_bind]; [| discriminate].
  destruct (pollConfirmation polls signature 0 maxAttempts) as [r|e] eqn:Er;
    [| discriminate].
  destruct (pollConfirmation_success _ _ _ _ _ Er) as [Hsig Hiff].
  intros Hok. apply Hiff in Hok as (k & s & Hk & _ & Hs & Hnone & Hconf).
  exists signature, k, s. unfold maxAttempts in Hk.
  repeat split; try assumption; lia.
Qed.

Lemma createAndSend_submitted (env : ExecuteEnv) (st st' : State) (swapId : string)
    (pending : PendingSwap) (txBytes : Buffer.bytes) (r : ExecutionResult) :
  createAndSend env st swapId pending txBytes = (st', Ok r) ->
  er_status r = submitted_status ->
  exists sent,
    e_send env = Ok sent /\ send_success sent = true /\
    er_signature r = send_signature sent /\
    submitted st' = submitted st ++ [txBytes] /\
    pendingSwaps st' !! swapId = None /\
    exists row, repository st' !! swapId = Some row /\
                swap_data row = createData pending /\
                swap_status row = SUBMITTED /\
                (is_Some (send_signature sent) ->
                 swap_solanaSignature row = send_signature sent).
Proof.
  unfold createAndSend, catch_execute.
  destruct (e_create env) as [e|].
  { destruct (instanceof_AppError e); [discriminate |].
    intros [= _ <-]. discriminate. }
  destruct (e_send env) as [sent|e].
  2:{ destruct (instanceof_AppError e); [discriminate |].
      intros [= _ <-]. discriminate. }
  destruct (e_update env) as [e|].
  { destruct (instanceof_AppError e); [discriminate |].
    intros [= _ <-]. discriminate. }
  destruct (send_success sent) eqn:Hok; cbn [negb].
  2:{ intros [= _ <-]. discriminate. }
  intros E _. exists sent. split; [reflexivity |]. split; [exact Hok |].
  destruct (e_providerRegistered env); injection E as <- <-; cbn;
    (split; [reflexivity |]; split; [reflexivity |];
     split; [apply lookup_delete_eq |]);
    rewrite lookup_alter_eq, lookup_insert_eq; cbn;
    (eexists; split; [reflexivity |]; cbn; repeat split;
     intros [sig Hsig]; now rewrite Hsig).
Qed.

(** X17. A swap is reported as submitted only when the chain has
    confirmed it.  With [sendAndConfirmTransaction] as the sender, an
    [executeSwap] that returns the status [submitted] has handed exactly
    this transaction to the node, the node returned a signature, one of the
    first thirty polls showed that signature confirmed or finalized without
    error, the result carries that signature, the durable record of the
    swap has the status SUBMITTED with that signature, and the pending
    entry is gone. *)
Theorem executeSwap_submitted_is_confirmed (sponsor : string) (env : ExecuteEnv)
    (st st' : State) (swapId : string) (txBytes : Buffer.bytes)
    (sent : result string) (polls : nat -> Poll) (r : ExecutionResult) :
  e_send env = Ok (sendAndConfirmTransaction sent polls) ->
  executeSwap sponsor env st swapId txBytes = (st', Ok r) ->
  er_status r = submitted_status ->
  exists signature k s,
    sent = Ok signature /\ (k < 30)%nat /\
    polls k = Ok (Some s) /\ status_err s = None /\ isConfirmed s = true /\
    er_signature r = Some signature /\
    submitted st' = submitted st ++ [txBytes] /\
    pendingSwaps st' !! swapId = None /\
    exists row, repository st' !! swapId = Some row /\
                swap_status row = SUBMITTED /\
                swap_solanaSignature row = Some signature.
Proof.
  intros Hsend Hrun Hstatus.
  assert (Hcs : exists pending,
    createAndSend env st swapId pending txBytes = (st', Ok r)).
  { unfold executeSwap in Hrun.
    destruct (pendingSwaps st !! swapId) as [pending|]; [| discriminate].
    destruct (pending_validUntil pending <? e_now env)%Z; [discriminate |].
    exists pending.
    destruct (cs_userFeeToken (createData pending)); [| exact Hrun].
    destruct (negb _); [| exact Hrun].
    injection Hrun as _ <-. discriminate. }
  destruct Hcs as [pending Hcs].
  destruct (createAndSend_submitted _ _ _ _ _ _ _ Hcs Hstatus)
    as (res & Hres & Hok & Hsig & Hsub & Hpend & row & Hrow & _ & Hst & Hrsig).
  rewrite Hsend in Hres. injection Hres as <-.
  apply sendAndConfirmTransaction_confirmed in Hok
    as (signature & k & s & Hsent & Hk & Hs & Hnone & Hconf & Hsigned).
  exists signature, k, s. rewrite Hsig, Hsigned.
  repeat split; try assumption.
  exists row. repeat split; try assumption.
  rewrite <- Hsigned. apply Hrsig. rewrite Hsigned. eauto.
Qed.

End ConfirmationProperties.

Section ConfirmationExamples.

Import SwapOrchestrator SolanaService WireCodec.

Lemma executeSwap_submitted_is_confirmed_witness :
  exists signature k s,
    Ok "sig-1"%string = Ok signature /\ (k < 30)%nat /\
    examplePolls k = Ok (Some s) /\ status_err s = None /\ isConfirmed s = true /\
    Some "sig-1"%string = Some signature /\
    submitted (fst (executeSwap sponsorAddress
                      {| e_now := 2000; e_create := None;
                         e_send := Ok (sendAndConfirmTransaction (Ok "sig-1") examplePolls);
                         e_update := None; e_providerRegistered := true |}
                      exampleState "swap-1" (exampleTx [] newHash)))
      = submitted exampleState ++ [exampleTx [] newHash] /\
    pendingSwaps (fst (executeSwap sponsorAddress
                      {| e_now := 2000; e_create := None;
                         e_send := Ok (sendAndConfirmTransaction (Ok "sig-1") examplePolls);
                         e_update := None; e_providerRegistered := true |}
                      exampleState "swap-1" (exampleTx [] newHash))) !! "swap-1" = None /\
    exists row,
      repository (fst (executeSwap sponsorAddress
                      {| e_now := 2000; e_create := None;
                         e_send := Ok (sendAndConfirmTransaction (Ok "sig-1") examplePolls);
                         e_update := None; e_providerRegistered := true |}
                      exampleState "swap-1" (exampleTx [] newHash))) !! "swap-1"
        = Some row /\
      swap_status row = SUBMITTED /\ swap_solanaSignature row = Some signature.
Proof.
  apply (executeSwap_submitted_is_confirmed sponsorAddress
           {| e_now := 2000; e_create := None;
              e_send := Ok (sendAndConfirmTransaction (Ok "sig-1") examplePolls);
              e_update := None; e_providerRegistered := true |}
           exampleState _ "swap-1" (exampleTx [] newHash) (Ok "sig-1") examplePolls
           {| er_swapId := "swap-1"; er_status := submitted_status;
              er_signature := Some "sig-1"; er_error := None |}).
  - reflexivity.
  - vm_compute; reflexivity.
  - reflexivity.
Defined.

End ConfirmationExamples.

(** ** Cost estimates and the sponsored fee *)

Section EstimateProperties.

Import FeeCalculator SwapOrchestrator BridgeProviders.
Local Open Scope Q_scope.



Lemma toDecimalPlaces_ROUND_UP_mono (x y : Q) (dp : nat) :
  0 <= x -> x <= y ->
  Num.toDecimalPlaces_ROUND_UP x dp <= Num.toDecimalPlaces_ROUND_UP y dp.
Proof.
  intros Hx Hxy. unfold Num.toDecimalPlaces_ROUND_UP.
  assert (Hy : 0 <= y) by lra.
  apply Qle_bool_iff in Hx as Hbx. apply Qle_bool_iff in Hy as Hby.
  rewrite Hbx, Hby.
  pose proof (inject_pow10_pos dp) as Hp.
  apply Qmult_le_compat_r; [| apply Qlt_le_weak, Qinv_lt_0_compat, Hp].
  rewrite <- Zle_Qle. apply Qceiling_resp_le.
  apply Qmult_le_compat_r; [exact Hxy | lra].
Qed.





End EstimateProperties.

(** ** The registry as a map *)

Section RegistryProperties.

Import ProviderRegistry RegistryLookups.

Lemma getProvider_map_set (n k : string) (v : Provider) (m : Registry) :
  getProvider n (map_set k v m)
    = if String.eqb k n then Some v else getProvider n m.
Proof.
  induction m as [|[k' v'] m IH]; cbn.
  - reflexivity.
  - destruct (String.eqb_spec k k') as [<- | Hne]; cbn.
    + destruct (String.eqb k n); reflexivity.
    + rewrite IH. destruct (String.eqb_spec k' n) as [<- | Hne'].
      * destruct (String.eqb_spec k k'); [contradiction | reflexivity].
      * reflexivity.
Qed.

Lemma getProvider_unregister (n k : string) (m : Registry) :
  getProvider n (unregister k m)
    = if String.eqb k n then None else getProvider n m.
Proof.
  unfold unregister. induction m as [|[k' v'] m IH]; cbn.
  - destruct (String.eqb k n); reflexivity.
  - destruct (String.eqb_spec k' k) as [-> | Hne]; cbn.
    + rewrite IH. destruct (String.eqb k n); reflexivity.
    + rewrite IH. destruct (String.eqb_spec k' n) as [<- | Hne'].
      * destruct (String.eqb_spec k k'); [congruence | reflexivity].
      * reflexivity.
Qed.

Lemma getProvider_None (n : string) (m : Registry) :
  getProvider n m = None <-> n ∉ (fst <$> m).
Proof.
  induction m as [|[k v] m IH]; cbn.
  - split; [intros _; apply not_elem_of_nil | reflexivity].
  - rewrite not_elem_of_cons. destruct (String.eqb_spec k n) as [-> | Hne].
    + split; [discriminate | intros [Habs _]; contradiction].
    + rewrite IH. split; [intros Hn; split; [congruence | exact Hn] | tauto].
Qed.

Lemma keys_map_set (k : string) (v : Provider) (m : Registry) :
  fst <$> map_set k v m
    = if bool_decide (k ∈ (fst <$> m)) then fst <$> m else (fst <$> m) ++ [k].
Proof.
  induction m as [|[k' v'] m IH]; cbn.
  - reflexivity.
  - destruct (String.eqb_spec k k') as [<- | Hne]; cbn.
    + rewrite bool_decide_eq_true_2 by apply list_elem_of_here. reflexivity.
    + rewrite IH. destruct (decide (k ∈ (fst <$> m))) as [Hin | Hnin].
      * rewrite !bool_decide_eq_true_2; [reflexivity | | assumption].
        now apply list_elem_of_further.
      * rewrite !bool_decide_eq_false_2; [reflexivity | | assumption].
        rewrite not_elem_of_cons. tauto.
Qed.

Lemma wellFormed_register (p : Provider) (m : Registry) :
  wellFormed m -> wellFormed (register p m).
Proof.
  unfold wellFormed, register. intros Hnd. rewrite keys_map_set.
  destruct (decide (name p ∈ (fst <$> m))) as [Hin | Hnin].
  - now rewrite bool_decide_eq_true_2.
  - rewrite bool_decide_eq_false_2 by assumption.
    apply NoDup_app. split; [exact Hnd |]. split.
    + intros x Hx Hx'. apply list_elem_of_singleton in Hx'. now subst.
    + apply NoDup_singleton.
Qed.

Lemma wellFormed_unregister (k : string) (m : Registry) :
  wellFormed m -> wellFormed (unregister k m).
Proof.
  unfold wellFormed, unregister. induction m as [|[k' v'] m IH]; cbn.
  - trivial.
  - rewrite NoDup_cons. intros [Hnin Hnd].
    destruct (negb (String.eqb k' k)); cbn.
    + apply NoDup_cons. split; [| now apply IH].
      intros Hin. apply Hnin. apply list_elem_of_fmap in Hin as ([k2 v2] & -> & Hin).
      apply list_elem_of_In, List.filter_In in Hin as [Hin _].
      apply list_elem_of_fmap. exists (k2, v2). split; [reflexivity |].
      now apply list_elem_of_In.
    + now apply IH.
Qed.

Lemma getProvider_lookup (n : string) (p : Provider) (m : Registry) :
  wellFormed m -> (getProvider n m = Some p <-> (n, p) ∈ m).
Proof.
  unfold wellFormed. induction m as [|[k v] m IH]; cbn.
  - intros _. split; [discriminate | intros Habs; inversion Habs].
  - rewrite NoDup_cons. intros [Hnin Hnd]. rewrite elem_of_cons.
    destruct (String.eqb_spec k n) as [-> | Hne].
    + split.
      * intros [= ->]. now left.
      * intros [[= ->] | Hin]; [reflexivity |].
        exfalso. apply Hnin. apply list_elem_of_fmap. now exists (n, p).
    + rewrite (IH Hnd). split; [tauto |].
      intros [[= -> ->] | Hin]; [contradiction | assumption].
Qed.

(** X20. The registry holds one provider per name, and the two
    registrations at boot do not double them.  On a registry with distinct
    names, [register] and [unregister] keep the names distinct; a
    registered provider is found under its name and replaces a former one
    of that name without changing the count or any other entry;
    [unregister] removes that name only; [getAllProviders] lists exactly
    the providers that [getProvider] finds.  Registering Relay and
    DeBridge in [initializeApp] after [getSwapOrchestrator] has done so
    leaves two providers, the newer instances, in the first order. *)
Theorem registry_one_provider_per_name (m : Registry) (p : Provider)
    (removed : string) :
  wellFormed m ->
  (wellFormed (register p m) /\ wellFormed (unregister removed m)) /\
  (getProvider (name p) (register p m) = Some p /\
   (forall n, n <> name p -> getProvider n (register p m) = getProvider n m) /\
   getProviderCount (register p m)
     = if hasProvider (name p) m then getProviderCount m
       else S (getProviderCount m)) /\
  (getProvider removed (unregister removed m) = None /\
   forall n, n <> removed -> getProvider n (unregister removed m) = getProvider n m) /\
  (forall q, q ∈ getAllProviders m <-> exists n, getProvider n m = Some q) /\
  (forall relay debridge relay' debridge',
      name relay <> name debridge ->
      name relay' = name relay -> name debridge' = name debridge ->
      initializeApp relay' debridge' (registerDefaults relay debridge [])
        = [(name relay, relay'); (name debridge, debridge')]).
Proof.
  intros Hwf. repeat split.
  - now apply wellFormed_register.
  - now apply wellFormed_unregister.
  - unfold register. rewrite getProvider_map_set, String.eqb_refl. reflexivity.
  - intros n Hn. unfold register. rewrite getProvider_map_set.
    destruct (String.eqb_spec (name p) n); [congruence | reflexivity].
  - unfold getProviderCount, register, hasProvider.
    rewrite <- !(length_fmap fst), keys_map_set.
    destruct (decide (name p ∈ (fst <$> m))) as [Hin | Hnin].
    + rewrite bool_decide_eq_true_2 by assumption.
      rewrite bool_decide_eq_true_2; [reflexivity |].
      destruct (getProvider (name p) m) eqn:E; [eauto |].
      now apply getProvider_None in E.
    + rewrite bool_decide_eq_false_2 by assumption.
      rewrite bool_decide_eq_false_2.
      * rewrite length_app. cbn. lia.
      * apply getProvider_None in Hnin. rewrite Hnin. now intros [? ?].
  - rewrite getProvider_unregister, String.eqb_refl. reflexivity.
  - intros n Hn. rewrite getProvider_unregister.
    destruct (String.eqb_spec removed n); [congruence | reflexivity].
  - unfold getAllProviders. intros Hq.
    apply list_elem_of_fmap in Hq as ([n q'] & -> & Hin).
    exists n. now apply getProvider_lookup.
  - unfold getAllProviders. intros [n Hn].
    apply getProvider_lookup in Hn; [| exact Hwf].
    apply list_elem_of_fmap. now exists (n, q).
  - intros relay debridge relay' debridge' Hne Hr Hd.
    unfold initializeApp, registerDefaults, register. cbn.
    rewrite Hr, Hd.
    destruct (String.eqb_spec (name debridge) (name relay)); [congruence |].
    cbn. rewrite String.eqb_refl. cbn.
    destruct (String.eqb_spec (name debridge) (name relay)); [congruence |].
    cbn. rewrite String.eqb_refl. reflexivity.
Qed.

Lemma registry_one_provider_per_name_witness :
  (wellFormed (register exampleDeBridge [("relay"%string, exampleRelay)]) /\
   wellFormed (unregister "relay" [("relay"%string, exampleRelay)])) /\
  (getProvider (name exampleDeBridge)
     (register exampleDeBridge [("relay"%string, exampleRelay)])
     = Some exampleDeBridge /\
   (forall n, n <> name exampleDeBridge ->
      getProvider n (register exampleDeBridge [("relay"%string, exampleRelay)])
        = getProvider n [("relay"%string, exampleRelay)]) /\
   getProviderCount (register exampleDeBridge [("relay"%string, exampleRelay)])
     = if hasProvider (name exampleDeBridge) [("relay"%string, exampleRelay)]
       then getProviderCount [("relay"%string, exampleRelay)]
       else S (getProviderCount [("relay"%string, exampleRelay)])) /\
  (getProvider "relay" (unregister "relay" [("relay"%string, exampleRelay)]) = None /\
   forall n, n <> "relay"%string ->
     getProvider n (unregister "relay" [("relay"%string, exampleRelay)])
       = getProvider n [("relay"%string, exampleRelay)]) /\
  (forall q, q ∈ getAllProviders [("relay"%string, exampleRelay)]
             <-> exists n, getProvider n [("relay"%string, exampleRelay)] = Some q) /\
  (forall relay debridge relay' debridge',
      name relay <> name debridge ->
      name relay' = name relay -> name debridge' = name debridge ->
      initializeApp relay' debridge' (registerDefaults relay debridge [])
        = [(name relay, relay'); (name debridge, debridge')]).
Proof.
  apply (registry_one_provider_per_name [("relay"%string, exampleRelay)]
           exampleDeBridge "relay").
  apply NoDup_singleton.
Defined.

End RegistryProperties.

(** ** Retries *)

Section RetryProperties.

Import Retry.

Context {T E : Type}.

Lemma attempts_from_spec (opts : RetryOptions E) (fn : Z -> T + E) (random : Z -> Q)
    (fuel : nat) (attempt : Z) (lastError : option E) (waited : list Q) :
  1 <= attempt ->
  attempt = 1 \/ attempt <= maxAttempts opts ->
  Z.of_nat fuel = Z.max 0 (maxAttempts opts - attempt + 1) ->
  (forall j, 1 <= j < attempt -> retried opts fn j) ->
  length waited = Z.to_nat (attempt - 1) ->
  (attempt = 1 -> lastError = None) ->
  (1 < attempt -> exists e, lastError = Some e /\ fn (attempt - 1) = inr e) ->
  let run := attempts_from opts fn random fuel attempt lastError waited in
  (0 <= calls run <= Z.max 0 (maxAttempts opts)) /\
  (forall j, 1 <= j < calls run -> retried opts fn j) /\
  length (delays run) = Z.to_nat (calls run - 1) /\
  match outcome run with
  | inl v => 1 <= calls run /\ fn (calls run) = inl v
  | inr (Original e) =>
      1 <= calls run /\ fn (calls run) = inr e /\
      shouldRetry opts e (calls run) = false
  | inr (MaxRetriesExceededError msg n last) =>
      calls run = Z.max 0 (maxAttempts opts) /\
      n = maxAttempts opts /\
      msg = "Failed after " +:+ pretty (maxAttempts opts) +:+ " attempts" /\
      (maxAttempts opts < 1 -> last = None) /\
      (1 <= maxAttempts opts ->
       exists e, last = Some e /\ fn (maxAttempts opts) = inr e /\
                 shouldRetry opts e (maxAttempts opts) = true)
  end.
Proof.
  revert attempt lastError waited.
  induction fuel as [|fuel IH]; intros attempt lastError waited Ha Hrange Hfuel Hprev
    Hlen Hfirst Hlast; cbn [attempts_from].
  - cbn. assert (Hm : attempt = 1 /\ maxAttempts opts < 1) by lia.
    destruct Hm as [-> Hm].
    split; [lia |]. split; [intros j Hj; lia |].
    split; [exact Hlen |].
    split; [lia |]. split; [reflexivity |]. split; [reflexivity |]. split.
    + intros _. now apply Hfirst.
    + intros Hge. lia.
  - destruct (Z.leb_spec attempt (maxAttempts opts)) as [Hle | Hgt]; [| lia].
    destruct (fn attempt) as [v|error] eqn:Hfn.
    { cbn. split; [lia |]. split; [intros j Hj; apply Hprev; lia |].
      split; [exact Hlen |]. split; [lia | exact Hfn]. }
    destruct (shouldRetry opts error attempt) eqn:Hretry; cbn [negb].
    2:{ cbn. split; [lia |]. split; [intros j Hj; apply Hprev; lia |].
        split; [exact Hlen |]. split; [lia |]. split; [exact Hfn | exact Hretry]. }
    destruct (Z.geb_spec attempt (maxAttempts opts)) as [Hge | Hlt].
    + cbn. assert (Hm : maxAttempts opts = attempt) by lia.
      split; [lia |]. split; [intros j Hj; apply Hprev; lia |].
      split; [exact Hlen |].
      split; [lia |]. split; [reflexivity |]. split; [reflexivity |].
      split; [lia |]. intros _. exists error. rewrite Hm. auto.
    + apply IH.
      * lia.
      * lia.
      * lia.
      * intros j Hj. destruct (Z.eq_dec j attempt) as [-> | Hne].
        -- exists error. auto.
        -- apply Hprev. lia.
      * rewrite length_app, Hlen. cbn. lia.
      * lia.
      * intros _. exists error. split; [reflexivity |].
        now replace (attempt + 1 - 1) with attempt by lia.
Qed.

(** X21. [retryWithBackoff] calls [fn] at most [maxAttempts] times, one
    attempt after the other, and waits once between two calls.  It returns
    the first value [fn] returns; it rethrows, unwrapped and without
    another call, the first error that [shouldRetry] rejects; and it
    throws [MaxRetriesExceededError] only when [maxAttempts] calls have
    thrown errors that [shouldRetry] accepts, with the error of the last
    call, or when [maxAttempts] is below 1, without any call.  Every call
    before the last one threw an error that [shouldRetry] accepted. *)
Theorem retryWithBackoff_outcome (opts : RetryOptions E) (fn : Z -> T + E)
    (random : Z -> Q) :
  let run := retryWithBackoff opts fn random in
  (0 <= calls run <= Z.max 0 (maxAttempts opts)) /\
  (forall j, 1 <= j < calls run -> retried opts fn j) /\
  length (delays run) = Z.to_nat (calls run - 1) /\
  match outcome run with
  | inl v => 1 <= calls run /\ fn (calls run) = inl v
  | inr (Original e) =>
      1 <= calls run /\ fn (calls run) = inr e /\
      shouldRetry opts e (calls run) = false
  | inr (MaxRetriesExceededError msg n last) =>
      calls run = Z.max 0 (maxAttempts opts) /\
      n = maxAttempts opts /\
      msg = "Failed after " +:+ pretty (maxAttempts opts) +:+ " attempts" /\
      (maxAttempts opts < 1 -> last = None) /\
      (1 <= maxAttempts opts ->
       exists e, last = Some e /\ fn (maxAttempts opts) = inr e /\
                 shouldRetry opts e (maxAttempts opts) = true)
  end.
Proof.
  unfold retryWithBackoff. apply attempts_from_spec.
  - lia.
  - now left.
  - lia.
  - intros j Hj. lia.
  - reflexivity.
  - reflexivity.
  - lia.
Qed.

End RetryProperties.

Section RetryApiCallProperties.

Import Retry.
Local Open Scope Q_scope.

Lemma isRetryableError_server (toLowerCase : string -> string) (msg : string)
    (code : Z) :
  (500 <= code)%Z -> isRetryableError toLowerCase (ofAppError msg code) = true.
Proof.
  intros Hc. unfold isRetryableError, ofAppError. cbn.
  destruct (includes _ "network" || _ || _ || _ || _); [reflexivity |].
  destruct (Z.eqb_spec code 0); [lia |].
  destruct (Z.leb_spec 500 code); [reflexivity | lia].
Qed.

Lemma isRetryableError_client (toLowerCase : string -> string) (msg : string)
    (code : Z) :
  (code < 500)%Z -> code <> 408%Z -> code <> 429%Z ->
  isRetryableError toLowerCase (ofAppError msg code)
    = includes (toLowerCase msg) "network" || includes (toLowerCase msg) "timeout"
      || includes (toLowerCase msg) "econnreset"
      || includes (toLowerCase msg) "enotfound"
      || includes (toLowerCase msg) "etimedout".
Proof.
  intros Hc H408 H429. unfold isRetryableError, ofAppError. cbn.
  destruct (includes _ "network" || _ || _ || _ || _); [reflexivity |].
  destruct (Z.eqb_spec code 0); [reflexivity |].
  destruct (Z.leb_spec 500 code); [lia |].
  repeat match goal with
         | |- context [Z.eqb code ?k] => destruct (Z.eqb_spec code k); [lia |]
         end.
  reflexivity.
Qed.

Lemma retryApiCall_unfold {T : Type} (toLowerCase : string -> string)
    (fn : Z -> T + Thrown) (random : Z -> Q) :
  let opts :=
    {| maxAttempts := 2; initialDelayMs := 500; maxDelayMs := 5000;
       backoffMultiplier := 2;
       shouldRetry := fun error _ => isRetryableError toLowerCase error |} in
  retryApiCall toLowerCase fn random
  = match fn 1%Z with
    | inl v => {| outcome := inl v; calls := 1; delays := [] |}
    | inr e1 =>
        if isRetryableError toLowerCase e1
        then
          match fn 2%Z with
          | inl v => {| outcome := inl v; calls := 2;
                        delays := [jitteredDelay opts random 1] |}
          | inr e2 =>
              if isRetryableError toLowerCase e2
              then {| outcome :=
                        inr (MaxRetriesExceededError "Failed after 2 attempts" 2
                               (Some e2));
                      calls := 2; delays := [jitteredDelay opts random 1] |}
              else {| outcome := inr (Original e2); calls := 2;
                      delays := [jitteredDelay opts random 1] |}
          end
        else {| outcome := inr (Original e1); calls := 1; delays := [] |}
    end.
Proof.
  cbv zeta. unfold retryApiCall, retryWithBackoff.
  change (Z.to_nat _) with 2%nat. cbn [attempts_from maxAttempts shouldRetry].
  change (1 <=? 2)%Z with true. change (1 >=? 2)%Z with false.
  change (1 + 1)%Z with 2%Z.
  change (2 <=? 2)%Z with true. change (2 >=? 2)%Z with true. cbn [app].
  destruct (fn 1%Z) as [v|e1]; [reflexivity |].
  destruct (isRetryableError toLowerCase e1); cbn [negb]; [| reflexivity].
  destruct (fn 2%Z) as [v|e2]; [reflexivity |].
  destruct (isRetryableError toLowerCase e2); reflexivity.
Qed.

(** X22. A provider call goes through [retryApiCall]: [fn] runs at most
    twice, with at most one wait, of 250 to 500 ms.  An error that
    [isRetryableError] rejects is rethrown as it is after the first call.
    An [AppError] with a status of 500 or more, such as the 502
    [BridgeError] of the providers, is always retried: a value returned
    by the second call is returned, and when the second call throws such
    an error too, the caller gets [MaxRetriesExceededError] with the
    message "Failed after 2 attempts" and the second error as
    [lastError], not the [BridgeError] itself.  An [AppError] with a
    status below 500 other than 408 and 429 is retried only when its
    message contains one of the network words. *)
Theorem retryApiCall_provider_errors {T : Type} (toLowerCase : string -> string)
    (fn : Z -> T + Thrown) (random : Z -> Q) :
  (forall k, 0 <= random k <= 1) ->
  let run := retryApiCall toLowerCase fn random in
  ((calls run <= 2)%Z /\ (length (delays run) <= 1)%nat /\
   Forall (fun d => 250 <= d <= 500) (delays run)) /\
  (forall e, fn 1%Z = inr e -> isRetryableError toLowerCase e = false ->
             run = {| outcome := inr (Original e); calls := 1; delays := [] |}) /\
  (forall msg code v,
      fn 1%Z = inr (ofAppError msg code) -> (500 <= code)%Z -> fn 2%Z = inl v ->
      outcome run = inl v /\ calls run = 2%Z) /\
  (forall msg1 code1 msg2 code2,
      fn 1%Z = inr (ofAppError msg1 code1) -> (500 <= code1)%Z ->
      fn 2%Z = inr (ofAppError msg2 code2) -> (500 <= code2)%Z ->
      outcome run
        = inr (MaxRetriesExceededError "Failed after 2 attempts" 2
                 (Some (ofAppError msg2 code2))) /\
      calls run = 2%Z) /\
  (forall msg code,
      (code < 500)%Z -> code <> 408%Z -> code <> 429%Z ->
      isRetryableError toLowerCase (ofAppError msg code)
        = includes (toLowerCase msg) "network"
          || includes (toLowerCase msg) "timeout"
          || includes (toLowerCase msg) "econnreset"
          || includes (toLowerCase msg) "enotfound"
          || includes (toLowerCase msg) "etimedout").
Proof.
  intros Hrandom run.
  assert (Hdelay : 250 <= jitteredDelay
                     {| maxAttempts := 2; initialDelayMs := 500; maxDelayMs := 5000;
                        backoffMultiplier := 2;
                        shouldRetry := fun error _ => isRetryableError toLowerCase error |}
                     random 1 <= 500).
  { unfold jitteredDelay. cbn [initialDelayMs backoffMultiplier maxDelayMs].
    change (500 * 2 ^ (1 - 1)) with (500 * 1).
    assert (E : Qmin (500 * 1) 5000 == 500).
    { apply Q.min_l. vm_compute. discriminate. }
    rewrite E. specialize (Hrandom 1%Z). clear run E.
    set (r := random 1%Z) in *. clearbody r. destruct Hrandom. split; lra. }
  unfold run. rewrite retryApiCall_unfold. clear run.
  repeat split.
  - destruct (fn 1%Z) as [v|e]; cbn; [lia |].
    destruct (isRetryableError toLowerCase e); cbn; [| lia].
    destruct (fn 2%Z) as [v|e2]; cbn; [lia |].
    destruct (isRetryableError toLowerCase e2); cbn; lia.
  - destruct (fn 1%Z) as [v|e]; cbn; [lia |].
    destruct (isRetryableError toLowerCase e); cbn; [| lia].
    destruct (fn 2%Z) as [v|e2]; cbn; [lia |].
    destruct (isRetryableError toLowerCase e2); cbn; lia.
  - destruct (fn 1%Z) as [v|e]; [constructor |].
    destruct (isRetryableError toLowerCase e); [| constructor].
    destruct (fn 2%Z) as [v|e2]; [repeat constructor; apply Hdelay |].
    destruct (isRetryableError toLowerCase e2);
      repeat constructor; apply Hdelay.
  - intros e -> ->. reflexivity.
  - rewrite H, (isRetryableError_server _ _ _ H0). now rewrite H1.
  - rewrite H, (isRetryableError_server _ _ _ H0). now rewrite H1.
  - rewrite H, (isRetryableError_server _ _ _ H0).
    rewrite H1, (isRetryableError_server _ _ _ H2). reflexivity.
  - rewrite H, (isRetryableError_server _ _ _ H0).
    rewrite H1, (isRetryableError_server _ _ _ H2). reflexivity.
  - apply isRetryableError_client; assumption.
Qed.

Lemma retryApiCall_provider_errors_witness :
  ((calls (retryApiCall (T := Z) asciiLower
             (fun _ => inr (ofAppError "DeBridge API error: 500" 502))
             (fun _ => 1 # 2)) <= 2)%Z /\
   (length (delays (retryApiCall (T := Z) asciiLower
                      (fun _ => inr (ofAppError "DeBridge API error: 500" 502))
                      (fun _ => 1 # 2))) <= 1)%nat /\
   Forall (fun d => 250 <= d <= 500)
     (delays (retryApiCall (T := Z) asciiLower
                (fun _ => inr (ofAppError "DeBridge API error: 500" 502))
                (fun _ => 1 # 2)))) /\
  outcome (retryApiCall (T := Z) asciiLower
             (fun _ => inr (ofAppError "DeBridge API error: 500" 502))
             (fun _ => 1 # 2))
    = inr (MaxRetriesExceededError "Failed after 2 attempts" 2
             (Some (ofAppError "DeBridge API error: 500" 502))).
Proof.
  pose proof (retryApiCall_provider_errors (T := Z) asciiLower
                (fun _ => inr (ofAppError "DeBridge API error: 500" 502))
                (fun _ => 1 # 2)) as Hrun.
  destruct Hrun as (Hbounds & _ & _ & Hexhausted & _).
  - intros _. split; vm_compute; discriminate.
  - split; [exact Hbounds |].
    apply (Hexhausted "DeBridge API error: 500"%string 502%Z
             "DeBridge API error: 500"%string 502%Z); (reflexivity || lia).
Defined.

(** X24. A provider call that fails is always tried a second time, and
    its caller never sees the provider's own error.  [getQuote],
    [buildTransaction] and [getStatus] turn every failure of their body
    into a [BridgeError], which [isRetryableError] accepts for its status
    502: a body that succeeds at once is called once, without a wait;
    otherwise it is called exactly twice, with one wait between, and the
    result is the value of the second call or, when that fails too, a
    [MaxRetriesExceededError] "Failed after 2 attempts" that carries the
    [BridgeError] as [lastError]. *)
Theorem providerCall_retries_once {T : Type} (toLowerCase : string -> string)
    (msg : string) (body : Z -> T + Thrown) (random : Z -> Q) :
  let run := providerCall toLowerCase msg body random in
  match body 1%Z with
  | inl v => run = {| outcome := inl v; calls := 1; delays := [] |}
  | inr _ =>
      calls run = 2%Z /\ length (delays run) = 1%nat /\
      outcome run
        = match body 2%Z with
          | inl v => inl v
          | inr _ =>
              inr (MaxRetriesExceededError "Failed after 2 attempts" 2
                     (Some (ofAppError msg 502)))
          end
  end.
Proof.
  cbv zeta. unfold providerCall. rewrite retryApiCall_unfold. unfold guarded.
  destruct (body 1%Z) as [v|e1]; [reflexivity |].
  rewrite isRetryableError_server by lia.
  destruct (body 2%Z) as [v|e2]; [repeat split |].
  rewrite isRetryableError_server by lia. repeat split.
Qed.

End RetryApiCallProperties.

(** ** Circuit breaker *)

Section CircuitBreakerProperties.

Import CircuitBreaker.

Context {T E : Type}.

Lemma executeAll_snoc (cfg : CircuitBreakerConfig) (calls : list (Call T E))
    (call : Call T E) (cb : Breaker) :
  executeAll cfg (calls ++ [call]) cb
    = breaker (execute cfg call (executeAll cfg calls cb)).
Proof. unfold executeAll. now rewrite foldl_app. Qed.

Lemma failuresSinceSuccess_snoc (calls : list (Call T E)) (call : Call T E) :
  failuresSinceSuccess (calls ++ [call])
    = if failed call then S (failuresSinceSuccess calls) else O.
Proof. unfold failuresSinceSuccess. now rewrite reverse_snoc. Qed.

Ltac breaker_cases :=
  repeat match goal with
         | |- context [Z.geb ?a ?b] => destruct (Z.geb_spec a b)
         | |- context [Z.ltb ?a ?b] => destruct (Z.ltb_spec a b)
         end.

Lemma invariant_step (cfg : CircuitBreakerConfig) (calls : list (Call T E))
    (call : Call T E) (cb : Breaker) :
  1 <= failureThreshold cfg -> 1 <= successThreshold cfg ->
  invariant cfg calls cb ->
  invariant cfg (calls ++ [call]) (breaker (execute cfg call cb)).
Proof.
  intros Hf Hs. unfold invariant, execute.
  rewrite failuresSinceSuccess_snoc. unfold failed.
  destruct cb as [st fc sc next]. cbn [state failureCount successCount nextAttemptTime].
  assert (Hlast : call ∈ calls ++ [call]).
  { apply elem_of_app. right. apply list_elem_of_here. }
  destruct st; cbn.
  - intros [-> [Hlo Hhi]]. destruct (answer call) as [v|e] eqn:Ha; cbn.
    + split; [reflexivity | lia].
    + unfold onFailure, transitionTo; cbn. breaker_cases; cbn.
      * split; [reflexivity |]. exists call. unfold failed. rewrite Ha. auto.
      * split; [reflexivity | lia].
  - intros [-> (c & Hin & Hfail & Hnext)].
    destruct (Z.ltb_spec (started call) next); cbn.
    + split; [reflexivity |]. exists c.
      split; [apply elem_of_app; now left | auto].
    + destruct (answer call) as [v|e] eqn:Ha; cbn.
      * unfold onSuccess, transitionTo; cbn. breaker_cases; cbn; lia.
      * split; [reflexivity |]. exists call. unfold failed. rewrite Ha. auto.
  - intros [Hlo Hhi]. destruct (answer call) as [v|e] eqn:Ha; cbn.
    + unfold onSuccess, transitionTo; cbn. breaker_cases; cbn; lia.
    + split; [reflexivity |]. exists call. unfold failed. rewrite Ha. auto.
Qed.

Lemma invariant_executeAll (cfg : CircuitBreakerConfig) (calls : list (Call T E)) :
  1 <= failureThreshold cfg -> 1 <= successThreshold cfg ->
  invariant cfg calls (executeAll cfg calls create).
Proof.
  intros Hf Hs. induction calls as [|call calls IH] using rev_ind.
  - cbn. unfold invariant. cbn. lia.
  - rewrite executeAll_snoc. now apply invariant_step.
Qed.

Lemma half_open_recovers (cfg : CircuitBreakerConfig) (calls : list (Call T E))
    (cb : Breaker) :
  state cb = HALF_OPEN ->
  0 <= successCount cb < successThreshold cfg ->
  Forall (fun call => failed call = false) calls ->
  Z.of_nat (length calls) = successThreshold cfg - successCount cb ->
  let cb' := executeAll cfg calls cb in
  state cb' = CLOSED /\ failureCount cb' = 0 /\ successCount cb' = 0.
Proof.
  revert cb. induction calls as [|call calls IH]; intros cb Hst Hsc Hall Hlen.
  - cbn in Hlen. lia.
  - apply Forall_cons in Hall as [Hok Hall]. cbn [length] in Hlen.
    unfold executeAll. cbn [foldl]. fold (executeAll cfg calls).
    assert (Hstep : breaker (execute cfg call cb) = onSuccess cfg (settled call) cb).
    { unfold execute. rewrite Hst. unfold failed in Hok.
      destruct (answer call); [reflexivity | discriminate]. }
    rewrite Hstep. unfold onSuccess. cbn [state]. rewrite Hst.
    cbn [successCount failureCount nextAttemptTime state].
    destruct (Z.geb_spec (successCount cb + 1) (successThreshold cfg)) as [Hge | Hlt].
    + assert (calls = []) as -> by (apply nil_length_inv; lia).
      unfold transitionTo. cbn. auto.
    + apply IH; cbn [state successCount]; [reflexivity | lia | assumption | lia].
Qed.

(** X23. A circuit breaker that has served any sequence of calls, one
    after the other, is in one of three situations.  Closed: fewer calls
    than [failureThreshold] have failed since the last success.  Open: it
    opened when some failed call settled and waits [timeout] ms from that
    moment; until then [execute] throws [CircuitBreakerError] without
    calling [fn] and without changing the breaker, and from then on
    [successThreshold] successful calls in a row close it again with both
    counters at 0.  Half-open: it has counted fewer successes than
    [successThreshold], and one failed call reopens it for a full
    timeout. *)
Theorem circuit_breaker_trips_and_recovers (cfg : CircuitBreakerConfig)
    (calls : list (Call T E)) :
  1 <= failureThreshold cfg -> 1 <= successThreshold cfg ->
  let cb := executeAll cfg calls create in
  (state cb = CLOSED ->
   Z.of_nat (failuresSinceSuccess calls) < failureThreshold cfg) /\
  (state cb = OPEN ->
   (exists call, call ∈ calls /\ failed call = true /\
                 nextAttemptTime cb = settled call + timeout cfg) /\
   (forall next : Call T E, started next < nextAttemptTime cb ->
      execute cfg next cb
        = {| breaker := cb;
             output := inr (CircuitBreakerError (nextAttemptTime cb));
             invoked := false |}) /\
   (forall (first : Call T E) (more : list (Call T E)),
      nextAttemptTime cb <= started first ->
      Forall (fun call => failed call = false) (first :: more) ->
      Z.of_nat (length (first :: more)) = successThreshold cfg ->
      let cb' := executeAll cfg (first :: more) cb in
      state cb' = CLOSED /\ failureCount cb' = 0 /\ successCount cb' = 0)) /\
  (state cb = HALF_OPEN ->
   0 <= successCount cb < successThreshold cfg /\
   forall next : Call T E, failed next = true ->
     state (breaker (execute cfg next cb)) = OPEN /\
     nextAttemptTime (breaker (execute cfg next cb)) = settled next + timeout cfg).
Proof.
  intros Hf Hs cb.
  pose proof (invariant_executeAll cfg calls Hf Hs) as Hinv.
  fold cb in Hinv. unfold invariant in Hinv. clearbody cb.
  split; [| split].
  - intros Hst. rewrite Hst in Hinv. lia.
  - intros Hst. rewrite Hst in Hinv. destruct Hinv as [Hsc Hopened].
    split; [exact Hopened |]. split.
    + intros next Hearly. unfold execute. rewrite Hst.
      destruct (Z.ltb_spec (started next) (nextAttemptTime cb)); [reflexivity | lia].
    + intros first more Hlate Hall Hlen cb'.
      apply Forall_cons in Hall as [Hok Hall]. cbn [length] in Hlen.
      unfold cb', executeAll. cbn [foldl]. fold (executeAll cfg more).
      assert (Hstep : breaker (execute cfg first cb)
                      = onSuccess cfg (settled first)
                          (transitionTo cfg (started first) HALF_OPEN cb)).
      { unfold execute. rewrite Hst.
        destruct (Z.ltb_spec (started first) (nextAttemptTime cb)); [lia |].
        unfold failed in Hok. destruct (answer first); [reflexivity | discriminate]. }
      rewrite Hstep. unfold transitionTo. rewrite Hst. cbn [CircuitState_eqb].
      unfold onSuccess. cbn [state successCount failureCount nextAttemptTime].
      rewrite Hsc.
      destruct (Z.geb_spec (0 + 1) (successThreshold cfg)) as [Hge | Hlt].
      * assert (more = []) as -> by (apply nil_length_inv; lia).
        cbn. auto.
      * apply half_open_recovers; cbn [state successCount];
          [reflexivity | lia | assumption | lia].
  - intros Hst. rewrite Hst in Hinv. split; [exact Hinv |].
    intros next Hfail. unfold execute. rewrite Hst.
    unfold failed in Hfail. destruct (answer next); [discriminate |].
    cbn [breaker]. unfold onFailure. cbn [state]. rewrite Hst.
    unfold transitionTo. cbn. auto.
Qed.

End CircuitBreakerProperties.

Section CircuitBreakerExamples.

Import CircuitBreaker.

(** Five failures in a row open the [externalApi] breaker for a minute. *)
Lemma circuit_breaker_trips_and_recovers_witness :
  state (executeAll externalApi exampleOutage create) = OPEN /\
  nextAttemptTime (executeAll externalApi exampleOutage create) = 61200 /\
  forall next : Call Z string, started next < 61200 ->
    invoked (execute externalApi next (executeAll externalApi exampleOutage create))
      = false.
Proof.
  pose proof (circuit_breaker_trips_and_recovers externalApi exampleOutage) as Hcb.
  destruct Hcb as (_ & Hopen & _).
  - vm_compute; discriminate.
  - vm_compute; discriminate.
  - split; [reflexivity |]. split; [reflexivity |].
    destruct Hopen as (_ & Hreject & _); [reflexivity |].
    intros next Hearly. now rewrite (Hreject next Hearly).
Defined.

End CircuitBreakerExamples.

(** ** Routes *)

Section RouteProperties.

Import Routes.

Lemma hasToken_false (toLowerCase : string -> string) (tokens : list TokenInfo)
    (wanted : string) :
  hasToken toLowerCase tokens wanted = false <-> unlisted toLowerCase tokens wanted.
Proof.
  unfold hasToken, unlisted. induction tokens as [|t tokens IH]; cbn.
  - split; [intros _ t a Hin; inversion Hin | reflexivity].
  - rewrite orb_false_iff, IH, bool_decide_eq_false. split.
    + intros [Hhead Htail] t' a Hin Ha. apply elem_of_cons in Hin as [-> | Hin].
      * intros Heq. apply Hhead. now rewrite Ha; cbn; rewrite Heq.
      * now apply (Htail t' a).
    + intros Hall. split.
      * destruct (token_address t) as [a|] eqn:Ha; cbn; [| discriminate].
        intros [= Heq]. apply (Hall t a); [apply list_elem_of_here | exact Ha | exact Heq].
      * intros t' a Hin. apply Hall. now apply list_elem_of_further.
Qed.

Lemma length_eqb_0 {A} (l : list A) : (length l =? 0)%nat = false <-> l <> [].
Proof. destruct l; cbn; split; congruence. Qed.

(** X25. [supportsRoute] fails open: it refuses a route only on evidence.
    The answer is [false] only when a token list is at hand, cached or
    just fetched, that lists at least one token for Solana without the
    source token, or at least one token for the destination chain without
    the destination token, addresses compared without case; wrapped SOL is
    looked up as the native SOL address.  When the list cannot be fetched
    the answer is [true] and nothing is cached; a list that knows neither
    chain gives [true]; and a cached list is used without fetching. *)
Theorem supportsRoute_fails_open (toLowerCase : string -> string)
    (tokenCache : option (gmap string (list TokenInfo)))
    (fetched : result (gmap string (list TokenInfo))) (params : RouteParams) :
  (snd (supportsRoute toLowerCase tokenCache fetched params) = false ->
   exists cache,
     (tokenCache = Some cache \/ (tokenCache = None /\ fetched = Ok cache)) /\
     fst (supportsRoute toLowerCase tokenCache fetched params) = Some cache /\
     ((exists tokens, cache !! SOLANA_CHAIN_ID = Some tokens /\ tokens <> [] /\
                      unlisted toLowerCase tokens (sourceForCheck params)) \/
      (exists tokens, cache !! destChain params = Some tokens /\ tokens <> [] /\
                      unlisted toLowerCase tokens (destToken params)))) /\
  (forall e, tokenCache = None -> fetched = Throw e ->
             supportsRoute toLowerCase tokenCache fetched params = (None, true)) /\
  (forall cache, (tokenCache = Some cache \/ (tokenCache = None /\ fetched = Ok cache)) ->
                 cache !! SOLANA_CHAIN_ID = None -> cache !! destChain params = None ->
                 supportsRoute toLowerCase tokenCache fetched params
                   = (Some cache, true)) /\
  (forall cache other, tokenCache = Some cache ->
                       supportsRoute toLowerCase tokenCache fetched params
                         = supportsRoute toLowerCase tokenCache other params) /\
  (sourceToken params = SolanaService.SOL_MINT ->
   sourceForCheck params = NATIVE_SOL_ADDRESS).
Proof.
  split; [| split; [| split; [| split]]].
  - unfold supportsRoute.
    assert (Hloaded : forall cache,
      match tokenCache with Some c => Ok c | None => fetched end = Ok cache ->
      tokenCache = Some cache \/ (tokenCache = None /\ fetched = Ok cache)).
    { intros cache. destruct tokenCache as [c|]; [intros [= ->]; now left |].
      intros ->. now right. }
    destruct (match tokenCache with Some c => Ok c | None => fetched end)
      as [cache|e]; [| cbn; discriminate].
    specialize (Hloaded cache eq_refl).
    destruct (cache !! SOLANA_CHAIN_ID) as [sol|] eqn:Hsol;
      destruct (cache !! destChain params) as [dst|] eqn:Hdst;
      cbn [default from_option id].
    + destruct ((length sol =? 0)%nat && (length dst =? 0)%nat) eqn:Hboth;
        [cbn; discriminate |].
      cbn [fst snd]. intros Hno. exists cache. split; [exact Hloaded |].
      split; [reflexivity |]. apply andb_false_iff in Hno as [Hno | Hno];
        apply orb_false_iff in Hno as [Hlen Hmiss];
        apply length_eqb_0 in Hlen; apply hasToken_false in Hmiss.
      * left. exists sol. auto.
      * right. exists dst. auto.
    + destruct (length sol =? 0)%nat eqn:Hlen; cbn [andb length Nat.eqb];
        [cbn; discriminate |].
      cbn [fst snd orb]. rewrite andb_true_r. intros Hmiss.
      exists cache. split; [exact Hloaded |]. split; [reflexivity |].
      left. exists sol. apply length_eqb_0 in Hlen. apply hasToken_false in Hmiss. auto.
    + cbn [length Nat.eqb andb orb].
      destruct (length dst =? 0)%nat eqn:Hlen; [cbn; discriminate |].
      cbn [fst snd orb andb]. intros Hmiss.
      exists cache. split; [exact Hloaded |]. split; [reflexivity |].
      right. exists dst. apply length_eqb_0 in Hlen. apply hasToken_false in Hmiss. auto.
    + cbn. discriminate.
  - intros e -> ->. reflexivity.
  - intros cache Hloaded Hsol Hdst. unfold supportsRoute.
    assert (E : match tokenCache with Some c => Ok c | None => fetched end = Ok cache).
    { destruct Hloaded as [-> | [-> ->]]; reflexivity. }
    rewrite E, Hsol, Hdst. reflexivity.
  - intros cache other ->. reflexivity.
  - unfold sourceForCheck. intros ->. now rewrite String.eqb_refl.
Qed.

(** USDC to Ethereum is listed; an unknown destination token is refused;
    wrapped SOL is found as native SOL; an unknown chain cannot refuse. *)
Example supportsRoute_example :
  let usdc := "EPjFWdd5AufqSSqeM2qN1xzybapC8G4wEGGkZwyTDt1v"%string in
  snd (supportsRoute Retry.asciiLower (Some exampleTokens) (Throw (JsError "unused"))
         {| sourceToken := usdc; destChain := "1";
            destToken := "0xa0b86991c6218b36c1d19d4a2e9eb0ce3606eb48" |}) = true /\
  snd (supportsRoute Retry.asciiLower None (Ok exampleTokens)
         {| sourceToken := usdc; destChain := "1"; destToken := "0xdead" |}) = false /\
  snd (supportsRoute Retry.asciiLower (Some exampleTokens) (Throw (JsError "unused"))
         {| sourceToken := SolanaService.SOL_MINT; destChain := "1";
            destToken := "0xA0b86991c6218b36c1d19D4a2e9Eb0cE3606eB48" |}) = true /\
  snd (supportsRoute Retry.asciiLower (Some exampleTokens) (Throw (JsError "unused"))
         {| sourceToken := usdc; destChain := "10"; destToken := "0xdead" |}) = true.
Proof. repeat split; vm_compute; reflexivity. Qed.

End RouteProperties.
